(** * Session engine of the flashcard application (src/session.js)

    A shallow embedding of the queue builder, the rating functions (simple
    mode and the SM-2 derived spaced mode), the one-level rewind and the
    daily counters, followed by the properties the specification states
    about them.

    Conventions.
    - JavaScript numbers that hold a fractional value (the ease factor and
      every intermediate product) are IEEE binary64 values: Rocq's primitive
      floats, with the same operations.
    - Counters, limits and the review interval are integer valued numbers
      and are modelled in [Z]; [Z2float] gives the double an integer is
      when it enters a floating point product.
    - Card objects live in a store and are named by their address; the
      deck's card list, the queue and the rewind record hold addresses, so
      that a card reached through two of them is one object.
    - An own property of a card is [Absent], [Null] or holds a value.
    - The clock and the random source belong to the host: an operation
      takes the date [getTodayStr()] returns during the call as [today],
      and the shuffle takes the indices drawn with [Math.random()].
    - A date string [YYYY-MM-DD] is given by the number of its day since
      1970-01-01. [addDays] is the code's: local noon of the day read as a
      [Date], [setDate], [toISOString], over the time values, the time
      zone and the range of [Date] as ECMAScript defines them; dates are
      compared as the strings they are.

    The session engine is followed by the parts of the application built
    on it: the state machine of the main screen and the dialogs that change
    the deck (ui.js, dialogs.js), the deck storage and the deck import
    (config.js), and the text import (dialogs.js). *)

From Stdlib Require Import ZArith Floats.PrimFloat Floats.SpecFloat
  Floats.FloatOps Floats.FloatAxioms.
From stdpp Require Import base option list strings gmap.

Set Warnings "-inexact-float".
#[local] Open Scope Z_scope.

(** ** JavaScript numbers *)

Module JS.

(** The double nearest to an integer (ties to even); exact below 2^53. *)
Definition Z2float (n : Z) : float :=
  SF2Prim (binary_normalize prec emax n 0 false).

(** The result of [Math.round] read as a mathematical value. *)
Inductive rounded : Type :=
  | RNaN
  | RPosInf
  | RNegInf
  | RInt (n : Z).

(** [Math.round(x)]: the integer closest to [x], a tie going towards
    +infinity, that is floor(x + 1/2) computed without rounding error on
    the decoded mantissa and exponent. *)
Definition Math_round_int (x : float) : rounded :=
  match Prim2SF x with
  | S754_nan => RNaN
  | S754_infinity false => RPosInf
  | S754_infinity true => RNegInf
  | S754_zero _ => RInt 0
  | S754_finite s m e =>
      let v := if s then Z.neg m else Z.pos m in
      if 0 <=? e then RInt (v * 2 ^ e)
      else RInt ((2 * v + 2 ^ (- e)) / 2 ^ (- e + 1))
  end.

(** [Math.round(x)] as the double it returns; a zero result keeps the sign
    of [x]. *)
Definition Math_round (x : float) : float :=
  match Math_round_int x with
  | RNaN => nan
  | RPosInf => infinity
  | RNegInf => neg_infinity
  | RInt n =>
      if n =? 0 then (if get_sign x then neg_zero else zero)
      else Z2float n
  end.

(** [Math.max(a, b)] on doubles: NaN if either is, +0 above -0. *)
Definition Math_max (a b : float) : float :=
  if (is_nan a || is_nan b)%bool then nan
  else if (a <? b)%float then b
  else if (b <? a)%float then a
  else if get_sign a then b else a.

(** [Math.max(1, r)] for an already rounded [r]. *)
Definition Math_max1 (r : rounded) : rounded :=
  match r with
  | RNaN => RNaN
  | RPosInf => RPosInf
  | RNegInf => RInt 1
  | RInt n => RInt (Z.max 1 n)
  end.

(** Truthiness of a double: 0, -0 and NaN are falsy. *)
Definition truthy (x : float) : bool :=
  negb (is_nan x || (x =? 0)%float).

(** *** Dates

    A [Date] object holds a time value: the milliseconds since
    1970-01-01T00:00:00Z as an integer of at most 8.64e15 in absolute
    value, or NaN ([None], an invalid date). A date string [YYYY-MM-DD] is
    given by the number of its day, counted from 1970-01-01. *)

Definition msPerDay : Z := 86400000.
Definition msPerHour : Z := 3600000.
Definition maxTime : Z := 8640000000000000.

Definition Day (t : Z) : Z := t / msPerDay.
Definition TimeWithinDay (t : Z) : Z := t mod msPerDay.

(** [TimeClip]: a time beyond the range of [Date] is NaN. *)
Definition TimeClip (t : Z) : option Z :=
  if Z.abs t <=? maxTime then Some t else None.

(** The time zone of the host: the offset of local time from UTC in
    milliseconds, [LocalTZA(t, true)] at the UTC time [t] and
    [LocalTZA(t, false)] at the local time [t]. *)
Record host : Type := Host {
  LocalTZA_utc : Z -> Z;
  LocalTZA_local : Z -> Z
}.

Definition LocalTime (h : host) (t : Z) : Z := t + LocalTZA_utc h t.
Definition UTC (h : host) (t : Z) : Z := t - LocalTZA_local h t.

(** Local noon of the day [day], as a local time. *)
Definition noon (day : Z) : Z := day * msPerDay + 12 * msPerHour.

(** [new Date(s + 'T12:00:00')] for the date string [s] of the day [day]:
    a date-time without an offset is read as local time. *)
Definition Date_parse_noon (h : host) (day : Z) : option Z :=
  TimeClip (UTC h (noon day)).

(** [d.setDate(d.getDate() + n)]: the local year and month with the day of
    the month moved by [n], that is the local day plus [n], at the local
    time of day [d] has. On a time value as large as a [Date] holds and an
    [n] below 2^53 the doubles of the engine compute these integers
    exactly; a larger [n] leaves the range of [TimeClip] either way. *)
Definition Date_setDate_plus (h : host) (d : option Z) (n : Z) : option Z :=
  t ← d;
  let local := LocalTime h t in
  TimeClip (UTC h ((Day local + n) * msPerDay + TimeWithinDay local)).

(** [d.toISOString().split('T')[0]]: the day in UTC; [None] is the
    [RangeError] of [toISOString] on an invalid date. *)
Definition Date_toISODate (d : option Z) : option Z := Day <$> d.

(** Year, month and day of the month of a day number in the proleptic
    Gregorian calendar ([YearFromTime], [MonthFromTime] + 1,
    [DateFromTime]), by 400-year eras that start on March 1. *)
Definition civil (day : Z) : Z * Z * Z :=
  let z := day + 719468 in
  let era := z / 146097 in
  let doe := z mod 146097 in
  let yoe := (doe - doe / 1460 + doe / 36524 - doe / 146096) / 365 in
  let doy := doe - (365 * yoe + yoe / 4 - yoe / 100) in
  let mp := (5 * doy + 2) / 153 in
  let d := doy - (153 * mp + 2) / 5 + 1 in
  let m := if mp <? 10 then mp + 3 else mp - 9 in
  (yoe + era * 400 + (if m <=? 2 then 1 else 0), m, d).

(** The stages of [civil], named for the proofs: the year of the era and
    the day it starts on, then the year that starts on March 1 and the day
    of that year, then the month and the day of the month. *)
Definition year_of_era (doe : Z) : Z :=
  (doe - doe / 1460 + doe / 36524 - doe / 146096) / 365.

Definition year_start (yoe : Z) : Z := 365 * yoe + yoe / 4 - yoe / 100.

Definition march_year (z : Z) : Z :=
  year_of_era (z mod 146097) + z / 146097 * 400.

Definition march_day (z : Z) : Z :=
  z mod 146097 - year_start (year_of_era (z mod 146097)).

Definition civil_from (Y doy : Z) : Z * Z * Z :=
  let mp := (5 * doy + 2) / 153 in
  let d := doy - (153 * mp + 2) / 5 + 1 in
  let m := if mp <? 10 then mp + 3 else mp - 9 in
  (Y + (if m <=? 2 then 1 else 0), m, d).

(** The last [width] decimal digits of [n]. *)
Fixpoint digits (width : nat) (n : Z) : string :=
  match width with
  | O => EmptyString
  | S w =>
      digits w (n / 10)
      +:+ String (Ascii.ascii_of_N (48 + Z.to_N (n mod 10))) EmptyString
  end.

(** The year as [toISOString] prints it: four digits from 0000 to 9999,
    a sign and six digits otherwise. *)
Definition isoYear (y : Z) : string :=
  if (0 <=? y) && (y <=? 9999) then digits 4 y
  else (if y <? 0 then "-" else "+") +:+ digits 6 (Z.abs y).

(** The date string of a day. *)
Definition isoDate (day : Z) : string :=
  let '(y, m, d) := civil day in
  isoYear y +:+ "-" +:+ digits 2 m +:+ "-" +:+ digits 2 d.

(** [a <= b] on strings: the order of the code units. *)
Definition string_leb (a b : string) : bool := String.leb a b.

(** A host whose offset from UTC never changes. *)
Definition fixed_offset (offset : Z) : host :=
  {| LocalTZA_utc := fun _ => offset; LocalTZA_local := fun _ => offset |}.

End JS.

(** ** Data model *)

(** An own property of a JavaScript object: missing, [null], or a value. *)
Inductive slot (A : Type) : Type :=
  | Absent
  | Null
  | Val (a : A).
Arguments Absent {A}.
Arguments Null {A}.
Arguments Val {A} a.

Inductive status : Type := TO_REVIEW | FINISHED | SPACED.
Inductive mode : Type := simple | spaced.

(** The rating strings the interface sends; in spaced mode [forgot] and
    [remembered] (like any other string) select no branch of the table. *)
Inductive rating : Type := forgot | remembered | again | hard | good | easy.

(** How a call ends: normally, or by the [RangeError] that
    [Date.prototype.toISOString] raises on an invalid date. *)
Inductive completion : Type := Returned | Thrown.

(** The summary [getDeckStats] returns, by mode. *)
Inductive stats : Type :=
  | SpacedStats (total due upcoming : nat)
  | SimpleStats (total finished toReview : nat).

(** Calendar dates are the strings [YYYY-MM-DD] the host's [Date] produces.
    The engine compares them ([===], [<=]), reads them as a [Date]
    ([new Date(s + 'T12:00:00')]), moves that [Date] ([setDate]) and prints
    it ([toISOString]); these are the host's, and the engine is written over
    them. [js_calendar] below gives them the meaning they have in
    ECMAScript on a host with a given time zone. *)
Class Calendar (date : Type) : Type := {
  date_eq_dec :: EqDecision date;
  date_leb : date -> date -> bool;
  Date_noon : date -> option Z;
  Date_plus_days : option Z -> Z -> option Z;
  Date_dateString : option Z -> option date
}.

(** The calendar of ECMAScript on the host [h]. A date string is given by
    its day number, and two strings are compared as the texts [toISOString]
    prints for them. *)
Definition js_calendar (h : JS.host) : Calendar Z := {|
  date_eq_dec := Z.eq_dec;
  date_leb := fun a b => JS.string_leb (JS.isoDate a) (JS.isoDate b);
  Date_noon := JS.Date_parse_noon h;
  Date_plus_days := JS.Date_setDate_plus h;
  Date_dateString := JS.Date_toISODate
|}.

(** The sample decks live on a host set to UTC; a host thirteen hours ahead
    of UTC (New Zealand in summer, Tonga) shows what the time zone does. *)
Definition utc_host : JS.host := JS.fixed_offset 0.
Definition utc_plus_13 : JS.host := JS.fixed_offset (13 * JS.msPerHour).

#[export] Instance utc_calendar : Calendar Z := js_calendar utc_host.

(** Addresses of card objects. *)
Abbreviation loc := nat (only parsing).

Section Engine.

Context {date : Type} `{!Calendar date}.

Record card : Type := Card {
  word : string;
  translation : string;
  sessionStatus : slot status;
  dueDate : slot date;
  interval : slot Z;
  easeFactor : slot float
}.

Record deck : Type := Deck {
  dailyLimit : option Z;
  learningMode : mode;
  cards : list loc;
  lastSessionDate : option date;
  cardsReviewedToday : option Z;
  sessionExtension : option Z
}.

(** [rewindBackup]: the record [rateCard] saves before it mutates. *)
Record backup : Type := Backup {
  index : nat;
  cardSnapshot : card;
  deckCardRef : loc;
  savedCardsReviewedToday : Z
}.

(** The module level variables of [Session]. *)
Record session : Type := SessionState {
  queue : list loc;
  currentIndex : nat;
  rewindBackup : option backup
}.

(** Everything an operation can read or write: the card objects, the deck
    object passed in, and the module's variables. *)
Record world : Type := World {
  heap : list card;
  dk : deck;
  ss : session
}.

(** The module as loaded: [queue = []], [currentIndex = 0],
    [rewindBackup = null]. *)
Definition initial_session : session :=
  {| queue := []; currentIndex := 0; rewindBackup := None |}.

(** [x || d] on an integer property that may be missing. *)
Definition or_int (x : option Z) (d : Z) : Z :=
  match x with
  | Some n => if n =? 0 then d else n
  | None => d
  end.

(** [card.interval || 1] *)
Definition interval_or (x : slot Z) (d : Z) : Z :=
  match x with
  | Val n => if n =? 0 then d else n
  | _ => d
  end.

(** [card.easeFactor || 2.5] *)
Definition ease_or (x : slot float) (d : float) : float :=
  match x with
  | Val f => if JS.truthy f then f else d
  | _ => d
  end.

(** *** Day reset *)

Definition checkDayReset (d : deck) (today : date) : deck :=
  if decide (lastSessionDate d = Some today) then d
  else {| dailyLimit := dailyLimit d;
          learningMode := learningMode d;
          cards := cards d;
          lastSessionDate := Some today;
          cardsReviewedToday := Some 0;
          sessionExtension := Some 0 |}.

(** *** Queue building *)

(** The two filter predicates of [buildQueue]. An address outside the store
    names no object and is never selected. *)
Definition is_due (today : date) (c : card) : bool :=
  match dueDate c with
  | Val d => date_leb d today
  | _ => true
  end.

Definition not_finished (c : card) : bool :=
  match sessionStatus c with
  | Val FINISHED => false
  | _ => true
  end.

Definition eligible (h : list card) (m : mode) (today : date) (l : loc) : bool :=
  match h !! l with
  | Some c =>
      match m with
      | spaced => is_due today c
      | simple => not_finished c
      end
  | None => false
  end.

(** [[a[i], a[j]] = [a[j], a[i]]] for positions inside the array. *)
Definition swap {A : Type} (a : list A) (i j : nat) : list A :=
  match a !! i, a !! j with
  | Some x, Some y => <[j := x]> (<[i := y]> a)
  | _, _ => a
  end.

(** The shuffle loop, [for (i = k; i > 0; i--)]; [rnd i] is the value of
    [Math.floor(Math.random() * (i + 1))] drawn in the iteration for [i]. *)
Fixpoint shuffle_loop {A : Type} (rnd : nat -> nat) (i : nat) (a : list A)
  : list A :=
  match i with
  | O => a
  | S i' => shuffle_loop rnd i' (swap a i (rnd i))
  end.

Definition shuffle {A : Type} (rnd : nat -> nat) (a : list A) : list A :=
  shuffle_loop rnd (length a - 1)%nat a.

(** A draw for [i] lies in [0 .. i], as [Math.random()] is below 1. *)
Definition rnd_ok (rnd : nat -> nat) : Prop :=
  forall i : nat, (rnd i <= i)%nat.

Definition effectiveLimit (d : deck) : Z :=
  or_int (dailyLimit d) 5 + or_int (sessionExtension d) 0.

Definition remaining (d : deck) : Z :=
  Z.max 0 (effectiveLimit d - or_int (cardsReviewedToday d) 0).

Definition candidates (h : list card) (d : deck) (today : date) : list loc :=
  List.filter (eligible h (learningMode d) today) (cards d).

Definition buildQueue (w : world) (today : date) (rnd : nat -> nat) : world :=
  let d := checkDayReset (dk w) today in
  let shuffled := shuffle rnd (candidates (heap w) d today) in
  {| heap := heap w;
     dk := d;
     ss := {| queue := take (Z.to_nat (remaining d)) shuffled;
              currentIndex := 0;
              rewindBackup := None |} |}.

(** *** Queries *)

Definition getCurrentCard (w : world) : option loc :=
  queue (ss w) !! currentIndex (ss w).

Definition isComplete (w : world) : bool :=
  bool_decide (length (queue (ss w)) <= currentIndex (ss w))%nat.

Definition getProgress (w : world) : nat * nat :=
  (currentIndex (ss w), length (queue (ss w))).

Definition canRewind (w : world) : bool :=
  match rewindBackup (ss w) with
  | Some _ => true
  | None => false
  end.

(** *** Dates *)

(** [addDays(dateStr, days)]; [None] is the [RangeError] [toISOString]
    raises when the date it is to print is invalid. *)
Definition addDays (dateStr : date) (days : Z) : option date :=
  let d := Date_noon dateStr in
  let d := Date_plus_days d days in
  Date_dateString d.

(** *** Card rating *)

(** [Math.max(1, Math.round(x))], the number handed to [addDays] and then
    stored; [None] when it is [Infinity] or [NaN], for which [setDate]
    leaves an invalid date and [toISOString] throws. *)
Definition next_interval (x : float) : option Z :=
  match JS.Math_max1 (JS.Math_round_int x) with
  | JS.RInt n => Some n
  | _ => None
  end.

(** The three writes that end [applySpacedRating]. *)
Definition store_rating (c : card) (interval : Z) (ease : float)
    (due : slot date) : card :=
  {| word := word c;
     translation := translation c;
     sessionStatus := Val SPACED;
     dueDate := due;
     interval := Val interval;
     easeFactor := Val (JS.Math_round (ease * 1000) / 1000)%float |}.

(** [applySpacedRating(card, rating, today)]. [None] is the exception of
    [addDays]; it is raised before the first write, so the card is then
    as it was. *)
Definition applySpacedRating (c : card) (r : rating) (today : date)
  : option card :=
  let interval := interval_or (interval c) 1 in
  let ease := ease_or (easeFactor c) 2.5%float in
  match r with
  | again =>
      Some (store_rating c 1 (JS.Math_max 1.3 (ease - 0.2))%float (Val today))
  | hard =>
      n ← next_interval (JS.Z2float interval * 1.2)%float;
      d ← addDays today n;
      Some (store_rating c n (JS.Math_max 1.3 (ease - 0.15))%float (Val d))
  | good =>
      n ← next_interval (JS.Z2float interval * ease)%float;
      d ← addDays today n;
      Some (store_rating c n ease (Val d))
  | easy =>
      n ← next_interval (JS.Z2float interval * ease * 1.3)%float;
      d ← addDays today n;
      Some (store_rating c n (ease + 0.15)%float (Val d))
  | _ => Some (store_rating c interval ease (dueDate c))
  end.

(** The simple mode branch of [rateCard]. *)
Definition applySimpleRating (c : card) (r : rating) : card :=
  match r with
  | remembered =>
      {| word := word c;
         translation := translation c;
         sessionStatus := Val FINISHED;
         dueDate := dueDate c;
         interval := interval c;
         easeFactor := easeFactor c |}
  | _ => c
  end.

(** The predicate of [deck.cards.find]: the same object, or equal [word]
    and [translation]. *)
Definition matches (h : list card) (queueCard c : loc) : bool :=
  match h !! c with
  | Some cc =>
      bool_decide (c = queueCard)
      || match h !! queueCard with
         | Some qc =>
             bool_decide (word cc = word qc)
             && bool_decide (translation cc = translation qc)
         | None => false
         end
  | None => false
  end.

Definition find_deckCard (h : list card) (d : deck) (queueCard : loc)
  : option loc :=
  List.find (matches h queueCard) (cards d).

Definition set_reviewed (d : deck) (n : Z) : deck :=
  {| dailyLimit := dailyLimit d;
     learningMode := learningMode d;
     cards := cards d;
     lastSessionDate := lastSessionDate d;
     cardsReviewedToday := Some n;
     sessionExtension := sessionExtension d |}.

Definition set_extension (d : deck) (n : Z) : deck :=
  {| dailyLimit := dailyLimit d;
     learningMode := learningMode d;
     cards := cards d;
     lastSessionDate := lastSessionDate d;
     cardsReviewedToday := cardsReviewedToday d;
     sessionExtension := Some n |}.

(** The branch on [deck.learningMode] inside [rateCard]. *)
Definition applyRating (m : mode) (c : card) (r : rating) (today : date)
  : option card :=
  match m with
  | spaced => applySpacedRating c r today
  | simple => Some (applySimpleRating c r)
  end.

Definition rateCard (w : world) (r : rating) (today : date)
  : world * completion :=
  let s := ss w in
  match queue s !! currentIndex s with
  | None => (w, Returned)
  | Some queueCard =>
      match find_deckCard (heap w) (dk w) queueCard with
      | None =>
          ({| heap := heap w;
              dk := dk w;
              ss := {| queue := queue s;
                       currentIndex := S (currentIndex s);
                       rewindBackup := rewindBackup s |} |}, Returned)
      | Some deckCard =>
          match heap w !! deckCard with
          | None => (w, Returned) (* not reached: [matches] holds in the store only *)
          | Some c =>
              let b := {| index := currentIndex s;
                          cardSnapshot := c;
                          deckCardRef := deckCard;
                          savedCardsReviewedToday :=
                            or_int (cardsReviewedToday (dk w)) 0 |} in
              match applyRating (learningMode (dk w)) c r today with
              | None =>
                  ({| heap := heap w;
                      dk := dk w;
                      ss := {| queue := queue s;
                               currentIndex := currentIndex s;
                               rewindBackup := Some b |} |}, Thrown)
              | Some c' =>
                  ({| heap := <[deckCard := c']> (heap w);
                      dk := set_reviewed (dk w)
                              (or_int (cardsReviewedToday (dk w)) 0 + 1);
                      ss := {| queue := queue s;
                               currentIndex := S (currentIndex s);
                               rewindBackup := Some b |} |}, Returned)
              end
          end
      end
  end.

(** *** Rewind *)

(** [Object.assign(target, source)] copies the own properties of [source];
    a property [source] does not have is left as [target] has it. *)
Definition assign_slot {A : Type} (target source : slot A) : slot A :=
  match source with
  | Absent => target
  | _ => source
  end.

Definition Object_assign (target source : card) : card :=
  {| word := word source;
     translation := translation source;
     sessionStatus := assign_slot (sessionStatus target) (sessionStatus source);
     dueDate := assign_slot (dueDate target) (dueDate source);
     interval := assign_slot (interval target) (interval source);
     easeFactor := assign_slot (easeFactor target) (easeFactor source) |}.

(** [rewind(deck)]. The saved index is a position of the queue in every
    state the operations reach ([backup_index_in_queue] below), so the write
    [queue[index] = deckCardRef] never extends the array. *)
Definition rewind (w : world) : world * bool :=
  match rewindBackup (ss w) with
  | None => (w, false)
  | Some b =>
      ({| heap := alter (fun target => Object_assign target (cardSnapshot b))
                        (deckCardRef b) (heap w);
          dk := set_reviewed (dk w) (savedCardsReviewedToday b);
          ss := {| queue := <[index b := deckCardRef b]> (queue (ss w));
                   currentIndex := index b;
                   rewindBackup := None |} |}, true)
  end.

(** *** Session extension *)

Definition extendSession (w : world) (amount : Z) (today : date)
    (rnd : nat -> nat) : world :=
  buildQueue
    {| heap := heap w;
       dk := set_extension (dk w)
               (or_int (sessionExtension (dk w)) 0 + Z.max 1 amount);
       ss := ss w |}
    today rnd.

(** *** Stats *)

(** The cards of the deck that satisfy a predicate, counted. *)
Definition count_cards (h : list card) (d : deck) (f : card -> bool) : nat :=
  length (List.filter
            (fun l => match h !! l with Some c => f c | None => false end)
            (cards d)).

(** [getDeckStats(deck)]; [dueDate > today] on date strings is the negation
    of [dueDate <= today]. *)
Definition getDeckStats (h : list card) (d : deck) (today : date) : stats :=
  match learningMode d with
  | spaced =>
      SpacedStats (length (cards d))
        (count_cards h d (is_due today))
        (count_cards h d (fun c => negb (is_due today c)))
  | simple =>
      SimpleStats (length (cards d))
        (count_cards h d (fun c => negb (not_finished c)))
        (count_cards h d not_finished)
  end.

End Engine.

Arguments card date : clear implicits.
Arguments deck date : clear implicits.
Arguments backup date : clear implicits.
Arguments session date : clear implicits.
Arguments world date : clear implicits.
Arguments addDays {date _} dateStr days : simpl never.

(** ** Notions of the specification *)

Section Specification.

Context {date : Type} `{!Calendar date}.

(** The SM-2 table as the specification words it, written without the
    functions of the engine.

    What a rating reads from the card: the interval the card holds, or 1
    where the property is missing, [null] or 0; the ease it holds, or 2.5
    where the property is missing, [null], 0 or NaN. *)
Inductive reads_interval : slot Z -> Z -> Prop :=
  | reads_interval_held n : n <> 0 -> reads_interval (Val n) n
  | reads_interval_zero : reads_interval (Val 0) 1
  | reads_interval_null : reads_interval Null 1
  | reads_interval_missing : reads_interval Absent 1.

Inductive reads_ease : slot float -> float -> Prop :=
  | reads_ease_held x :
      is_nan x = false -> (x =? 0)%float = false -> reads_ease (Val x) x
  | reads_ease_falsy x :
      is_nan x = true \/ (x =? 0)%float = true ->
      reads_ease (Val x) 2.5%float
  | reads_ease_null : reads_ease Null 2.5%float
  | reads_ease_missing : reads_ease Absent 2.5%float.

(** [n] is the integer nearest to the double [x], the upper one of two
    that are equally near: n - 1/2 <= x < n + 1/2, on the exact value
    v * 2^e of [x]. *)
Definition nearest_integer (x : float) (n : Z) : Prop :=
  match Prim2SF x with
  | S754_zero _ => n = 0
  | S754_finite s m e =>
      let v := if s then Z.neg m else Z.pos m in
      (2 * n - 1) * 2 ^ Z.max 0 (- e) <= 2 * v * 2 ^ Z.max 0 e
      /\ 2 * v * 2 ^ Z.max 0 e < (2 * n + 1) * 2 ^ Z.max 0 (- e)
  | _ => False
  end.

(** max(1, round(x)) as a number of days: there is none for NaN and
    +Infinity. *)
Inductive rounds_to_days : float -> Z -> Prop :=
  | days_nearest x n : nearest_integer x n -> rounds_to_days x (Z.max 1 n)
  | days_minus_infinity : rounds_to_days neg_infinity 1.

(** round(x) as a double: the nearest integer, a zero with the sign of
    [x], or [x] itself where it is infinite or NaN. *)
Inductive rounds_to : float -> float -> Prop :=
  | round_nearest x n :
      nearest_integer x n -> n <> 0 -> rounds_to x (JS.Z2float n)
  | round_to_zero x :
      nearest_integer x 0 ->
      rounds_to x (if get_sign x then neg_zero else zero)
  | round_not_finite x s :
      Prim2SF x = S754_nan \/ Prim2SF x = S754_infinity s -> rounds_to x x.

(** [y] is [x] rounded to three decimal places. *)
Definition three_decimals (x y : float) : Prop :=
  exists z, rounds_to (x * 1000)%float z /\ y = (z / 1000)%float.

(** max(1.3, x) *)
Definition at_least_1_3 (x : float) : float :=
  if (x <? 1.3)%float then 1.3%float else x.

(** The columns of the table: the new interval, the new ease before it is
    rounded. *)
Definition table_days (r : rating) (interval : Z) (ease : float) (n : Z)
  : Prop :=
  match r with
  | again => n = 1
  | hard => rounds_to_days (JS.Z2float interval * 1.2)%float n
  | good => rounds_to_days (JS.Z2float interval * ease)%float n
  | easy => rounds_to_days (JS.Z2float interval * ease * 1.3)%float n
  | _ => False
  end.

Definition table_ease (r : rating) (ease : float) : float :=
  match r with
  | again => at_least_1_3 (ease - 0.2)%float
  | hard => at_least_1_3 (ease - 0.15)%float
  | easy => (ease + 0.15)%float
  | _ => ease
  end.

(** A host on which local noon is read back as noon and lies on the same
    day in UTC: the offset in force at noon is above -12 h and at most
    +12 h. *)
Definition noon_on_same_day (h : JS.host) : Prop :=
  forall day,
    - (12 * JS.msPerHour) < JS.LocalTZA_local h (JS.noon day)
    /\ JS.LocalTZA_local h (JS.noon day) <= 12 * JS.msPerHour
    /\ JS.LocalTime h (JS.UTC h (JS.noon day)) = JS.noon day.

(** Local noon of the day is a time a [Date] can hold. *)
Definition date_in_range (h : JS.host) (day : Z) : Prop :=
  Z.abs (JS.UTC h (JS.noon day)) <= JS.maxTime.

(** A day from 0000-01-01 to 9999-12-31: its date string has a year of
    four digits. *)
Definition four_digit_year (day : Z) : Prop := -719528 <= day <= 2932896.

(** Year, month and day as one number, in their order. *)
Definition date_key (ymd : Z * Z * Z) : Z :=
  let '(y, m, d) := ymd in (y * 16 + m) * 32 + d.

Definition spaced_rating (r : rating) : Prop :=
  r = again \/ r = hard \/ r = good \/ r = easy.

(** A card all of whose scheduling properties exist (possibly as [null]),
    as every card the application itself creates. *)
Definition complete (c : card date) : Prop :=
  sessionStatus c <> Absent /\ dueDate c <> Absent
  /\ interval c <> Absent /\ easeFactor c <> Absent.

(** The daily limit is present and positive. *)
Definition positive_limit (d : deck date) (L : Z) : Prop :=
  dailyLimit d = Some L /\ 0 < L.

(** A deck whose counters are in order, with the module as loaded. *)
Definition valid_initial (w : world date) (L : Z) : Prop :=
  positive_limit (dk w) L
  /\ 0 <= or_int (sessionExtension (dk w)) 0
  /\ 0 <= or_int (cardsReviewedToday (dk w)) 0
  /\ or_int (cardsReviewedToday (dk w)) 0
       <= L + or_int (sessionExtension (dk w)) 0
  /\ ss w = initial_session.

(** One call of a mutating operation of the module. *)
Inductive step : world date -> world date -> Prop :=
  | step_buildQueue w today rnd :
      rnd_ok rnd -> step w (buildQueue w today rnd)
  | step_rateCard w r today :
      step w (rateCard w r today).1
  | step_rewind w :
      step w (rewind w).1
  | step_extendSession w amount today rnd :
      rnd_ok rnd -> step w (extendSession w amount today rnd).

(** Any sequence of calls. *)
Inductive reachable (w0 : world date) : world date -> Prop :=
  | reach_here : reachable w0 w0
  | reach_step w w' : reachable w0 w -> step w w' -> reachable w0 w'.

(** What the counter bound needs to be inductive: the slots of the queue
    still to come fit in the allowance, now and at the point the rewind
    record returns to. *)
Definition allowance_inv (L : Z) (w : world date) : Prop :=
  positive_limit (dk w) L
  /\ 0 <= or_int (sessionExtension (dk w)) 0
  /\ (currentIndex (ss w) <= length (queue (ss w)))%nat
  /\ or_int (cardsReviewedToday (dk w)) 0
       + (Z.of_nat (length (queue (ss w))) - Z.of_nat (currentIndex (ss w)))
       <= L + or_int (sessionExtension (dk w)) 0
  /\ match rewindBackup (ss w) with
     | Some b =>
         (index b < length (queue (ss w)))%nat
         /\ savedCardsReviewedToday b
             + (Z.of_nat (length (queue (ss w))) - Z.of_nat (index b))
             <= L + or_int (sessionExtension (dk w)) 0
     | None => True
     end.

(** The outcomes of [rateCard]. *)
Inductive rateCard_case (w : world date) (r : rating) (today : date)
  : world date * completion -> Prop :=
  | rate_complete :
      queue (ss w) !! currentIndex (ss w) = None ->
      rateCard_case w r today (w, Returned)
  | rate_stale q :
      queue (ss w) !! currentIndex (ss w) = Some q ->
      find_deckCard (heap w) (dk w) q = None ->
      rateCard_case w r today
        ({| heap := heap w; dk := dk w;
            ss := {| queue := queue (ss w);
                     currentIndex := S (currentIndex (ss w));
                     rewindBackup := rewindBackup (ss w) |} |}, Returned)
  | rate_thrown q l c :
      queue (ss w) !! currentIndex (ss w) = Some q ->
      find_deckCard (heap w) (dk w) q = Some l ->
      heap w !! l = Some c ->
      applyRating (learningMode (dk w)) c r today = None ->
      rateCard_case w r today
        ({| heap := heap w; dk := dk w;
            ss := {| queue := queue (ss w);
                     currentIndex := currentIndex (ss w);
                     rewindBackup :=
                       Some {| index := currentIndex (ss w);
                               cardSnapshot := c;
                               deckCardRef := l;
                               savedCardsReviewedToday :=
                                 or_int (cardsReviewedToday (dk w)) 0 |} |} |},
         Thrown)
  | rate_rated q l c c' :
      queue (ss w) !! currentIndex (ss w) = Some q ->
      find_deckCard (heap w) (dk w) q = Some l ->
      heap w !! l = Some c ->
      applyRating (learningMode (dk w)) c r today = Some c' ->
      rateCard_case w r today
        ({| heap := <[l := c']> (heap w);
            dk := set_reviewed (dk w)
                    (or_int (cardsReviewedToday (dk w)) 0 + 1);
            ss := {| queue := queue (ss w);
                     currentIndex := S (currentIndex (ss w));
                     rewindBackup :=
                       Some {| index := currentIndex (ss w);
                               cardSnapshot := c;
                               deckCardRef := l;
                               savedCardsReviewedToday :=
                                 or_int (cardsReviewedToday (dk w)) 0 |} |} |},
         Returned).

(** The last iteration seen from the end of the array: the element that
    moves to the last place, and what stays in front of it. *)
Definition last_swap {A} (b : list A) (x : A) (j : nat) : list A * A :=
  match b !! j with
  | Some y => (<[j := x]> b, y)
  | None => (b, x)
  end.

(** The draws of one run of the shuffle over [k + 1] elements, listed from
    the draw for [i = 1] to the draw for [i = k]: all the sequences there
    are, each draw for [i] ranging over [0 .. i]. *)
Fixpoint all_draws (k : nat) : list (list nat) :=
  match k with
  | O => [[]]
  | S k' => js ← all_draws k'; (fun j => js ++ [j]) <$> seq 0 (S (S k'))
  end.

(** The source that yields the draws of a sequence. *)
Definition rnd_of (js : list nat) : nat -> nat :=
  fun i =>
    match i with
    | O => O
    | S i' => default O (js !! i')
    end.

End Specification.

(** ** Sample decks, on a host set to UTC; day 20000 is 2024-10-04 *)

Definition today0 : Z := 20000.

(** A source whose every draw is 0. *)
Definition first_draw : nat -> nat := fun _ => 0%nat.

Definition new_card (w t : string) : card Z :=
  {| word := w; translation := t; sessionStatus := Val TO_REVIEW;
     dueDate := Null; interval := Val 1; easeFactor := Val 2.5%float |}.

Definition hola : card Z := new_card "Hola" "Hello".
Definition gato : card Z := new_card "Gato" "Cat".
Definition pan : card Z := new_card "Pan" "Bread".

(** Three new cards, a daily limit of 2, nothing reviewed yet. *)
Definition sample_world (m : mode) (limit : option Z) : world Z :=
  {| heap := [hola; gato; pan];
     dk := {| dailyLimit := limit; learningMode := m; cards := [0; 1; 2]%nat;
              lastSessionDate := None; cardsReviewedToday := Some 0;
              sessionExtension := Some 0 |};
     ss := initial_session |}.

(** A deck last used the day before, with 5 cards reviewed and an
    extension of 3. *)
Definition yesterday_world : world Z :=
  {| heap := [hola; gato; pan];
     dk := {| dailyLimit := Some 5; learningMode := simple;
              cards := [0; 1; 2]%nat;
              lastSessionDate := Some (today0 - 1);
              cardsReviewedToday := Some 5;
              sessionExtension := Some 3 |};
     ss := initial_session |}.

(** A queue whose entry was removed from the deck after the build. *)
Definition stale_world : world Z :=
  {| heap := [hola; gato];
     dk := {| dailyLimit := Some 5; learningMode := simple; cards := [1%nat];
              lastSessionDate := Some today0; cardsReviewedToday := Some 0;
              sessionExtension := Some 0 |};
     ss := {| queue := [0%nat]; currentIndex := 0; rewindBackup := None |} |}.

(** A card with a long interval and a low ease, and one whose next
    interval leads past the last day a [Date] can hold. *)
Definition worn_card : card Z :=
  {| word := "Pan"; translation := "Bread"; sessionStatus := Val SPACED;
     dueDate := Val today0; interval := Val 10; easeFactor := Val 1.4%float |}.

Definition far_card : card Z :=
  {| word := "Pan"; translation := "Bread"; sessionStatus := Val SPACED;
     dueDate := Val today0; interval := Val 100000000;
     easeFactor := Val 2.5%float |}.

(** A card stored before the scheduling properties existed: it has a
    status but no [dueDate], [interval] or [easeFactor]. *)
Definition legacy_card : card Z :=
  {| word := "Gato"; translation := "Cat"; sessionStatus := Val TO_REVIEW;
     dueDate := Absent; interval := Absent; easeFactor := Absent |}.

Definition legacy_world : world Z :=
  {| heap := [legacy_card];
     dk := {| dailyLimit := Some 5; learningMode := spaced; cards := [0%nat];
              lastSessionDate := None; cardsReviewedToday := Some 0;
              sessionExtension := Some 0 |};
     ss := initial_session |}.

(** ** Notions for runs of the session *)

Section Runs.

Context {date : Type} `{!Calendar date}.

(** [rateCard] called once for each rating of a list, in order; a call that
    throws leaves the state it had reached. *)
Fixpoint rateCards (w : world date) (rs : list rating) (today : date)
  : world date :=
  match rs with
  | [] => w
  | r :: rs' => rateCards (rateCard w r today).1 rs' today
  end.

(** The figure of [getDeckStats] that counts the cards a build can take:
    [due] in spaced mode, [toReview] in simple mode; the other figure; and
    [total]. *)
Definition stats_open (s : stats) : nat :=
  match s with
  | SpacedStats _ due _ => due
  | SimpleStats _ _ toReview => toReview
  end.

Definition stats_closed (s : stats) : nat :=
  match s with
  | SpacedStats _ _ upcoming => upcoming
  | SimpleStats _ finished _ => finished
  end.

Definition stats_total (s : stats) : nat :=
  match s with
  | SpacedStats total _ _ => total
  | SimpleStats total _ _ => total
  end.

(** Every entry of [deck.cards] is an object of the store. *)
Definition cards_allocated (h : list (card date)) (d : deck date) : Prop :=
  forall l, l ∈ cards d -> is_Some (h !! l).

(** The module variables are consistent: the cursor is at most the queue
    length and a pending rewind record points into the queue. *)
Definition session_ok (s : session date) : Prop :=
  (currentIndex s <= length (queue s))%nat
  /\ match rewindBackup s with
     | Some b => (index b < length (queue s))%nat
     | None => True
     end.

End Runs.

(** ** The interface: settings, reset, card editor and application state
    (dialogs.js, ui.js) *)

(** The states of the main screen. *)
Inductive app_state : Type := NO_DECK | SHOW_FRONT | SHOW_BACK | SESSION_COMPLETE.

Section Interface.

Context {date : Type} `{!Calendar date}.

(** What the interface holds besides the page: the card objects, the
    variable [currentDeck] ([None] for [null]), the variables of [Session]
    and [appState]. Saving to [localStorage] and drawing are not part of
    it. *)
Record ui : Type := UI {
  objects : list (card date);
  currentDeck : option (deck date);
  session_vars : session date;
  appState : app_state
}.

Definition world_of (u : ui) (d : deck date) : world date :=
  {| heap := objects u; dk := d; ss := session_vars u |}.

Definition ui_of (w : world date) (st : app_state) : ui :=
  {| objects := heap w; currentDeck := Some (dk w);
     session_vars := ss w; appState := st |}.

Definition set_appState (u : ui) (st : app_state) : ui :=
  {| objects := objects u; currentDeck := currentDeck u;
     session_vars := session_vars u; appState := st |}.

(** [Session.isComplete()], which reads the module variables only. *)
Definition session_complete (s : session date) : bool :=
  bool_decide (length (queue s) <= currentIndex s)%nat.

(** [updateState()] *)
Definition updateState (u : ui) : ui :=
  set_appState u
    match currentDeck u with
    | None => NO_DECK
    | Some _ =>
        if session_complete (session_vars u) then SESSION_COMPLETE
        else SHOW_FRONT
    end.

(** [openDeck(name)]; [loaded] is what [Config.loadDeck(name)] parsed: a
    deck with its card objects, or [None] for [null]. *)
Definition openDeck (u : ui) (loaded : option (list (card date) * deck date))
    (today : date) (rnd : nat -> nat) : ui :=
  match loaded with
  | None => u
  | Some (h, d) =>
      updateState
        (ui_of (buildQueue {| heap := h; dk := d; ss := session_vars u |}
                  today rnd) (appState u))
  end.

Definition onShowAnswer (u : ui) : ui :=
  match appState u with
  | SHOW_FRONT => set_appState u SHOW_BACK
  | _ => u
  end.

Definition onBackToFront (u : ui) : ui :=
  match appState u with
  | SHOW_BACK => set_appState u SHOW_FRONT
  | _ => u
  end.

(** [onRate(rating)]. With [currentDeck] null, [Session.rateCard(null, _)]
    returns at its first line when the session is complete and otherwise
    fails on [deck.cards] with a [TypeError]. An exception leaves
    [appState] as it is. *)
Definition onRate (u : ui) (r : rating) (today : date) : ui * completion :=
  match appState u with
  | SHOW_BACK =>
      match currentDeck u with
      | None =>
          if session_complete (session_vars u) then (updateState u, Returned)
          else (u, Thrown)
      | Some d =>
          match rateCard (world_of u d) r today with
          | (w', Returned) => (updateState (ui_of w' (appState u)), Returned)
          | (w', Thrown) => (ui_of w' (appState u), Thrown)
          end
      end
  | _ => (u, Returned)
  end.

(** [onRewind()]. With [currentDeck] null, [Session.rewind(null)] restores
    the card and the queue position and then fails on
    [deck.cardsReviewedToday] with a [TypeError], the record still
    pending. *)
Definition onRewind (u : ui) : ui * completion :=
  match rewindBackup (session_vars u) with
  | None => (u, Returned)
  | Some b =>
      match currentDeck u with
      | None =>
          ({| objects := alter (fun target => Object_assign target (cardSnapshot b))
                               (deckCardRef b) (objects u);
              currentDeck := None;
              session_vars :=
                {| queue := <[index b := deckCardRef b]> (queue (session_vars u));
                   currentIndex := index b;
                   rewindBackup := Some b |};
              appState := appState u |}, Thrown)
      | Some d => (ui_of (rewind (world_of u d)).1 SHOW_FRONT, Returned)
      end
  end.

(** [onExtendSession()]; [input] is what [parseInt] read, [None] for NaN:
    [parseInt(..) || 5]. *)
Definition onExtendSession (u : ui) (input : option Z) (today : date)
    (rnd : nat -> nat) : ui :=
  match currentDeck u with
  | None => u
  | Some d =>
      updateState
        (ui_of (extendSession (world_of u d) (or_int input 5) today rnd)
           (appState u))
  end.

(** [extendSessionFromSettings()]:
    [isNaN(amountInput) ? 5 : Math.max(1, amountInput)]. *)
Definition settings_amount (input : option Z) : Z :=
  match input with
  | None => 5
  | Some n => Z.max 1 n
  end.

Definition extendSessionFromSettings (u : ui) (input : option Z)
    (today : date) (rnd : nat -> nat) : ui :=
  match currentDeck u with
  | None => u
  | Some d =>
      updateState
        (ui_of (extendSession (world_of u d) (settings_amount input) today rnd)
           (appState u))
  end.

(** [saveSettings()]: the limit is
    [isNaN(limitInput) ? 5 : Math.max(1, Math.min(500, limitInput))], the
    mode the checked radio button or ['simple']. *)
Definition settings_limit (limitInput : option Z) : Z :=
  match limitInput with
  | None => 5
  | Some n => Z.max 1 (Z.min 500 n)
  end.

Definition set_settings (d : deck date) (m : mode) (limit : Z) : deck date :=
  {| dailyLimit := Some limit;
     learningMode := m;
     cards := cards d;
     lastSessionDate := lastSessionDate d;
     cardsReviewedToday := cardsReviewedToday d;
     sessionExtension := sessionExtension d |}.

Definition saveSettings (u : ui) (modeInput : option mode)
    (limitInput : option Z) (today : date) (rnd : nat -> nat) : ui :=
  match currentDeck u with
  | None => u
  | Some d =>
      updateState
        (ui_of (buildQueue
                  (world_of u (set_settings d (default simple modeInput)
                                 (settings_limit limitInput)))
                  today rnd) (appState u))
  end.

(** [resetDeckCards()]: each card of the deck back to a new card, the
    counters to 0, the last session date to [null]; then a rebuild.
    [confirmed] is the answer to [confirm(..)]. *)
Definition reset_card (c : card date) : card date :=
  {| word := word c;
     translation := translation c;
     sessionStatus := Val TO_REVIEW;
     dueDate := Null;
     interval := Val 1;
     easeFactor := Val 2.5%float |}.

Definition reset_cards (h : list (card date)) (ls : list loc)
  : list (card date) :=
  foldl (fun h' l => alter reset_card l h') h ls.

Definition reset_deck (d : deck date) : deck date :=
  {| dailyLimit := dailyLimit d;
     learningMode := learningMode d;
     cards := cards d;
     lastSessionDate := None;
     cardsReviewedToday := Some 0;
     sessionExtension := Some 0 |}.

Definition resetDeckCards (u : ui) (confirmed : bool) (today : date)
    (rnd : nat -> nat) : ui :=
  match currentDeck u with
  | None => u
  | Some d =>
      if confirmed then
        updateState
          (ui_of (buildQueue
                    {| heap := reset_cards (objects u) (cards d);
                       dk := reset_deck d;
                       ss := session_vars u |}
                    today rnd) (appState u))
      else u
  end.

(** [onCardEditorClose()] *)
Definition onCardEditorClose (u : ui) (today : date) (rnd : nat -> nat) : ui :=
  match currentDeck u with
  | None => u
  | Some d => updateState (ui_of (buildQueue (world_of u d) today rnd) (appState u))
  end.

Definition set_cards (d : deck date) (ls : list loc) : deck date :=
  {| dailyLimit := dailyLimit d;
     learningMode := learningMode d;
     cards := ls;
     lastSessionDate := lastSessionDate d;
     cardsReviewedToday := cardsReviewedToday d;
     sessionExtension := sessionExtension d |}.

Definition set_text (w t : string) (c : card date) : card date :=
  {| word := w;
     translation := t;
     sessionStatus := sessionStatus c;
     dueDate := dueDate c;
     interval := interval c;
     easeFactor := easeFactor c |}.

(** The card literal of [saveCard], [importCards] and the deck import. *)
Definition fresh_card (w t : string) : card date :=
  {| word := w;
     translation := t;
     sessionStatus := Val TO_REVIEW;
     dueDate := Null;
     interval := Val 1;
     easeFactor := Val 2.5%float |}.

(** [saveCard()] with the two inputs already trimmed; [editing] is
    [editingCardIndex], [None] for adding. A new card is a new object,
    pushed at the end of [deck.cards]. *)
Definition saveCard (u : ui) (editing : option nat) (w t : string) : ui :=
  if bool_decide (w = "" \/ t = "") then u
  else
    match currentDeck u with
    | None => u
    | Some d =>
        match editing with
        | Some idx =>
            match cards d !! idx with
            | Some l =>
                {| objects := alter (set_text w t) l (objects u);
                   currentDeck := Some d;
                   session_vars := session_vars u;
                   appState := appState u |}
            | None => u (* [deck.cards[idx]] is undefined: TypeError *)
            end
        | None =>
            {| objects := objects u ++ [fresh_card w t];
               currentDeck := Some (set_cards d (cards d ++ [length (objects u)]));
               session_vars := session_vars u;
               appState := appState u |}
        end
    end.

(** [importCards()], given the word and translation each parsed line
    gave: one new card object for each, pushed in order. *)
Definition importCards (u : ui) (parsed : list (string * string)) : ui :=
  match currentDeck u with
  | None => u
  | Some d =>
      {| objects := objects u ++ ((fun p => fresh_card p.1 p.2) <$> parsed);
         currentDeck :=
           Some (set_cards d
                   (cards d ++ seq (length (objects u)) (length parsed)));
         session_vars := session_vars u;
         appState := appState u |}
  end.

(** [deleteCard(idx)]: [deck.cards.splice(idx, 1)] once confirmed. *)
Definition deleteCard (u : ui) (idx : nat) (confirmed : bool) : ui :=
  match currentDeck u with
  | None => u
  | Some d =>
      if bool_decide (idx < length (cards d))%nat && confirmed then
        {| objects := objects u;
           currentDeck := Some (set_cards d (delete idx (cards d)));
           session_vars := session_vars u;
           appState := appState u |}
      else u
  end.

(** What [deleteSelectedDeck()] does to the screen when the deleted deck
    was the current one: [setCurrentDeck(null); updateState()]. *)
Definition closeDeck (u : ui) : ui :=
  updateState {| objects := objects u; currentDeck := None;
                 session_vars := session_vars u; appState := appState u |}.

(** The page as loaded, before [init] opens a deck. *)
Definition initial_ui : ui :=
  {| objects := []; currentDeck := None;
     session_vars := initial_session; appState := NO_DECK |}.

(** One event of the interface. *)
Inductive ui_step : ui -> ui -> Prop :=
  | ui_openDeck u loaded today rnd :
      rnd_ok rnd -> ui_step u (openDeck u loaded today rnd)
  | ui_updateState u : ui_step u (updateState u)
  | ui_onShowAnswer u : ui_step u (onShowAnswer u)
  | ui_onBackToFront u : ui_step u (onBackToFront u)
  | ui_onRate u r today : ui_step u (onRate u r today).1
  | ui_onRewind u : ui_step u (onRewind u).1
  | ui_onExtendSession u input today rnd :
      rnd_ok rnd -> ui_step u (onExtendSession u input today rnd)
  | ui_extendSessionFromSettings u input today rnd :
      rnd_ok rnd -> ui_step u (extendSessionFromSettings u input today rnd)
  | ui_saveSettings u m limit today rnd :
      rnd_ok rnd -> ui_step u (saveSettings u m limit today rnd)
  | ui_resetDeckCards u confirmed today rnd :
      rnd_ok rnd -> ui_step u (resetDeckCards u confirmed today rnd)
  | ui_onCardEditorClose u today rnd :
      rnd_ok rnd -> ui_step u (onCardEditorClose u today rnd)
  | ui_saveCard u editing w t : ui_step u (saveCard u editing w t)
  | ui_importCards u parsed : ui_step u (importCards u parsed)
  | ui_deleteCard u idx confirmed : ui_step u (deleteCard u idx confirmed)
  | ui_closeDeck u : ui_step u (closeDeck u).

Inductive ui_reachable : ui -> Prop :=
  | ui_reach_init : ui_reachable initial_ui
  | ui_reach_step u u' : ui_reachable u -> ui_step u u' -> ui_reachable u'.

(** The screen agrees with the session. *)
Definition ui_consistent (u : ui) : Prop :=
  session_ok (session_vars u)
  /\ match appState u with
     | NO_DECK => currentDeck u = None
     | SHOW_FRONT | SHOW_BACK =>
         is_Some (currentDeck u)
         /\ session_complete (session_vars u) = false
     | SESSION_COMPLETE =>
         is_Some (currentDeck u)
         /\ session_complete (session_vars u) = true
     end.

End Interface.

Arguments ui date : clear implicits.

(** ** Deck storage (config.js) *)

(** The module variable [config]. *)
Record config : Type := Config {
  currentDeckName : option string;
  theme : string;
  deckNames : list string
}.

(** [localStorage] and [config] together. *)
Record stored : Type := Stored {
  localStorage : gmap string string;
  cfg : config
}.

Definition CONFIG_KEY : string := "flashcards_config".
Definition DECK_PREFIX : string := "flashcards_deck_".

Definition deckKey (name : string) : string := DECK_PREFIX +:+ name.

Definition getDeckNames (st : stored) : list string := deckNames (cfg st).

Section Storage.

(** A deck object as the storage sees it: its [name] and the rest, which
    only [JSON.stringify] and [JSON.parse] look into. [parse] is [None]
    when [JSON.parse] throws or gives [null]; [fits s k v] tells whether
    [localStorage.setItem(k, v)] succeeds in [s] rather than throwing for
    lack of space. *)
Context {body : Type}.
Variable stringify : string -> body -> string.
Variable parse : string -> option (string * body).
Variable stringify_config : config -> string.
Variable fits : gmap string string -> string -> string -> bool.

Definition setItem (s : gmap string string) (k v : string)
  : option (gmap string string) :=
  if fits s k v then Some (<[k := v]> s) else None.

(** [save()]: a failed write is logged and otherwise ignored. *)
Definition save (st : stored) : stored :=
  match setItem (localStorage st) CONFIG_KEY (stringify_config (cfg st)) with
  | Some s => {| localStorage := s; cfg := cfg st |}
  | None => st
  end.

(** [loadDeck(name)]: [null] for a missing or empty entry and for text
    that does not parse. *)
Definition loadDeck (st : stored) (name : string) : option (string * body) :=
  match localStorage st !! deckKey name with
  | Some raw => if bool_decide (raw = "") then None else parse raw
  | None => None
  end.

(** [saveDeck(deck)]; [None] is a [null] deck, an empty name a missing
    one. *)
Definition saveDeck (st : stored) (deck : option (string * body))
  : stored * bool :=
  match deck with
  | None => (st, false)
  | Some (name, b) =>
      if bool_decide (name = "") then (st, false)
      else
        match setItem (localStorage st) (deckKey name) (stringify name b) with
        | None => (st, false)
        | Some s =>
            if bool_decide (name ∈ deckNames (cfg st)) then
              ({| localStorage := s; cfg := cfg st |}, true)
            else
              (save {| localStorage := s;
                       cfg := {| currentDeckName := currentDeckName (cfg st);
                                 theme := theme (cfg st);
                                 deckNames := deckNames (cfg st) ++ [name] |} |},
               true)
        end
  end.

(** [deleteDeck(name)] *)
Definition deleteDeck (st : stored) (name : string) : stored :=
  save {| localStorage := delete (deckKey name) (localStorage st);
          cfg := {| currentDeckName :=
                      if bool_decide (currentDeckName (cfg st) = Some name)
                      then None else currentDeckName (cfg st);
                    theme := theme (cfg st);
                    deckNames :=
                      List.filter (fun n => negb (bool_decide (n = name)))
                                  (deckNames (cfg st)) |} |}.

(** The name an imported deck is stored under ([handleDeckImportFile],
    [handleDeckImportTxtFile]). *)
Definition import_name (st : stored) (name : string) : string :=
  if bool_decide (name ∈ getDeckNames st) then name +:+ " (imported)"
  else name.

(** The storing part of [handleDeckImportFile], once [importDeck] has
    returned a deck. *)
Definition storeImported (st : stored) (name : string) (b : body)
  : stored * bool :=
  saveDeck st (Some (import_name st name, b)).

(** The deck list is in order: no name twice, and an entry stored for
    every name. *)
Definition names_ok (st : stored) : Prop :=
  NoDup (deckNames (cfg st))
  /\ forall n, n ∈ deckNames (cfg st) ->
       is_Some (localStorage st !! deckKey n).

End Storage.

(** ** Text import (dialogs.js) *)

(** A JavaScript string, as the sequence of its UTF-16 code units. *)
Definition ustring : Type := list N.

Definition TAB : N := 9.
Definition LF : N := 10.
Definition HASH : N := 35.
Definition HYPHEN : N := 45.

(** The separator [' - ']. *)
Definition DASH_SEP : ustring := [32; HYPHEN; 32]%N.

(** A string is truthy when it is not empty. *)
Definition nonempty (s : ustring) : bool :=
  match s with
  | [] => false
  | _ :: _ => true
  end.

(** [s.startsWith(p)] *)
Fixpoint startsWith (p s : ustring) : bool :=
  match p, s with
  | [], _ => true
  | a :: p', b :: s' => bool_decide (a = b) && startsWith p' s'
  | _ :: _, [] => false
  end.

(** [s.indexOf(p)], [None] for -1. *)
Fixpoint indexOf (p s : ustring) {struct s} : option nat :=
  if startsWith p s then Some 0%nat
  else
    match s with
    | [] => None
    | _ :: s' => S <$> indexOf p s'
    end.

(** [s.split('\t')[0]]: the text before the first tab. *)
Fixpoint first_field (s : ustring) : ustring :=
  match s with
  | [] => []
  | u :: s' => if bool_decide (u = TAB) then [] else u :: first_field s'
  end.

(** [s.split('\n')] *)
Fixpoint split_lines (s : ustring) : list ustring :=
  match s with
  | [] => [[]]
  | u :: s' =>
      if bool_decide (u = LF) then [] :: split_lines s'
      else
        match split_lines s' with
        | l :: ls => (u :: l) :: ls
        | [] => [[u]]
        end
  end.

(** White space and line terminators of ECMAScript, the code units
    [String.prototype.trim] removes. *)
Definition js_white (u : N) : bool :=
  bool_decide (u ∈ [9; 10; 11; 12; 13; 32; 160; 5760; 8232; 8233; 8239; 8287;
                    12288; 65279]%N)
  || ((8192 <=? u)%N && (u <=? 8202)%N).

Section TextImport.

(** [white u]: [trim] removes the code unit [u]. The set depends on the
    Unicode version of the engine; [js_white] is the current one. *)
Variable white : N -> bool.

Fixpoint trimStart (s : ustring) : ustring :=
  match s with
  | [] => []
  | u :: s' => if white u then trimStart s' else s
  end.

Definition trimEnd (s : ustring) : ustring :=
  reverse (trimStart (reverse s)).

Definition trim (s : ustring) : ustring := trimEnd (trimStart s).

(** [if (word && translation) return { word, translation }] *)
Definition fields (word translation : ustring) : option (ustring * ustring) :=
  if nonempty word && nonempty translation then Some (word, translation)
  else None.

(** [parseTxtLine(line)], [None] for [null]. *)
Definition parseTxtLine (line : ustring) : option (ustring * ustring) :=
  let by_tab :=
    match indexOf [TAB] line with
    | Some (S i) =>
        fields (trim (take (S i) line))
               (trim (first_field (drop (S i + 1) line)))
    | _ => None
    end in
  match by_tab with
  | Some r => Some r
  | None =>
      match indexOf DASH_SEP line with
      | Some (S i) =>
          fields (trim (take (S i) line)) (trim (drop (S i + 3) line))
      | _ => None
      end
  end.

(** One round of the loop of [importCards] and [handleDeckImportTxtFile]:
    a line that starts with ['#'] is passed over, a line that parses gives
    a card and any other line is counted as skipped. *)
Definition import_line (acc : list (ustring * ustring) * nat) (line : ustring)
  : list (ustring * ustring) * nat :=
  if startsWith [HASH] line then acc
  else
    match parseTxtLine line with
    | Some p => (acc.1 ++ [p], acc.2)
    | None => (acc.1, S acc.2)
    end.

(** [lines = text.split('\n').filter(l => l.trim())] *)
Definition text_lines (text : ustring) : list ustring :=
  List.filter (fun l => nonempty (trim l)) (split_lines text).

(** The word and translation pairs of the cards a text gives, and the
    number of lines skipped. *)
Definition import_text (text : ustring) : list (ustring * ustring) * nat :=
  foldl import_line ([], 0%nat) (text_lines text).

(** What [saveCard] asks of its two inputs, and the import gives: not
    empty, and nothing for [trim] to remove. *)
Definition clean (s : ustring) : Prop := s <> [] /\ trim s = s.

(** The first code unit, if any, is one [trim] keeps. *)
Definition head_kept (s : ustring) : Prop :=
  match s with
  | [] => True
  | u :: _ => white u = false
  end.

End TextImport.

(** [line.startsWith('#')] *)
Definition comment_line (line : ustring) : bool := startsWith [HASH] line.

(** The code units of a text in ASCII. *)
Definition units (s : string) : ustring :=
  Ascii.N_of_ascii <$> String.list_ascii_of_string s.

(** ** Deck import (config.js) *)

Set Warnings "-register-all".

(** The values [JSON.parse] gives, and [undefined]. An object is the list
    of its properties in insertion order, each key once. *)
Inductive value : Type :=
  | VUndefined
  | VNull
  | VBool (b : bool)
  | VNum (x : float)
  | VStr (s : string)
  | VArr (items : list value)
  | VObj (props : list (string * value)).

(** [!!v] *)
Definition truthy (v : value) : bool :=
  match v with
  | VUndefined | VNull => false
  | VBool b => b
  | VNum x => JS.truthy x
  | VStr s => negb (String.eqb s "")
  | VArr _ | VObj _ => true
  end.

(** [a || b] *)
Definition or_else (a b : value) : value := if truthy a then a else b.

(** [typeof v === 'object'] *)
Definition is_object (v : value) : bool :=
  match v with
  | VNull | VArr _ | VObj _ => true
  | _ => false
  end.

(** [typeof v === 'string'] *)
Definition is_string (v : value) : bool :=
  match v with
  | VStr _ => true
  | _ => false
  end.

(** [v != null] *)
Definition not_nullish (v : value) : bool :=
  match v with
  | VUndefined | VNull => false
  | _ => true
  end.

Fixpoint lookup_prop (k : string) (props : list (string * value))
  : option value :=
  match props with
  | [] => None
  | (k', v) :: ps => if String.eqb k' k then Some v else lookup_prop k ps
  end.

(** The own property [k] of an object; other values have none. *)
Definition own (v : value) (k : string) : option value :=
  match v with
  | VObj props => lookup_prop k props
  | _ => None
  end.

(** [v.k] for a value other than [null] and [undefined] and a key [k] that
    no prototype defines, as all keys of a deck file are: the own property,
    or [undefined]. *)
Definition prop (v : value) (k : string) : value :=
  default VUndefined (own v k).

Fixpoint set_prop (k : string) (x : value) (props : list (string * value))
  : list (string * value) :=
  match props with
  | [] => [(k, x)]
  | (k', v) :: ps =>
      if String.eqb k' k then (k, x) :: ps else (k', v) :: set_prop k x ps
  end.

(** [o.k = x] on an object. *)
Definition assign (o : value) (k : string) (x : value) : value :=
  match o with
  | VObj props => VObj (set_prop k x props)
  | _ => o
  end.

(** The function [importDeck] maps over [data.cards]; [None] is the
    [TypeError] of reading [card.word] on [null]. *)
Definition normalize_card (card : value) : option value :=
  match card with
  | VUndefined | VNull => None
  | _ =>
      Some (VObj [
        ("word", or_else (prop card "word") (VStr ""));
        ("translation", or_else (prop card "translation") (VStr ""));
        ("sessionStatus",
           or_else (prop card "sessionStatus")
             (or_else (prop card "session_status") (VStr "TO_REVIEW")));
        ("dueDate",
           or_else (prop card "dueDate") (or_else (prop card "due_date") VNull));
        ("interval",
           if not_nullish (prop card "interval") then prop card "interval"
           else VNum 1);
        ("easeFactor",
           or_else (prop card "easeFactor")
             (or_else (prop card "ease_factor") (VNum 2.5)))
      ])
  end.

(** [c => c.word || c.translation] *)
Definition has_text (c : value) : bool :=
  truthy (or_else (prop c "word") (prop c "translation")).

(** [data.k = data.k || data.alt || dflt] *)
Definition fill (k alt : string) (dflt : value) (data : value) : value :=
  assign data k (or_else (prop data k) (or_else (prop data alt) dflt)).

(** How [importDeck] ends: with an exception, with an error message, or
    with the normalized deck. *)
Inductive import_result : Type :=
  | Threw
  | Refused (message : string)
  | Imported (deck : value).

Definition importDeck (data : value) : import_result :=
  if negb (truthy data) || negb (is_object data) then
    Refused "Invalid deck format."
  else if negb (truthy (prop data "name")) || negb (is_string (prop data "name"))
  then Refused "Deck is missing a name."
  else
    match prop data "cards" with
    | VArr items =>
        match mapM normalize_card items with
        | None => Threw
        | Some cards =>
            let kept := List.filter has_text cards in
            let data := assign data "cards" (VArr kept) in
            let data := fill "dailyLimit" "daily_limit" (VNum 5) data in
            let data :=
              fill "learningMode" "learning_mode" (VStr "simple") data in
            let data :=
              fill "lastSessionDate" "last_session_date" VNull data in
            let data :=
              fill "cardsReviewedToday" "cards_reviewed_today" (VNum 0) data in
            let data :=
              fill "sessionExtension" "session_extension" (VNum 0) data in
            Imported data
        end
    | _ => Refused "Deck is missing a cards array."
    end.

(** A card as [importDeck] leaves it. *)
Definition normal_card (c : value) : Prop :=
  normalize_card c = Some c /\ has_text c = true.

(** The key [k] holds a value that [data.k || data.alt || dflt] keeps. *)
Definition settled (k alt : string) (dflt : value) (o : value) : Prop :=
  exists v, own o k = Some v /\ or_else v (or_else (prop o alt) dflt) = v.

Definition is_obj (o : value) : Prop := exists props, o = VObj props.

(** ** Sample states of the interface and the storage *)

(** The three new cards with a limit of 2, queue built. *)
Definition built_world (m : mode) : world Z :=
  buildQueue (sample_world m (Some 2)) today0 first_draw.

(** The deck lists a card and, later, a second object with the same word
    and translation; the queue holds the second. *)
Definition duplicate_world : world Z :=
  {| heap := [hola; gato; hola];
     dk := {| dailyLimit := Some 5; learningMode := simple;
              cards := [0; 1; 2]%nat;
              lastSessionDate := Some today0; cardsReviewedToday := Some 0;
              sessionExtension := Some 0 |};
     ss := {| queue := [2%nat]; currentIndex := 0; rewindBackup := None |} |}.

(** One card in a spaced deck, queued and not yet rated. *)
Definition single_world (c : card Z) : world Z :=
  {| heap := [c];
     dk := {| dailyLimit := Some 5; learningMode := spaced;
              cards := [0%nat];
              lastSessionDate := Some today0; cardsReviewedToday := Some 0;
              sessionExtension := Some 0 |};
     ss := {| queue := [0%nat]; currentIndex := 0; rewindBackup := None |} |}.

(** A card reviewed at an interval of 2500000 days. *)
Definition long_card : card Z :=
  {| word := "Pan"; translation := "Bread"; sessionStatus := Val SPACED;
     dueDate := Val today0; interval := Val 2500000;
     easeFactor := Val 2.5%float |}.

(** A deck of one card with a history, next to an object of another deck;
    the day's session is over. *)
Definition worn_deck : deck Z :=
  {| dailyLimit := Some 5; learningMode := spaced; cards := [0%nat];
     lastSessionDate := Some today0; cardsReviewedToday := Some 3;
     sessionExtension := Some 1 |}.

Definition worn_ui : ui Z :=
  {| objects := [worn_card; gato];
     currentDeck := Some worn_deck;
     session_vars := initial_session;
     appState := SESSION_COMPLETE |}.

(** Today's allowance of 2 is used up. *)
Definition used_up_world : world Z :=
  {| heap := [hola; gato; pan];
     dk := {| dailyLimit := Some 2; learningMode := simple;
              cards := [0; 1; 2]%nat;
              lastSessionDate := Some today0; cardsReviewedToday := Some 2;
              sessionExtension := Some 0 |};
     ss := initial_session |}.

(** The answer of the first card of the sample session is shown. *)
Definition sample_ui : ui Z := ui_of (built_world simple) SHOW_BACK.

(** The page after [openDeck] found the sample deck. *)
Definition opened_ui : ui Z :=
  openDeck initial_ui
    (Some (heap (sample_world simple (Some 2)),
           dk (sample_world simple (Some 2))))
    today0 first_draw.

(** A storage whose deck text is the name, a colon and the rest, and that
    never runs out of space. *)
Definition sample_stringify (name rest : string) : string :=
  name +:+ ":" +:+ rest.

Definition sample_stringify_config (c : config) : string :=
  theme c +:+ ":" +:+ String.concat "," (deckNames c).

Definition unlimited (s : gmap string string) (k v : string) : bool := true.

Definition empty_stored : stored :=
  {| localStorage := ∅;
     cfg := {| currentDeckName := None; theme := "dark"; deckNames := [] |} |}.

(** A deck file in the snake_case format, with a card that has no text and
    an entry that is not an object, and what [importDeck] makes of it. *)
Definition sample_file : value :=
  VObj [("name", VStr "Spanish");
        ("daily_limit", VNum 10);
        ("cards",
           VArr [VObj [("word", VStr "Hola"); ("translation", VStr "Hello");
                       ("session_status", VStr "SPACED");
                       ("due_date", VStr "2024-05-01");
                       ("interval", VNum 0)];
                 VObj [("word", VStr "")];
                 VStr "Gato"])].

Definition sample_imported : value :=
  VObj [("name", VStr "Spanish");
        ("daily_limit", VNum 10);
        ("cards",
           VArr [VObj [("word", VStr "Hola"); ("translation", VStr "Hello");
                       ("sessionStatus", VStr "SPACED");
                       ("dueDate", VStr "2024-05-01");
                       ("interval", VNum 0);
                       ("easeFactor", VNum 2.5)]]);
        ("dailyLimit", VNum 10);
        ("learningMode", VStr "simple");
        ("lastSessionDate", VNull);
        ("cardsReviewedToday", VNum 0);
        ("sessionExtension", VNum 0)].

(** ** Properties *)

Section Properties.

Context {date : Type} `{!Calendar date}.
Implicit Types (w : world date) (d : deck date) (c : card date) (today : date).

(** *** Swaps keep the elements *)

Lemma swap_length {A} (a : list A) i j : length (swap a i j) = length a.
Proof.
  unfold swap. destruct (a !! i), (a !! j); try done.
  by rewrite !length_insert.
Qed.

Lemma swap_same {A} (a : list A) i : swap a i i = a.
Proof.
  unfold swap. destruct (a !! i) as [x|] eqn:E; [|done].
  rewrite list_insert_insert_eq. by apply list_insert_id.
Qed.

Lemma swap_below {A} (b t : list A) (x y : A) j :
  b !! j = Some y ->
  swap (b ++ x :: t) (length b) j = <[j := x]> b ++ y :: t.
Proof.
  intros Hj. pose proof (lookup_lt_Some _ _ _ Hj) as Hlt.
  unfold swap.
  rewrite (lookup_app_l b _ j) by done. rewrite Hj.
  rewrite list_lookup_middle by done.
  rewrite insert_app_r_alt by lia. rewrite Nat.sub_diag. simpl.
  by rewrite insert_app_l by done.
Qed.

Lemma insert_snoc_Permutation {A} (b : list A) (x y : A) j :
  b !! j = Some y -> <[j := x]> b ++ [y] ≡ₚ b ++ [x].
Proof.
  intros Hj. pose proof (lookup_lt_Some _ _ _ Hj) as Hlt.
  rewrite insert_take_drop by done.
  rewrite <- (take_drop_middle b j y Hj) at 3.
  solve_Permutation.
Qed.

Lemma swap_comm {A} (a : list A) i j : swap a i j = swap a j i.
Proof.
  destruct (decide (i = j)) as [->|Hne]; [done|].
  unfold swap. destruct (a !! i), (a !! j); try done.
  by apply list_insert_insert_ne.
Qed.

Lemma swap_below_Permutation {A} (b t : list A) (x : A) j :
  (j < length b)%nat -> swap (b ++ x :: t) (length b) j ≡ₚ b ++ x :: t.
Proof.
  intros Hlt. destruct (lookup_lt_is_Some_2 b j Hlt) as [y Hj].
  rewrite (swap_below b t x y j Hj).
  change (?u ++ ?v :: t) with (u ++ [v] ++ t).
  rewrite !(assoc (++)). f_equiv.
  by apply insert_snoc_Permutation.
Qed.

Lemma swap_lt_Permutation {A} (a : list A) i j :
  (j < i)%nat -> swap a i j ≡ₚ a.
Proof.
  intros Hji.
  destruct (a !! i) as [x|] eqn:Hi; [|by unfold swap; rewrite Hi].
  pose proof (lookup_lt_Some _ _ _ Hi) as Hlt.
  pose proof (take_drop_middle a i x Hi) as Ha.
  remember (take i a) as b eqn:Hb. remember (drop (S i) a) as t.
  assert (i = length b) as -> by (subst b; rewrite length_take; lia).
  rewrite <- Ha. by apply swap_below_Permutation.
Qed.

Lemma swap_Permutation {A} (a : list A) i j : swap a i j ≡ₚ a.
Proof.
  destruct (Nat.lt_total i j) as [Hlt|[->|Hlt]].
  - rewrite swap_comm. by apply swap_lt_Permutation.
  - by rewrite swap_same.
  - by apply swap_lt_Permutation.
Qed.

Lemma shuffle_loop_Permutation {A} rnd i (a : list A) :
  shuffle_loop rnd i a ≡ₚ a.
Proof.
  revert a. induction i as [|i IH]; intros a; simpl; [done|].
  rewrite IH. apply swap_Permutation.
Qed.

Lemma shuffle_Permutation {A} rnd (a : list A) : shuffle rnd a ≡ₚ a.
Proof. apply shuffle_loop_Permutation. Qed.

Lemma shuffle_length {A} rnd (a : list A) : length (shuffle rnd a) = length a.
Proof. by rewrite shuffle_Permutation. Qed.


(** *** Day reset and queue building *)

Lemma checkDayReset_limit d today :
  dailyLimit (checkDayReset d today) = dailyLimit d.
Proof. unfold checkDayReset. by case_decide. Qed.

Lemma checkDayReset_mode d today :
  learningMode (checkDayReset d today) = learningMode d.
Proof. unfold checkDayReset. by case_decide. Qed.

Lemma checkDayReset_cards d today :
  cards (checkDayReset d today) = cards d.
Proof. unfold checkDayReset. by case_decide. Qed.

Lemma checkDayReset_date d today :
  lastSessionDate (checkDayReset d today) = Some today.
Proof. unfold checkDayReset. by case_decide. Qed.

Lemma queue_length w today rnd :
  length (queue (ss (buildQueue w today rnd)))
  = Nat.min (Z.to_nat (remaining (checkDayReset (dk w) today)))
      (length (candidates (heap w) (checkDayReset (dk w) today) today)).
Proof. simpl. by rewrite length_take, shuffle_length. Qed.

Lemma queue_subset w today rnd l :
  l ∈ queue (ss (buildQueue w today rnd)) ->
  l ∈ candidates (heap w) (checkDayReset (dk w) today) today.
Proof.
  simpl. intros Hl. apply elem_of_take in Hl as (i & Hl & _).
  apply list_elem_of_lookup_2 in Hl.
  by rewrite shuffle_Permutation in Hl.
Qed.

(** C7. [checkDayReset]: on a new day it stores today's date and zeroes
    both daily counters, leaving the rest of the deck alone; on the same
    day it changes nothing, so that a second call is a no-op; and
    [buildQueue] runs it first: the deck it leaves is the reset deck, and
    the queue is cut from the candidates by the reset counters. *)
Theorem checkDayReset_spec d today :
  (lastSessionDate d <> Some today ->
     checkDayReset d today
     = {| dailyLimit := dailyLimit d;
          learningMode := learningMode d;
          cards := cards d;
          lastSessionDate := Some today;
          cardsReviewedToday := Some 0;
          sessionExtension := Some 0 |})
  /\ (lastSessionDate d = Some today -> checkDayReset d today = d)
  /\ checkDayReset (checkDayReset d today) today = checkDayReset d today
  /\ (forall w rnd,
        dk w = d ->
        dk (buildQueue w today rnd) = checkDayReset d today
        /\ queue (ss (buildQueue w today rnd))
           = take (Z.to_nat (remaining (checkDayReset d today)))
               (shuffle rnd (candidates (heap w) (checkDayReset d today) today))).
Proof.
  repeat split.
  - intros Hne. unfold checkDayReset. by case_decide.
  - intros Heq. unfold checkDayReset. by case_decide.
  - unfold checkDayReset at 1. case_decide as Hd; [done|].
    by rewrite checkDayReset_date in Hd.
  - by subst d.
  - by subst d.
Qed.


(** C4. Every card of the queue passed the filter of the deck's mode: in
    spaced mode it has no due date or one not after today, in simple mode
    its status is not FINISHED; and in simple mode a card left in status
    SPACED is among the candidates. *)
Theorem buildQueue_eligible w today rnd :
  rnd_ok rnd ->
  (forall l, l ∈ queue (ss (buildQueue w today rnd)) ->
     exists c, heap w !! l = Some c /\ l ∈ cards (dk w)
       /\ match learningMode (dk w) with
          | spaced =>
              dueDate c = Absent \/ dueDate c = Null
              \/ exists due, dueDate c = Val due /\ date_leb due today = true
          | simple => sessionStatus c <> Val FINISHED
          end)
  /\ (learningMode (dk w) = simple ->
      forall l c, l ∈ cards (dk w) -> heap w !! l = Some c ->
        sessionStatus c = Val SPACED ->
        l ∈ candidates (heap w) (checkDayReset (dk w) today) today).
Proof.
  intros _. split.
  - intros l Hl. apply queue_subset in Hl.
    unfold candidates in Hl. apply list_elem_of_In, filter_In in Hl as [Hin He].
    rewrite checkDayReset_cards in Hin. rewrite checkDayReset_mode in He.
    unfold eligible in He. destruct (heap w !! l) as [c|]; [|done].
    exists c. split; [done|]. split; [by apply list_elem_of_In|].
    destruct (learningMode (dk w)).
    + unfold not_finished in He. intros Hs. by rewrite Hs in He.
    + unfold is_due in He. destruct (dueDate c) as [| |due]; eauto.
  - intros Hm l c Hin Hc Hs. unfold candidates.
    apply list_elem_of_In, filter_In.
    rewrite checkDayReset_cards, checkDayReset_mode, Hm.
    split; [by apply list_elem_of_In|].
    unfold eligible, not_finished. by rewrite Hc, Hs.
Qed.


(** *** Rating *)

Lemma find_deckCard_Some h d q l :
  find_deckCard h d q = Some l ->
  l ∈ cards d /\ exists c, h !! l = Some c.
Proof.
  intros Hf. apply find_some in Hf as [Hin Hm].
  split; [by apply list_elem_of_In|].
  unfold matches in Hm. destruct (h !! l) as [c|]; [eauto|done].
Qed.

Lemma find_deckCard_None h d q :
  (forall l c, l ∈ cards d -> h !! l = Some c ->
     l <> q
     /\ forall qc, h !! q = Some qc ->
         ~ (word c = word qc /\ translation c = translation qc)) ->
  find_deckCard h d q = None.
Proof.
  intros Hno. destruct (find_deckCard h d q) as [l|] eqn:Hf; [|done].
  apply find_some in Hf as [Hin Hm]. apply list_elem_of_In in Hin.
  unfold matches in Hm. destruct (h !! l) as [c|] eqn:Hl; [|done].
  destruct (Hno l c Hin Hl) as [Hne Hval].
  apply orb_prop in Hm as [Hm|Hm].
  - by apply bool_decide_eq_true in Hm.
  - destruct (h !! q) as [qc|]; [|done].
    apply andb_prop in Hm as [Hw Ht].
    apply bool_decide_eq_true in Hw, Ht. by destruct (Hval qc eq_refl).
Qed.

(** C8. When the current queue entry matches no card of the deck, neither
    as the same object nor by word and translation, [rateCard] returns
    normally having advanced the cursor by one; the cards, the deck with
    its counter, the queue and the rewind record are as before. *)
Theorem rateCard_stale_entry w r today q :
  queue (ss w) !! currentIndex (ss w) = Some q ->
  (forall l c, l ∈ cards (dk w) -> heap w !! l = Some c ->
     l <> q
     /\ forall qc, heap w !! q = Some qc ->
         ~ (word c = word qc /\ translation c = translation qc)) ->
  rateCard w r today
  = ({| heap := heap w;
        dk := dk w;
        ss := {| queue := queue (ss w);
                 currentIndex := S (currentIndex (ss w));
                 rewindBackup := rewindBackup (ss w) |} |}, Returned).
Proof.
  intros Hq Hno. unfold rateCard. rewrite Hq.
  by rewrite (find_deckCard_None _ _ _ Hno).
Qed.

(** [Math.round] on a double with a fractional part, m * 2^e with e < 0:
    the result [n] is the integer with n - 1/2 <= x < n + 1/2. *)
Lemma Math_round_int_nearest x s m e :
  Prim2SF x = S754_finite s m e ->
  e < 0 ->
  let v := if s then Z.neg m else Z.pos m in
  exists n,
    JS.Math_round_int x = JS.RInt n
    /\ (2 * n - 1) * 2 ^ (- e) <= 2 * v < (2 * n + 1) * 2 ^ (- e).
Proof.
  intros Hx He v. unfold JS.Math_round_int. rewrite Hx.
  destruct (Z.leb_spec 0 e) as [?|_]; [lia|]. fold v.
  eexists. split; [reflexivity|].
  assert (0 < 2 ^ (- e)) as Hpow by (apply Z.pow_pos_nonneg; lia).
  replace (- e + 1) with (Z.succ (- e)) by lia.
  rewrite Z.pow_succ_r by lia.
  pose proof (Z.div_mod (2 * v + 2 ^ (- e)) (2 * 2 ^ (- e))) as Hdm.
  pose proof (Z.mod_pos_bound (2 * v + 2 ^ (- e)) (2 * 2 ^ (- e))) as Hb.
  nia.
Qed.

(** The interval is missing only for a product that is NaN or +Infinity. *)
Lemma next_interval_None x :
  next_interval x = None
  <-> Prim2SF x = S754_nan \/ Prim2SF x = S754_infinity false.
Proof.
  unfold next_interval, JS.Math_round_int.
  destruct (Prim2SF x) as [[]|[]| |s m e]; simpl;
    try (destruct (0 <=? e)); simpl; split;
    first [discriminate | intros [?|?]; discriminate | auto].
Qed.

Lemma next_interval_positive x n : next_interval x = Some n -> 1 <= n.
Proof.
  unfold next_interval.
  destruct (JS.Math_round_int x) as [| | |m]; simpl; intros [= <-]; lia.
Qed.

Lemma or_int_Some n : or_int (Some n) 0 = n.
Proof. unfold or_int. destruct (Z.eqb_spec n 0); lia. Qed.

Lemma or_int_nonzero (n dflt : Z) : n <> 0 -> or_int (Some n) dflt = n.
Proof. unfold or_int. destruct (Z.eqb_spec n 0); lia. Qed.

Lemma alter_lookup {A} (f : A -> A) (h : list A) l x :
  h !! l = Some x -> alter f l h = <[l := f x]> h.
Proof.
  revert l. induction h as [|y h IH]; intros [|l] Hl; simplify_eq/=; [done|].
  f_equal. by apply IH.
Qed.

Lemma alter_insert {A} (f : A -> A) (h : list A) l x :
  alter f l (<[l := x]> h) = <[l := f x]> h.
Proof.
  revert l. induction h as [|y h IH]; intros [|l]; simpl; [done..|].
  f_equal. by apply IH.
Qed.

Lemma Object_assign_complete (target c : card date) :
  complete c -> Object_assign target c = c.
Proof.
  destruct c as [wd tr st du iv ef]. intros (Hs & Hd & Hi & He).
  unfold Object_assign. simpl in *.
  by destruct st, du, iv, ef.
Qed.

Lemma rateCard_cases w r today : rateCard_case w r today (rateCard w r today).
Proof.
  unfold rateCard.
  destruct (queue (ss w) !! currentIndex (ss w)) as [q|] eqn:Hq;
    [|by constructor].
  destruct (find_deckCard (heap w) (dk w) q) as [l|] eqn:Hf;
    [|by econstructor].
  destruct (find_deckCard_Some _ _ _ _ Hf) as [_ [c Hc]]. rewrite Hc.
  destruct (applyRating _ c r today) as [c'|] eqn:Ha; by econstructor.
Qed.

(** Rating a card that has all its properties and undoing at once gives
    back the store, the cursor and the counter; the queue slot then refers
    to the deck's card. *)
Lemma rate_rewind_complete w r today q l c :
  queue (ss w) !! currentIndex (ss w) = Some q ->
  find_deckCard (heap w) (dk w) q = Some l ->
  heap w !! l = Some c ->
  complete c ->
  let w2 := rewind (rateCard w r today).1 in
  w2.2 = true
  /\ heap w2.1 = heap w
  /\ currentIndex (ss w2.1) = currentIndex (ss w)
  /\ dk w2.1 = set_reviewed (dk w) (or_int (cardsReviewedToday (dk w)) 0)
  /\ queue (ss w2.1) = <[currentIndex (ss w) := l]> (queue (ss w))
  /\ canRewind w2.1 = false.
Proof.
  intros Hq Hf Hc Hfull.
  destruct (rateCard_cases w r today) as [Hn|q' Hq' Hf'|q' l' c0 Hq' Hf' Hc' Ha
                                          |q' l' c0 c' Hq' Hf' Hc' Ha];
    simplify_eq; simpl.
  - rewrite (alter_lookup _ _ _ _ Hc), Object_assign_complete by done.
    by rewrite list_insert_id.
  - rewrite alter_insert, Object_assign_complete by done.
    by rewrite list_insert_id.
Qed.

(** *** The counter stays within the allowance *)

#[local] Arguments or_int : simpl never.

Ltac close_inv := repeat split; first [assumption | lia | done].

Lemma buildQueue_inv L w today rnd :
  positive_limit (dk w) L ->
  0 <= or_int (sessionExtension (dk w)) 0 ->
  or_int (cardsReviewedToday (dk w)) 0
    <= L + or_int (sessionExtension (dk w)) 0 ->
  allowance_inv L (buildQueue w today rnd).
Proof.
  intros [HL Hpos] Hext Hrev.
  pose proof (queue_length w today rnd) as Hlen.
  unfold allowance_inv, positive_limit.
  assert (dk (buildQueue w today rnd) = checkDayReset (dk w) today) as ->
    by done.
  assert (currentIndex (ss (buildQueue w today rnd)) = 0%nat) as -> by done.
  assert (rewindBackup (ss (buildQueue w today rnd)) = None) as -> by done.
  revert Hlen. generalize (length (queue (ss (buildQueue w today rnd)))).
  intros len Hlen.
  unfold remaining, effectiveLimit in Hlen.
  rewrite checkDayReset_limit in *. rewrite HL in Hlen.
  rewrite or_int_nonzero in Hlen by lia.
  unfold checkDayReset in *.
  case_decide; simpl in *; rewrite ?or_int_Some in *; close_inv.
Qed.

Lemma rateCard_inv L w r today :
  allowance_inv L w -> allowance_inv L (rateCard w r today).1.
Proof.
  intros ([HL Hpos] & Hext & Hidx & Hrev & Hbk).
  destruct (rateCard_cases w r today) as [Hn|q Hq Hf|q l c Hq Hf Hc Ha
                                          |q l c c' Hq Hf Hc Ha];
    unfold allowance_inv, positive_limit; simpl;
    try (pose proof (lookup_lt_Some _ _ _ Hq) as Hlt);
    rewrite ?or_int_Some; close_inv.
Qed.

Lemma rewind_inv L w : allowance_inv L w -> allowance_inv L (rewind w).1.
Proof.
  intros ([HL Hpos] & Hext & Hidx & Hrev & Hbk). unfold rewind.
  destruct (rewindBackup (ss w)) as [b|] eqn:Hb; simpl.
  - destruct Hbk as [Hi Hs]. unfold allowance_inv, positive_limit. simpl.
    rewrite or_int_Some, length_insert. close_inv.
  - unfold allowance_inv, positive_limit. rewrite Hb. close_inv.
Qed.

Lemma extendSession_inv L w amount today rnd :
  allowance_inv L w -> allowance_inv L (extendSession w amount today rnd).
Proof.
  intros (Hlim & Hext & Hidx & Hrev & Hbk). unfold extendSession.
  apply buildQueue_inv; simpl; [done|rewrite or_int_Some; lia..].
Qed.

Lemma step_inv L w w' : step w w' -> allowance_inv L w -> allowance_inv L w'.
Proof.
  intros Hstep Hinv. destruct Hstep.
  - destruct Hinv as (Hlim & Hext & Hidx & Hrev & _).
    apply buildQueue_inv; [done..|lia].
  - by apply rateCard_inv.
  - by apply rewind_inv.
  - by apply extendSession_inv.
Qed.

Lemma reachable_inv L w0 w :
  valid_initial w0 L -> reachable w0 w -> allowance_inv L w.
Proof.
  intros (Hlim & Hext & Hrev0 & Hrev & Hss) Hreach.
  induction Hreach as [|w w' _ IH Hstep].
  - destruct Hlim. unfold allowance_inv, positive_limit. rewrite Hss. simpl.
    close_inv.
  - by eapply step_inv.
Qed.

(** The saved index of a pending rewind record is a position of the queue,
    so [queue[index] = deckCardRef] overwrites a slot. *)
Lemma backup_index_in_queue L w0 w b :
  valid_initial w0 L -> reachable w0 w ->
  rewindBackup (ss w) = Some b -> (index b < length (queue (ss w)))%nat.
Proof.
  intros Hv Hr Hb.
  destruct (reachable_inv L w0 w Hv Hr) as (_ & _ & _ & _ & Hbk).
  rewrite Hb in Hbk. apply Hbk.
Qed.

(** C5. From a deck with a positive daily limit, a non-negative extension
    and a counter within dailyLimit + sessionExtension, and the module as
    loaded, every state reached by calls of [buildQueue], [rateCard],
    [rewind] and [extendSession] in any order has the same positive limit
    and cardsReviewedToday <= dailyLimit + sessionExtension. *)
Theorem reviewed_within_allowance L w0 w :
  valid_initial w0 L ->
  reachable w0 w ->
  positive_limit (dk w) L
  /\ or_int (cardsReviewedToday (dk w)) 0
     <= L + or_int (sessionExtension (dk w)) 0.
Proof.
  intros Hv Hr.
  destruct (reachable_inv L w0 w Hv Hr) as (Hlim & _ & Hidx & Hrev & _).
  split; [done|lia].
Qed.

(** *** The shuffle *)

Lemma swap_app {A} (b t : list A) i j :
  (i < length b)%nat -> (j < length b)%nat ->
  swap (b ++ t) i j = swap b i j ++ t.
Proof.
  intros Hi Hj. unfold swap.
  rewrite !lookup_app_l by done.
  destruct (b !! i) as [x|]; [|done]. destruct (b !! j) as [y|]; [|done].
  rewrite insert_app_l by done.
  by rewrite insert_app_l by (by rewrite length_insert).
Qed.

Lemma shuffle_loop_length {A} rnd k (a : list A) :
  length (shuffle_loop rnd k a) = length a.
Proof. by rewrite shuffle_loop_Permutation. Qed.

Lemma shuffle_loop_app {A} rnd k (b t : list A) :
  rnd_ok rnd -> (k < length b)%nat ->
  shuffle_loop rnd k (b ++ t) = shuffle_loop rnd k b ++ t.
Proof.
  intros Hok. revert b. induction k as [|k IH]; intros b Hk; simpl; [done|].
  pose proof (Hok (S k)).
  rewrite swap_app by lia. apply IH. rewrite swap_length. lia.
Qed.

Lemma shuffle_loop_ext {A} rnd rnd' k (a : list A) :
  (forall i, (0 < i <= k)%nat -> rnd i = rnd' i) ->
  shuffle_loop rnd k a = shuffle_loop rnd' k a.
Proof.
  revert a. induction k as [|k IH]; intros a Heq; simpl; [done|].
  rewrite (Heq (S k)) by lia. apply IH. intros i Hi. apply Heq. lia.
Qed.

Lemma last_swap_spec {A} (b : list A) x j :
  (j <= length b)%nat ->
  (b ++ [x]) !! j = Some (last_swap b x j).2
  /\ length (last_swap b x j).1 = length b
  /\ (last_swap b x j).1 ++ [(last_swap b x j).2] ≡ₚ b ++ [x].
Proof.
  intros Hj. unfold last_swap. destruct (b !! j) as [y|] eqn:Hy; simpl.
  - rewrite lookup_app_l by (by eapply lookup_lt_Some).
    rewrite length_insert. repeat split; [done|].
    by apply insert_snoc_Permutation.
  - apply lookup_ge_None in Hy. assert (j = length b) as -> by lia.
    by rewrite list_lookup_middle.
Qed.

Lemma shuffle_snoc {A} rnd (b : list A) x :
  rnd_ok rnd ->
  shuffle rnd (b ++ [x])
  = shuffle rnd (last_swap b x (rnd (length b))).1
    ++ [(last_swap b x (rnd (length b))).2].
Proof.
  intros Hok. unfold shuffle. rewrite length_app. simpl.
  replace (length b + 1 - 1)%nat with (length b) by lia.
  destruct (length b) as [|k] eqn:Hlen.
  - apply length_zero_iff_nil in Hlen as ->.
    pose proof (Hok 0%nat). by replace (rnd 0%nat) with 0%nat by lia.
  - simpl. pose proof (Hok (S k)) as Hj.
    unfold last_swap. destruct (b !! rnd (S k)) as [y|] eqn:Hy; simpl.
    + pose proof (swap_below b [] x y _ Hy) as Hsw. rewrite Hlen in Hsw.
      rewrite Hsw, length_insert, Hlen. simpl. rewrite Nat.sub_0_r.
      apply shuffle_loop_app; [done|]. rewrite length_insert. lia.
    + apply lookup_ge_None in Hy. assert (rnd (S k) = S k) as -> by lia.
      rewrite swap_same, Hlen. simpl. rewrite Nat.sub_0_r.
      apply shuffle_loop_app; [done|lia].
Qed.

(** Every permutation [p] of distinct elements is the result of some
    draws, and any draws giving [p] agree with them in every iteration
    0 < i < n. *)
Lemma shuffle_draws_unique {A : Type} (a p : list A) :
  NoDup a ->
  a ≡ₚ p ->
  exists rnd,
    rnd_ok rnd
    /\ shuffle rnd a = p
    /\ forall rnd',
         rnd_ok rnd' -> shuffle rnd' a = p ->
         forall i, (0 < i < length a)%nat -> rnd' i = rnd i.
Proof.
  revert a. induction p as [|y p' IH] using rev_ind; intros a Hnd Hperm.
  - apply Permutation_nil_r in Hperm as ->.
    exists (fun _ => 0%nat). split; [intros i; lia|]. split; [done|].
    intros rnd' _ _ i Hi. simpl in Hi. lia.
  - destruct a as [|x b _] using rev_ind.
    { apply Permutation_length in Hperm. rewrite length_app in Hperm.
      simpl in Hperm. lia. }
    assert (y ∈ b ++ [x]) as Hy.
    { rewrite Hperm, elem_of_app, list_elem_of_singleton. by right. }
    apply list_elem_of_lookup_1 in Hy as [j Hj].
    assert (j <= length b)%nat as Hjb.
    { apply lookup_lt_Some in Hj. rewrite length_app in Hj. simpl in Hj. lia. }
    destruct (last_swap_spec b x j Hjb) as (Hlast & Hlen & Hpm).
    rewrite Hj in Hlast. injection Hlast as Hlast.
    set (b' := (last_swap b x j).1) in *. rewrite <- Hlast in Hpm.
    assert (b' ≡ₚ p') as Hperm'.
    { apply (Permutation_app_inv_r [y]). by rewrite Hpm. }
    assert (NoDup b') as Hnd'.
    { rewrite <- Hpm in Hnd. by apply NoDup_app in Hnd as [? _]. }
    destruct (IH b' Hnd' Hperm') as (rnd0 & Hok0 & Hsh0 & Huniq0).
    exists (fun i => if decide (i = length b) then j else rnd0 i).
    split; [|split].
    + intros i. case_decide; [lia|apply Hok0].
    + rewrite shuffle_snoc by (intros i; case_decide; [lia|apply Hok0]).
      rewrite decide_True by done. rewrite <- Hlast. fold b'. f_equal.
      rewrite <- Hsh0. apply shuffle_loop_ext.
      intros i Hi. rewrite decide_False; [done|lia].
    + intros rnd' Hok' Hsh' i Hi.
      rewrite shuffle_snoc in Hsh' by done.
      apply app_inj_tail in Hsh' as [Hsh' Hy'].
      pose proof (Hok' (length b)) as Hj'.
      destruct (last_swap_spec b x _ Hj') as (Hlast' & _ & _).
      rewrite Hy' in Hlast'.
      assert (rnd' (length b) = j) as Hrj
        by exact (NoDup_lookup _ _ _ _ Hnd Hlast' Hj).
      rewrite Hrj in Hsh'. fold b' in Hsh'.
      case_decide as Hil; [by subst i|].
      apply (Huniq0 rnd' Hok' Hsh').
      rewrite length_app in Hi. simpl in Hi. lia.
Qed.

Lemma length_bind_const {B C : Type} (f : B -> list C) (l : list B) m :
  (forall x, length (f x) = m) -> length (l ≫= f) = (length l * m)%nat.
Proof.
  intros Hf. induction l as [|x l IH]; csimpl; [done|].
  by rewrite length_app, Hf, IH.
Qed.

Lemma all_draws_length k : length (all_draws k) = fact (S k).
Proof.
  induction k as [|k IH]; [done|].
  cbn [all_draws].
  rewrite (length_bind_const _ _ (S (S k)))
    by (intros js; by rewrite length_fmap, length_seq).
  rewrite IH. change (fact (S (S k))) with (S (S k) * fact (S k))%nat. lia.
Qed.

Lemma elem_of_all_draws k js :
  js ∈ all_draws k
  <-> length js = k /\ forall i j, js !! i = Some j -> (j <= S i)%nat.
Proof.
  revert js. induction k as [|k IH]; intros js.
  - cbn [all_draws]. rewrite list_elem_of_singleton. split.
    + intros ->. split; [done|]. intros i j Hj. by rewrite lookup_nil in Hj.
    + intros [Hlen _]. by apply length_zero_iff_nil.
  - cbn [all_draws]. rewrite list_elem_of_bind. split.
    + intros (js0 & Hjs & Hjs0). apply IH in Hjs0 as [Hlen Hle].
      apply list_elem_of_fmap in Hjs as (j & -> & Hj).
      apply elem_of_seq in Hj. split.
      { rewrite length_app. simpl. lia. }
      intros i j' Hi. apply lookup_app_Some in Hi as [Hi|[Hge Hi]].
      * by eapply Hle.
      * apply list_lookup_singleton_Some in Hi as [Hi <-]. lia.
    + intros [Hlen Hle]. destruct js as [|j js0 _] using rev_ind; [done|].
      rewrite length_app in Hlen. simpl in Hlen.
      exists js0. split.
      * apply list_elem_of_fmap. exists j. split; [done|].
        apply elem_of_seq.
        pose proof (Hle (length js0) j (list_lookup_middle _ _ _ _ eq_refl)).
        lia.
      * apply IH. split; [lia|]. intros i j' Hi. apply (Hle i j').
        by apply lookup_app_l_Some.
Qed.

Lemma all_draws_NoDup k : NoDup (all_draws k).
Proof.
  induction k as [|k IH]; [apply NoDup_singleton|].
  cbn [all_draws]. apply NoDup_bind; [| |done].
  - intros js1 js2 js _ _ H1 H2.
    apply list_elem_of_fmap in H1 as (j1 & -> & _).
    apply list_elem_of_fmap in H2 as (j2 & Heq & _).
    by apply app_inj_tail in Heq as [? _].
  - intros js _. apply NoDup_fmap_2; [|apply NoDup_seq].
    intros j1 j2 Heq. by apply app_inj_tail in Heq as [_ ?].
Qed.

Lemma rnd_of_ok k js : js ∈ all_draws k -> rnd_ok (rnd_of js).
Proof.
  intros [_ Hle]%elem_of_all_draws [|i]; simpl; [done|].
  destruct (js !! i) as [j|] eqn:Hj; simpl; [by eapply Hle|lia].
Qed.

(** C9. The shuffle of [buildQueue] is uniform. A run over n candidates
    makes one draw for each i from n - 1 down to 1, the draw for i being
    one of the i + 1 values 0 .. i; [all_draws (n - 1)] lists the possible
    sequences of draws, n! of them and no two alike, which a uniform source
    yields with equal probability. For candidates that are distinct objects
    and any permutation [p] of them, exactly one of these sequences makes
    the shuffle return [p]: every permutation has probability 1/n!. *)
Theorem shuffle_uniform {A : Type} (a p : list A) :
  NoDup a ->
  a ≡ₚ p ->
  length (all_draws (length a - 1)) = fact (length a)
  /\ NoDup (all_draws (length a - 1))
  /\ exists js,
       js ∈ all_draws (length a - 1)
       /\ shuffle (rnd_of js) a = p
       /\ forall js',
            js' ∈ all_draws (length a - 1) ->
            shuffle (rnd_of js') a = p -> js' = js.
Proof.
  intros Hnd Hperm. split; [|split; [apply all_draws_NoDup|]].
  { rewrite all_draws_length. destruct a as [|x a]; [done|].
    simpl. by rewrite Nat.sub_0_r. }
  destruct (shuffle_draws_unique a p Hnd Hperm) as (rnd & Hok & Hsh & Huniq).
  set (k := (length a - 1)%nat).
  set (js := (fun i => rnd (S i)) <$> seq 0 k).
  assert (forall i, (i < k)%nat -> js !! i = Some (rnd (S i))) as Hjs.
  { intros i Hi. unfold js. rewrite list_lookup_fmap.
    by rewrite (lookup_seq_lt _ _ _ Hi). }
  assert (js ∈ all_draws k) as Hin.
  { apply elem_of_all_draws. split.
    - unfold js. by rewrite length_fmap, length_seq.
    - intros i j Hj. assert (i < k)%nat as Hi.
      { apply lookup_lt_Some in Hj. unfold js in Hj.
        by rewrite length_fmap, length_seq in Hj. }
      rewrite (Hjs i Hi) in Hj. injection Hj as <-. apply Hok. }
  exists js. split; [done|]. split.
  - rewrite <- Hsh. apply shuffle_loop_ext. intros [|i] Hi; [lia|].
    simpl. rewrite Hjs by (unfold k; lia). done.
  - intros js' Hin' Hsh'.
    pose proof (Huniq (rnd_of js') (rnd_of_ok _ _ Hin') Hsh') as Heq.
    apply elem_of_all_draws in Hin as [Hlen _].
    apply elem_of_all_draws in Hin' as [Hlen' _].
    apply list_eq. intros i.
    destruct (decide (i < k)%nat) as [Hi|Hi].
    + rewrite Hjs by done.
      destruct (lookup_lt_is_Some_2 js' i) as [j Hj]; [lia|].
      specialize (Heq (S i)). simpl in Heq. rewrite Hj in Heq. simpl in Heq.
      rewrite Hj. f_equal. apply Heq. unfold k in Hi. lia.
    + rewrite !lookup_ge_None_2 by lia. done.
Qed.

End Properties.

(** ** The rating table on a host *)

Section RatingTable.

Variable h : JS.host.

#[local] Abbreviation rate := (@applySpacedRating Z (js_calendar h)).

(** *** Days and time values *)

Lemma Day_between t d :
  d * JS.msPerDay <= t < (d + 1) * JS.msPerDay -> JS.Day t = d.
Proof.
  intros Ht. unfold JS.Day. symmetry.
  apply (Z.div_unique t JS.msPerDay d (t - d * JS.msPerDay)).
  - left. unfold JS.msPerDay in *. lia.
  - lia.
Qed.

Lemma Day_noon d : JS.Day (JS.noon d) = d.
Proof. apply Day_between. unfold JS.noon, JS.msPerDay, JS.msPerHour. lia. Qed.

Lemma TimeWithinDay_noon d : JS.TimeWithinDay (JS.noon d) = 12 * JS.msPerHour.
Proof.
  unfold JS.TimeWithinDay. symmetry.
  apply (Z.mod_unique (JS.noon d) JS.msPerDay d).
  - left. unfold JS.msPerDay, JS.msPerHour. lia.
  - unfold JS.noon. lia.
Qed.

Lemma TimeClip_in_range t : Z.abs t <= JS.maxTime -> JS.TimeClip t = Some t.
Proof.
  intros Ht. unfold JS.TimeClip.
  by destruct (Z.leb_spec (Z.abs t) JS.maxTime); [|lia].
Qed.

Lemma TimeClip_out_of_range t : ~ Z.abs t <= JS.maxTime -> JS.TimeClip t = None.
Proof.
  intros Ht. unfold JS.TimeClip.
  by destruct (Z.leb_spec (Z.abs t) JS.maxTime).
Qed.

(** [addDays] on a host where noon stays on its day: the day [n] days on,
    or a [RangeError] when that day is past what a [Date] holds. *)
Lemma addDays_moves_date today n :
  noon_on_same_day h -> date_in_range h today ->
  let moved := JS.TimeClip (JS.UTC h (JS.noon (today + n))) in
  @addDays Z (js_calendar h) today n = JS.Day <$> moved.
Proof.
  intros Hh Hin moved. unfold addDays. simpl.
  unfold JS.Date_toISODate, JS.Date_setDate_plus, JS.Date_parse_noon.
  rewrite (TimeClip_in_range _ Hin). simpl.
  destruct (Hh today) as (_ & _ & ->).
  rewrite Day_noon, TimeWithinDay_noon. done.
Qed.

Lemma addDays_in_range today n :
  noon_on_same_day h -> date_in_range h today -> date_in_range h (today + n) ->
  @addDays Z (js_calendar h) today n = Some (today + n).
Proof.
  intros Hh Hin Hn. rewrite addDays_moves_date by done.
  rewrite (TimeClip_in_range _ Hn). simpl. f_equal.
  apply Day_between. destruct (Hh (today + n)) as (Hlo & Hhi & _).
  unfold JS.UTC, JS.noon, JS.msPerDay, JS.msPerHour in *. lia.
Qed.

Lemma addDays_out_of_range today n :
  noon_on_same_day h -> date_in_range h today -> ~ date_in_range h (today + n) ->
  @addDays Z (js_calendar h) today n = None.
Proof.
  intros Hh Hin Hn. rewrite addDays_moves_date by done.
  by rewrite (TimeClip_out_of_range _ Hn).
Qed.

Lemma four_digit_in_range day :
  noon_on_same_day h -> four_digit_year day -> date_in_range h day.
Proof.
  intros Hh [Hlo Hhi]. destruct (Hh day) as (H1 & H2 & _).
  unfold date_in_range, JS.UTC, JS.noon, JS.maxTime, JS.msPerDay,
    JS.msPerHour in *. lia.
Qed.

Lemma addDays_Some today n due :
  noon_on_same_day h -> date_in_range h today ->
  @addDays Z (js_calendar h) today n = Some due -> due = today + n.
Proof.
  intros Hh Hin Hd.
  destruct (Z_le_dec (Z.abs (JS.UTC h (JS.noon (today + n)))) JS.maxTime)
    as [Hn|Hn].
  - rewrite addDays_in_range in Hd by done. by injection Hd as <-.
  - by rewrite addDays_out_of_range in Hd.
Qed.

(** *** The engine's helpers against the table's words *)

Lemma interval_or_reads (x : slot Z) i :
  reads_interval x i -> interval_or x 1 = i.
Proof.
  intros Hx. destruct Hx as [n Hn| | |]; simpl; try done.
  by destruct (Z.eqb_spec n 0).
Qed.

Lemma ease_or_reads (x : slot float) e :
  reads_ease x e -> ease_or x 2.5%float = e.
Proof.
  intros Hx. destruct Hx as [x Hn Hz|x Hf| |]; simpl; try done.
  - unfold JS.truthy. by rewrite Hn, Hz.
  - unfold JS.truthy. destruct Hf as [-> | ->]; [done|].
    by rewrite orb_true_r.
Qed.

(** *** Rounding and the floor of the ease *)

Lemma Prim2SF_1_3 : exists m e, Prim2SF 1.3%float = S754_finite false m e.
Proof. vm_compute. eauto. Qed.

Lemma is_nan_Prim2SF x : is_nan x = match Prim2SF x with S754_nan => true | _ => false end.
Proof.
  unfold is_nan. rewrite FloatAxioms.eqb_spec. unfold SFeqb, SFcompare.
  destruct (Prim2SF x) as [[]|[]| |[] m e]; simpl; try done;
  rewrite ?Z.compare_refl, ?Pos.compare_refl; done.
Qed.

Lemma nan_Prim2SF x : Prim2SF x = S754_nan -> x = nan.
Proof. intros Hx. apply Prim2SF_inj. by rewrite Hx. Qed.

Lemma Math_max_1_3 x : JS.Math_max 1.3 x = at_least_1_3 x.
Proof.
  unfold JS.Math_max, at_least_1_3.
  rewrite (is_nan_Prim2SF x), !FloatAxioms.ltb_spec.
  change (is_nan 1.3) with false. change (get_sign 1.3) with false.
  destruct Prim2SF_1_3 as (m0 & e0 & H13). rewrite H13.
  destruct (Prim2SF x) as [s|s| |s m e] eqn:Hx; simpl.
  - done.
  - by destruct s.
  - symmetry. by apply nan_Prim2SF.
  - unfold SFltb, SFcompare. destruct s; simpl; [done|].
    fold (Pos.compare m0 m) (Pos.compare m m0).
    rewrite (Z.compare_antisym e0 e), (Pos.compare_antisym m0 m).
    destruct (Z.compare_spec e0 e) as [He|He|He]; simpl; try done.
    destruct (Pos.compare_spec m0 m) as [Hm|Hm|Hm]; simpl; try done.
    apply Prim2SF_inj. rewrite H13, Hx. by subst.
Qed.

Lemma nearest_integer_unique x n n' :
  nearest_integer x n -> nearest_integer x n' -> n = n'.
Proof.
  unfold nearest_integer.
  destruct (Prim2SF x) as [s|s| |s m e]; try done; [congruence|].
  set (v := if s then Z.neg m else Z.pos m).
  assert (0 < 2 ^ Z.max 0 (- e)) as Hpow by (apply Z.pow_pos_nonneg; lia).
  generalize dependent (2 ^ Z.max 0 (- e)). intros a Ha.
  generalize (2 * v * 2 ^ Z.max 0 e). intros b [H1 H2] [H3 H4]. nia.
Qed.

Lemma Math_round_int_nearest_integer x :
  match JS.Math_round_int x with
  | JS.RInt n => nearest_integer x n
  | _ => forall n, ~ nearest_integer x n
  end.
Proof.
  unfold JS.Math_round_int, nearest_integer.
  destruct (Prim2SF x) as [s|s| |s m e].
  1:{ done. }
  1:{ destruct s; intros n Hn; exact Hn. }
  1:{ intros n Hn; exact Hn. }
  set (v := if s then Z.neg m else Z.pos m).
  destruct (Z.leb_spec 0 e) as [He|He].
  - rewrite (Z.max_l 0 (- e)), (Z.max_r 0 e) by lia.
    rewrite Z.pow_0_r. lia.
  - rewrite (Z.max_r 0 (- e)), (Z.max_l 0 e) by lia.
    rewrite Z.pow_0_r.
    assert (0 < 2 ^ (- e)) as Hpow by (apply Z.pow_pos_nonneg; lia).
    replace (- e + 1) with (Z.succ (- e)) by lia.
    rewrite Z.pow_succ_r by lia.
    pose proof (Z.div_mod (2 * v + 2 ^ (- e)) (2 * 2 ^ (- e))) as Hdm.
    pose proof (Z.mod_pos_bound (2 * v + 2 ^ (- e)) (2 * 2 ^ (- e))) as Hb.
    nia.
Qed.

Lemma Math_round_int_spec x n :
  JS.Math_round_int x = JS.RInt n <-> nearest_integer x n.
Proof.
  pose proof (Math_round_int_nearest_integer x) as H.
  destruct (JS.Math_round_int x) as [| | |k]; split; try done;
    try (intros Hn; by destruct (H n)).
  - by intros [= <-].
  - intros Hn. f_equal. by eapply nearest_integer_unique.
Qed.

Lemma infinity_Prim2SF x s :
  Prim2SF x = S754_infinity s -> x = if s then neg_infinity else infinity.
Proof. intros Hx. apply Prim2SF_inj. rewrite Hx. by destruct s. Qed.

Lemma next_interval_days x n :
  next_interval x = Some n <-> rounds_to_days x n.
Proof.
  unfold next_interval. split.
  - destruct (JS.Math_round_int x) as [| | |k] eqn:Hk; simpl; try done.
    + intros [= <-].
      assert (x = neg_infinity) as ->; [|constructor].
      unfold JS.Math_round_int in Hk.
      destruct (Prim2SF x) as [s|[]| |s m e] eqn:Hx; try done.
      * by apply (infinity_Prim2SF x true).
      * by destruct (0 <=? e).
    + intros [= <-]. constructor. by apply Math_round_int_spec.
  - intros [y k Hk|].
    + apply Math_round_int_spec in Hk. by rewrite Hk.
    + done.
Qed.

Lemma Math_round_rounds x z : rounds_to x z <-> z = JS.Math_round x.
Proof.
  unfold JS.Math_round. split.
  - intros [y n Hn Hne|y Hn|y s Hy].
    + apply Math_round_int_spec in Hn. rewrite Hn.
      by destruct (Z.eqb_spec n 0).
    + apply Math_round_int_spec in Hn. by rewrite Hn.
    + unfold JS.Math_round_int. destruct Hy as [Hy|Hy]; rewrite Hy.
      * by apply nan_Prim2SF.
      * rewrite (infinity_Prim2SF _ _ Hy). by destruct s.
  - intros ->.
    destruct (JS.Math_round_int x) as [| | |k] eqn:Hk.
    + assert (Prim2SF x = S754_nan) as Hx.
      { unfold JS.Math_round_int in Hk.
        destruct (Prim2SF x) as [s|[]| |s m e]; try done.
        by destruct (0 <=? e). }
      rewrite <- (nan_Prim2SF x Hx). apply (round_not_finite x false). by left.
    + assert (Prim2SF x = S754_infinity false) as Hx.
      { unfold JS.Math_round_int in Hk.
        destruct (Prim2SF x) as [s|[]| |s m e]; try done.
        by destruct (0 <=? e). }
      replace infinity with x by (by apply (infinity_Prim2SF x false)).
      apply (round_not_finite x false). by right.
    + assert (Prim2SF x = S754_infinity true) as Hx.
      { unfold JS.Math_round_int in Hk.
        destruct (Prim2SF x) as [s|[]| |s m e]; try done.
        by destruct (0 <=? e). }
      replace neg_infinity with x by (by apply (infinity_Prim2SF x true)).
      apply (round_not_finite x true). by right.
    + apply Math_round_int_spec in Hk.
      destruct (Z.eqb_spec k 0) as [->|Hne]; by constructor.
Qed.

Lemma good_from_defaults : next_interval (JS.Z2float 1 * 2.5)%float = Some 3.
Proof. vm_compute. reflexivity. Qed.

Lemma easy_from_defaults :
  next_interval (JS.Z2float 1 * 2.5 * 1.3)%float = Some 3.
Proof. vm_compute. reflexivity. Qed.

(** *** The table *)

Lemma stored_ease_three_decimals x y :
  three_decimals x y -> (JS.Math_round (x * 1000) / 1000)%float = y.
Proof. intros (z & Hz & ->). apply Math_round_rounds in Hz. by rewrite Hz. Qed.


(** C6 as amended: from interval 1 and ease 2.5, good gives interval 3,
    due date [today + 3] and the ease unchanged; easy gives interval 3
    (round(1 * 2.5 * 1.3) = round(3.25) = 3), due date [today + 3] and ease
    2.65; again gives interval 1, ease 2.3 and due date [today]. The host
    keeps the local noon of a day within that day of UTC, and has the
    dates [today] and [today + 3]. *)
Theorem sm2_from_defaults (c : card Z) (today : Z) :
  noon_on_same_day h ->
  date_in_range h today ->
  date_in_range h (today + 3) ->
  interval c = Val 1 ->
  easeFactor c = Val 2.5%float ->
  rate c good today
  = Some {| word := word c; translation := translation c;
            sessionStatus := Val SPACED; dueDate := Val (today + 3);
            interval := Val 3; easeFactor := Val 2.5%float |}
  /\ rate c easy today
     = Some {| word := word c; translation := translation c;
               sessionStatus := Val SPACED; dueDate := Val (today + 3);
               interval := Val 3; easeFactor := Val 2.65%float |}
  /\ rate c again today
     = Some {| word := word c; translation := translation c;
               sessionStatus := Val SPACED; dueDate := Val today;
               interval := Val 1; easeFactor := Val 2.3%float |}.
Proof.
  intros Hh Htoday Hdue Hi He. unfold applySpacedRating, store_rating.
  rewrite Hi, He.
  change (interval_or (Val 1) 1) with 1.
  change (ease_or (Val 2.5%float) 2.5%float) with 2.5%float.
  rewrite good_from_defaults, easy_from_defaults. simpl.
  rewrite addDays_in_range by done. simpl.
  repeat split; vm_compute; reflexivity.
Qed.

End RatingTable.

(** ** The order of the date strings *)

Ltac div_lia := Z.to_euclidean_division_equations; lia.

Lemma year_of_era_spec doe :
  0 <= doe <= 146096 ->
  0 <= JS.year_of_era doe <= 399
  /\ JS.year_start (JS.year_of_era doe) <= doe
  /\ doe <= JS.year_start (JS.year_of_era doe) + 365
  /\ (JS.year_of_era doe < 399 ->
      doe < JS.year_start (JS.year_of_era doe + 1)).
Proof. intros Hd. unfold JS.year_of_era, JS.year_start. div_lia. Qed.

Lemma civil_stages day :
  JS.civil day
  = JS.civil_from (JS.march_year (day + 719468)) (JS.march_day (day + 719468)).
Proof. reflexivity. Qed.

Lemma mod_era z : 0 <= z mod 146097 <= 146096.
Proof. div_lia. Qed.

Lemma march_day_range z : 0 <= JS.march_day z <= 365.
Proof.
  unfold JS.march_day. pose proof (year_of_era_spec _ (mod_era z)). lia.
Qed.

(** A later day is in a later year, or later in the same year. *)
Lemma march_mono a b :
  a < b ->
  JS.march_year a < JS.march_year b
  \/ (JS.march_year a = JS.march_year b /\ JS.march_day a < JS.march_day b).
Proof.
  intros Hab. unfold JS.march_year, JS.march_day.
  pose proof (mod_era a) as Ha. pose proof (mod_era b) as Hb.
  pose proof (year_of_era_spec _ Ha) as (Ha1 & Ha2 & Ha3 & Ha4).
  pose proof (year_of_era_spec _ Hb) as (Hb1 & Hb2 & Hb3 & Hb4).
  assert (a = a / 146097 * 146097 + a mod 146097) as Hea by div_lia.
  assert (b = b / 146097 * 146097 + b mod 146097) as Heb by div_lia.
  revert Ha Hb Ha1 Ha2 Ha3 Ha4 Hb1 Hb2 Hb3 Hb4 Hea Heb.
  generalize (JS.year_of_era (a mod 146097)) (JS.year_of_era (b mod 146097)).
  generalize (a mod 146097) (b mod 146097) (a / 146097) (b / 146097).
  intros da db ea eb ya yb. unfold JS.year_start. intros. div_lia.
Qed.

Ltac split_months :=
  repeat match goal with
         | |- context [if ?x <? ?y then _ else _] => destruct (Z.ltb_spec x y)
         | |- context [if ?x <=? ?y then _ else _] => destruct (Z.leb_spec x y)
         end.

Lemma civil_from_range Y doy :
  0 <= doy <= 365 ->
  let '(y, m, d) := JS.civil_from Y doy in
  1 <= m <= 12 /\ 1 <= d <= 31 /\ Y <= y <= Y + 1.
Proof.
  intros Hdoy. unfold JS.civil_from. cbv zeta. split_months; div_lia.
Qed.

Lemma civil_from_mono Ya doya Yb doyb :
  0 <= doya <= 365 -> 0 <= doyb <= 365 ->
  Ya < Yb \/ (Ya = Yb /\ doya < doyb) ->
  date_key (JS.civil_from Ya doya) < date_key (JS.civil_from Yb doyb).
Proof.
  intros Ha Hb Hlt. unfold date_key, JS.civil_from. cbv zeta.
  split_months; div_lia.
Qed.

(** Year, month and day grow with the day number. *)
Lemma civil_mono a b : a < b -> date_key (JS.civil a) < date_key (JS.civil b).
Proof.
  intros Hab. rewrite !civil_stages.
  apply civil_from_mono; [apply march_day_range..|].
  apply march_mono. lia.
Qed.

Lemma civil_year_range day :
  four_digit_year day ->
  let '(y, m, d) := JS.civil day in
  0 <= y <= 9999 /\ 1 <= m <= 12 /\ 1 <= d <= 31.
Proof.
  intros [Hlo Hhi].
  pose proof (civil_from_range (JS.march_year (day + 719468))
                (JS.march_day (day + 719468)) (march_day_range _)) as Hr.
  rewrite <- civil_stages in Hr.
  assert (date_key (JS.civil (-719528)) <= date_key (JS.civil day)) as H1.
  { destruct (decide (day = -719528)) as [->|]; [done|].
    apply Z.lt_le_incl, civil_mono. lia. }
  assert (date_key (JS.civil day) <= date_key (JS.civil 2932896)) as H2.
  { destruct (decide (day = 2932896)) as [->|]; [done|].
    apply Z.lt_le_incl, civil_mono. lia. }
  change (date_key (JS.civil (-719528))) with 33 in H1.
  change (date_key (JS.civil 2932896)) with 5119903 in H2.
  destruct (JS.civil day) as [[y m] d]. unfold date_key in H1, H2. lia.
Qed.

Lemma append_cons c (s t : string) : String c s +:+ t = String c (s +:+ t).
Proof. reflexivity. Qed.

Lemma append_nil_l (s : string) : "" +:+ s = s.
Proof. reflexivity. Qed.

Lemma append_snoc (s : string) c t :
  (s +:+ String c "") +:+ t = s +:+ String c t.
Proof.
  induction s as [|x s IH]; [done|]. rewrite !append_cons. by f_equal.
Qed.

Lemma append_empty (s : string) : s +:+ "" = s.
Proof. induction s as [|x s IH]; [done|]. rewrite append_cons. by f_equal. Qed.

Lemma ascii_compare_refl c : Ascii.compare c c = Eq.
Proof. unfold Ascii.compare. apply N.compare_refl. Qed.

Lemma string_compare_refl (s : string) : String.compare s s = Eq.
Proof.
  induction s as [|c s IH]; simpl; [done|]. by rewrite ascii_compare_refl.
Qed.

Lemma string_leb_refl s : JS.string_leb s s = true.
Proof. unfold JS.string_leb, String.leb. by rewrite string_compare_refl. Qed.

Lemma digit_compare a b :
  0 <= a < 10 -> 0 <= b < 10 ->
  Ascii.compare (Ascii.ascii_of_N (48 + Z.to_N a))
    (Ascii.ascii_of_N (48 + Z.to_N b)) = (a ?= b).
Proof.
  intros Ha Hb. unfold Ascii.compare.
  rewrite !Ascii.N_ascii_embedding by lia.
  destruct (N.compare_spec (48 + Z.to_N a) (48 + Z.to_N b));
    destruct (Z.compare_spec a b); try done; lia.
Qed.

(** Numbers printed with the same count of digits compare as numbers. *)
Lemma digits_compare w a b s t :
  0 <= a < 10 ^ Z.of_nat w -> 0 <= b < 10 ^ Z.of_nat w ->
  String.compare (JS.digits w a +:+ s) (JS.digits w b +:+ t)
  = match a ?= b with Eq => String.compare s t | o => o end.
Proof.
  revert a b s t. induction w as [|w IH]; intros a b s t Ha Hb.
  - change (10 ^ Z.of_nat 0) with 1 in Ha, Hb.
    assert (a = 0) as -> by lia. by assert (b = 0) as -> by lia.
  - rewrite Nat2Z.inj_succ, Z.pow_succ_r in Ha, Hb by lia.
    cbn [JS.digits]. rewrite !append_snoc, IH by div_lia.
    cbn [String.compare]. rewrite digit_compare by div_lia.
    destruct (Z.compare_spec (a / 10) (b / 10));
      destruct (Z.compare_spec (a mod 10) (b mod 10));
      destruct (Z.compare_spec a b); try done; div_lia.
Qed.

Lemma isoDate_compare a b :
  four_digit_year a -> four_digit_year b ->
  String.compare (JS.isoDate a) (JS.isoDate b)
  = (date_key (JS.civil a) ?= date_key (JS.civil b)).
Proof.
  intros Ha Hb. apply civil_year_range in Ha, Hb. unfold JS.isoDate.
  destruct (JS.civil a) as [[y m] d], (JS.civil b) as [[y' m'] d'].
  destruct Ha as (Hy & Hm & Hd), Hb as (Hy' & Hm' & Hd').
  unfold JS.isoYear.
  rewrite !(proj2 (andb_true_iff _ _)) by (split; apply Z.leb_le; lia).
  rewrite digits_compare by (vm_compute (10 ^ _); lia).
  rewrite !(append_cons _ "" _), !append_nil_l. cbn [String.compare].
  rewrite ascii_compare_refl, digits_compare
    by (first [apply ascii_compare_refl | vm_compute (10 ^ _); lia]).
  cbn [String.compare]. rewrite ascii_compare_refl.
  rewrite <- (append_empty (JS.digits 2 d)), <- (append_empty (JS.digits 2 d')).
  rewrite digits_compare by (vm_compute (10 ^ _); lia).
  unfold date_key. cbn [String.compare].
  destruct (Z.compare_spec y y'); destruct (Z.compare_spec m m');
    destruct (Z.compare_spec d d');
    destruct (Z.compare_spec ((y * 16 + m) * 32 + d)
                ((y' * 16 + m') * 32 + d'));
    try done; lia.
Qed.

(** From 0000-01-01 to 9999-12-31 a later day has a later date string. *)
Lemma isoDate_later a b :
  four_digit_year a -> four_digit_year b -> a < b ->
  JS.string_leb (JS.isoDate b) (JS.isoDate a) = false.
Proof.
  intros Ha Hb Hab. unfold JS.string_leb, String.leb.
  rewrite isoDate_compare by done.
  apply civil_mono in Hab. apply Z.lt_gt in Hab. unfold Z.gt in Hab.
  by rewrite Hab.
Qed.

(** ** The sample decks *)

Lemma first_draw_ok : rnd_ok first_draw.
Proof. intros i. apply Nat.le_0_l. Qed.

Example round_half_up : JS.Math_round_int 2.5%float = JS.RInt 3.
Proof. vm_compute. reflexivity. Qed.

Example round_3_25 : JS.Math_round_int (2.5 * 1.3)%float = JS.RInt 3.
Proof. vm_compute. reflexivity. Qed.

Example round_negative_half : JS.Math_round_int (-2.5)%float = JS.RInt (-2).
Proof. vm_compute. reflexivity. Qed.

Example round_below_half :
  JS.Math_round 0.49999999999999994%float = 0%float.
Proof. vm_compute. reflexivity. Qed.

Example round_keeps_sign : JS.Math_round (-0.2)%float = neg_zero.
Proof. vm_compute. reflexivity. Qed.

Example round_overflow :
  next_interval (JS.Z2float (2 ^ 1023) * 2.5)%float = None.
Proof. vm_compute. reflexivity. Qed.

(** The end-to-end example of the specification: a limit of 2 and three
    cards to review give a queue of 2; rating both as remembered leaves the
    counter at 2 and the session complete. *)
Example two_of_three :
  let w1 := buildQueue (sample_world simple (Some 2)) today0 first_draw in
  let w2 := (rateCard w1 remembered today0).1 in
  let w3 := (rateCard w2 remembered today0).1 in
  length (queue (ss w1)) = 2%nat
  /\ cardsReviewedToday (dk w3) = Some 2
  /\ isComplete w3 = true
  /\ getDeckStats (heap w3) (dk w3) today0 = SimpleStats 3 2 1.
Proof. vm_compute. repeat split. Qed.

(** The day-boundary example: both counters are 0 after the build. *)
Example new_day_resets :
  let w := buildQueue yesterday_world today0 first_draw in
  lastSessionDate (dk w) = Some today0
  /\ cardsReviewedToday (dk w) = Some 0
  /\ sessionExtension (dk w) = Some 0
  /\ length (queue (ss w)) = 3%nat.
Proof. vm_compute. repeat split. Qed.

(** C2, at a card without scheduling properties. The card is queued and
    rated good, which creates [dueDate], [interval] and [easeFactor]; the
    rewind succeeds, restores the cursor and the counter and clears the
    record, but [Object.assign] copies back only the properties the snapshot
    has: the three new ones stay, the card is no longer what it was before
    the rating, and a queue built next leaves it out as not yet due. *)
Theorem rewind_keeps_new_properties :
  let w1 := buildQueue legacy_world today0 first_draw in
  let w2 := (rateCard w1 good today0).1 in
  let w3 := rewind w2 in
  getCurrentCard w1 = Some 0%nat
  /\ heap w1 !! 0%nat = Some legacy_card
  /\ w3.2 = true
  /\ currentIndex (ss w3.1) = currentIndex (ss w1)
  /\ cardsReviewedToday (dk w3.1) = cardsReviewedToday (dk w1)
  /\ canRewind w3.1 = false
  /\ heap w3.1 !! 0%nat
     = Some {| word := "Gato"; translation := "Cat";
               sessionStatus := Val TO_REVIEW;
               dueDate := Val (today0 + 3);
               interval := Val 3;
               easeFactor := Val 2.5%float |}
  /\ heap w3.1 !! 0%nat <> heap w1 !! 0%nat
  /\ queue (ss (buildQueue w3.1 today0 first_draw)) = [].
Proof.
  vm_compute. repeat split. intros [=].
Qed.

Lemma fixed_offset_noon_same_day offset :
  - (12 * JS.msPerHour) < offset <= 12 * JS.msPerHour ->
  noon_on_same_day (JS.fixed_offset offset).
Proof.
  intros Ho day. unfold JS.LocalTime, JS.UTC. simpl. lia.
Qed.

Lemma utc_noon_same_day : noon_on_same_day utc_host.
Proof. apply fixed_offset_noon_same_day. by vm_compute. Qed.


(** C6 as stated fails at its second case: rated easy from interval 1 and
    ease 2.5 the card gets interval 3, not 4. Its due dates are those of a
    host on which local noon is on the same day in UTC: 13 hours ahead of
    UTC, good from the defaults stores the due date two days ahead. *)
Lemma easy_interval_is_not_4 :
  ~ (exists c' : card Z,
       applySpacedRating hola easy today0 = Some c'
       /\ interval c' = Val 4
       /\ easeFactor c' = Val 2.65%float)
  /\ @applySpacedRating Z (js_calendar utc_plus_13) hola good today0
     = Some {| word := "Hola"; translation := "Hello";
               sessionStatus := Val SPACED; dueDate := Val (today0 + 2);
               interval := Val 3; easeFactor := Val 2.5%float |}
  /\ today0 + 2 <> today0 + 3.
Proof.
  split; [|split; [vm_compute; reflexivity|done]].
  intros (c' & Hc & Hi & _).
  vm_compute in Hc. injection Hc as <-. discriminate Hi.
Qed.

(** *** Instances of the theorems *)


Lemma sm2_from_defaults_witness :
  noon_on_same_day utc_host
  /\ date_in_range utc_host today0
  /\ date_in_range utc_host (today0 + 3)
  /\ interval hola = Val 1
  /\ easeFactor hola = Val 2.5%float
  /\ @applySpacedRating Z (js_calendar utc_host) hola easy today0
     = Some {| word := "Hola"; translation := "Hello";
               sessionStatus := Val SPACED; dueDate := Val (today0 + 3);
               interval := Val 3; easeFactor := Val 2.65%float |}.
Proof.
  assert (date_in_range utc_host today0) as H2 by (by vm_compute).
  assert (date_in_range utc_host (today0 + 3)) as H3 by (by vm_compute).
  split; [exact utc_noon_same_day|]. split; [exact H2|]. split; [exact H3|].
  split; [reflexivity|]. split; [reflexivity|].
  exact (proj1 (proj2 (sm2_from_defaults utc_host hola today0
                         utc_noon_same_day H2 H3 eq_refl eq_refl))).
Defined.



Lemma buildQueue_eligible_witness :
  rnd_ok first_draw
  /\ forall l,
       l ∈ queue (ss (buildQueue (sample_world simple (Some 2)) today0
                        first_draw)) ->
       exists c, heap (sample_world simple (Some 2)) !! l = Some c
                 /\ l ∈ cards (dk (sample_world simple (Some 2)))
                 /\ sessionStatus c <> Val FINISHED.
Proof.
  split; [exact first_draw_ok|].
  exact (proj1 (buildQueue_eligible (sample_world simple (Some 2)) today0
                  first_draw first_draw_ok)).
Defined.


Lemma rateCard_stale_entry_witness :
  queue (ss stale_world) !! currentIndex (ss stale_world) = Some 0%nat
  /\ rateCard stale_world remembered today0
     = ({| heap := heap stale_world;
           dk := dk stale_world;
           ss := {| queue := queue (ss stale_world);
                    currentIndex := 1;
                    rewindBackup := None |} |}, Returned).
Proof.
  split; [reflexivity|].
  apply (rateCard_stale_entry stale_world remembered today0 0%nat);
    [reflexivity|].
  intros l c Hl Hc.
  apply list_elem_of_singleton in Hl as ->.
  injection Hc as <-.
  split; [discriminate|].
  intros qc [= <-] [Hw _]. discriminate Hw.
Defined.

Lemma reviewed_within_allowance_witness :
  valid_initial (sample_world simple (Some 2)) 2
  /\ reachable (sample_world simple (Some 2))
       (rateCard (buildQueue (sample_world simple (Some 2)) today0 first_draw)
          remembered today0).1
  /\ or_int (cardsReviewedToday
               (dk (rateCard (buildQueue (sample_world simple (Some 2))
                                today0 first_draw) remembered today0).1)) 0
     <= 2 + or_int (sessionExtension
                      (dk (rateCard (buildQueue (sample_world simple (Some 2))
                                       today0 first_draw)
                             remembered today0).1)) 0.
Proof.
  assert (valid_initial (sample_world simple (Some 2)) 2) as H1.
  { repeat split; simpl; lia. }
  assert (reachable (sample_world simple (Some 2))
            (rateCard (buildQueue (sample_world simple (Some 2)) today0
                         first_draw) remembered today0).1) as H2.
  { eapply reach_step; [eapply reach_step; [apply reach_here|]|].
    - apply (step_buildQueue _ today0 first_draw first_draw_ok).
    - apply step_rateCard. }
  split; [exact H1|]. split; [exact H2|].
  exact (proj2 (reviewed_within_allowance 2 _ _ H1 H2)).
Defined.

Lemma shuffle_uniform_witness :
  NoDup [0; 1; 2]%nat
  /\ [0; 1; 2]%nat ≡ₚ [2; 0; 1]%nat
  /\ length (all_draws 2) = 6%nat
  /\ exists js,
       js ∈ all_draws 2
       /\ shuffle (rnd_of js) [0; 1; 2]%nat = [2; 0; 1]%nat
       /\ forall js',
            js' ∈ all_draws 2 ->
            shuffle (rnd_of js') [0; 1; 2]%nat = [2; 0; 1]%nat -> js' = js.
Proof.
  assert (NoDup [0; 1; 2]%nat) as H1.
  { repeat constructor; rewrite ?elem_of_cons, ?elem_of_nil; lia. }
  assert ([0; 1; 2]%nat ≡ₚ [2; 0; 1]%nat) as H2.
  { symmetry. apply (Permutation_cons_app [0; 1]%nat [] 2%nat).
    apply (perm_skip 0%nat). apply (perm_skip 1%nat). apply perm_nil. }
  split; [exact H1|]. split; [exact H2|].
  pose proof (shuffle_uniform [0; 1; 2]%nat [2; 0; 1]%nat H1 H2) as H.
  exact (conj (proj1 H) (proj2 (proj2 H))).
Defined.

(** ** Further properties of the session engine *)

Section SessionProperties.

Context {date : Type} `{!Calendar date}.
Implicit Types (w : world date) (d : deck date) (c : card date) (today : date).

#[local] Arguments or_int : simpl never.

(** X1. A deck that lists no card twice gives a queue that holds no card
    twice: within one session each card comes up at most once. *)
Theorem queue_NoDup w today rnd :
  NoDup (cards (dk w)) ->
  NoDup (queue (ss (buildQueue w today rnd))).
Proof.
  intros Hnd. simpl.
  eapply sublist_NoDup; [|apply sublist_take].
  rewrite shuffle_Permutation. unfold candidates.
  apply NoDup_ListNoDup, List.NoDup_filter, NoDup_ListNoDup.
  by rewrite checkDayReset_cards.
Qed.

Lemma candidates_count (h : list (card date)) d today :
  length (candidates h d today) = stats_open (getDeckStats h d today).
Proof.
  unfold candidates, getDeckStats, count_cards, eligible.
  destruct (learningMode d); simpl; f_equal; apply filter_ext;
    intros l; by destruct (h !! l).
Qed.

(** X2. The queue [buildQueue] leaves has as many cards as the allowance
    permits out of the figure [getDeckStats] reports for the same deck and
    day: [due] in spaced mode, [toReview] in simple mode. *)
Theorem queue_length_stats w today rnd :
  length (queue (ss (buildQueue w today rnd)))
  = Nat.min (Z.to_nat (remaining (dk (buildQueue w today rnd))))
      (stats_open (getDeckStats (heap w) (dk w) today)).
Proof.
  rewrite queue_length, candidates_count. simpl.
  unfold getDeckStats, count_cards.
  by rewrite checkDayReset_mode, checkDayReset_cards.
Qed.

Lemma count_cards_split (h : list (card date)) d (f : card date -> bool) :
  cards_allocated h d ->
  (count_cards h d f + count_cards h d (fun c => negb (f c)))%nat
  = length (cards d).
Proof.
  unfold cards_allocated, count_cards.
  induction (cards d) as [|l ls IH]; intros Hall; [done|].
  destruct (Hall l) as [c Hc]; [by left|].
  specialize (IH (fun l' Hl' => Hall l' (list_elem_of_further _ _ _ Hl'))).
  simpl. rewrite Hc. destruct (f c); simpl; lia.
Qed.

(** X3. When every card of the deck is in the store, the two counts of
    [getDeckStats] add up to the total: due + upcoming in spaced mode,
    toReview + finished in simple mode. *)
Theorem getDeckStats_partition (h : list (card date)) d today :
  cards_allocated h d ->
  (stats_open (getDeckStats h d today) + stats_closed (getDeckStats h d today))%nat
  = stats_total (getDeckStats h d today)
  /\ stats_total (getDeckStats h d today) = length (cards d).
Proof.
  intros Hall. unfold getDeckStats.
  destruct (learningMode d); simpl; (split; [|done]).
  - rewrite Nat.add_comm.
    rewrite <- (count_cards_split h d not_finished Hall). lia.
  - apply (count_cards_split h d (is_due today) Hall).
Qed.

(** X4. The session is complete exactly when there is no current card, and
    then [rateCard] returns at once: no card, counter, cursor or rewind
    record changes. *)
Theorem complete_no_current_card w r today :
  (isComplete w = true <-> getCurrentCard w = None)
  /\ (isComplete w = true -> rateCard w r today = (w, Returned)).
Proof.
  assert (isComplete w = true <-> getCurrentCard w = None) as Hiff.
  { unfold isComplete, getCurrentCard.
    rewrite bool_decide_eq_true. symmetry. apply lookup_ge_None. }
  split; [done|]. intros Hc. apply Hiff in Hc.
  unfold rateCard. unfold getCurrentCard in Hc. by rewrite Hc.
Qed.

Lemma rateCard_simple_advance w r today :
  learningMode (dk w) = simple ->
  (currentIndex (ss w) < length (queue (ss w)))%nat ->
  let w' := (rateCard w r today).1 in
  (rateCard w r today).2 = Returned
  /\ queue (ss w') = queue (ss w)
  /\ currentIndex (ss w') = S (currentIndex (ss w))
  /\ learningMode (dk w') = simple.
Proof.
  intros Hm Hlt.
  destruct (rateCard_cases w r today) as [Hn|q Hq Hf|q l c Hq Hf Hc Ha
                                          |q l c c' Hq Hf Hc Ha]; simpl.
  - apply lookup_ge_None in Hn. lia.
  - done.
  - by rewrite Hm in Ha.
  - done.
Qed.

(** X5. In simple mode a session always runs to its end: from a cursor
    inside the queue, as many calls of [rateCard] as there are cards left,
    with any ratings, all return normally, keep the queue, and leave the
    session complete. *)
Theorem simple_session_completes w rs today :
  learningMode (dk w) = simple ->
  (currentIndex (ss w) <= length (queue (ss w)))%nat ->
  length rs = (length (queue (ss w)) - currentIndex (ss w))%nat ->
  isComplete (rateCards w rs today) = true
  /\ queue (ss (rateCards w rs today)) = queue (ss w)
  /\ currentIndex (ss (rateCards w rs today)) = length (queue (ss w)).
Proof.
  revert w. induction rs as [|r rs IH]; intros w Hm Hle Hlen; simpl in *.
  - unfold isComplete. rewrite bool_decide_eq_true. split; [lia|].
    split; [done|lia].
  - assert (currentIndex (ss w) < length (queue (ss w)))%nat as Hlt by lia.
    destruct (rateCard_simple_advance w r today Hm Hlt) as (_ & Hq & Hi & Hm').
    destruct (IH (rateCard w r today).1) as (Hc & Hq' & Hi');
      [done|rewrite Hq, Hi; lia|rewrite Hq, Hi; lia|].
    rewrite Hq in Hq', Hi'. done.
Qed.

Lemma rewind_clears w :
  rewindBackup (ss (rewind w).1) = None.
Proof.
  unfold rewind. destruct (rewindBackup (ss w)) as [b|] eqn:Hb; simpl; by rewrite ?Hb.
Qed.

Lemma rewind_nothing_pending w :
  rewindBackup (ss w) = None -> rewind w = (w, false).
Proof. intros Hb. unfold rewind. by rewrite Hb. Qed.

(** X6. Only one level of undo exists: after a call of [rewind], whether
    it undid a rating or not, [canRewind] is false and a second call
    returns false and changes nothing. *)
Theorem rewind_only_once w :
  canRewind (rewind w).1 = false
  /\ rewind (rewind w).1 = ((rewind w).1, false).
Proof.
  split.
  - unfold canRewind. by rewrite rewind_clears.
  - apply rewind_nothing_pending, rewind_clears.
Qed.

Lemma find_deckCard_first (h : list (card date)) d q l pre post :
  cards d = pre ++ l :: post ->
  matches h q l = true ->
  (forall l', l' ∈ pre -> matches h q l' = false) ->
  find_deckCard h d q = Some l.
Proof.
  unfold find_deckCard. intros -> Hl Hpre.
  induction pre as [|p pre IH]; simpl.
  - by rewrite Hl.
  - rewrite (Hpre p) by left. apply IH. intros l' Hl'. apply Hpre. by right.
Qed.

Lemma matches_false (h : list (card date)) q l qc :
  h !! q = Some qc -> l <> q ->
  (forall c, h !! l = Some c ->
     ~ (word c = word qc /\ translation c = translation qc)) ->
  matches h q l = false.
Proof.
  intros Hq Hne Hdiff. unfold matches.
  destruct (h !! l) as [c|] eqn:Hl; [|done]. rewrite Hq.
  rewrite bool_decide_eq_false_2 by done. simpl.
  apply andb_false_iff.
  destruct (decide (word c = word qc)) as [Hw|Hw];
    [|left; by apply bool_decide_eq_false_2].
  right. apply bool_decide_eq_false_2. intros Ht. by apply (Hdiff c).
Qed.

(** X7. The rating goes to the queue's own card when that card is in the
    deck and no card listed before it has the same word and translation:
    [find] returns it and a rating that returns writes the rated card at
    its address. *)
Theorem rateCard_rates_queue_card w r today q qc pre post :
  queue (ss w) !! currentIndex (ss w) = Some q ->
  heap w !! q = Some qc ->
  cards (dk w) = pre ++ q :: post ->
  (forall l c, l ∈ pre -> heap w !! l = Some c ->
     ~ (word c = word qc /\ translation c = translation qc)) ->
  find_deckCard (heap w) (dk w) q = Some q
  /\ forall c', applyRating (learningMode (dk w)) qc r today = Some c' ->
       heap (rateCard w r today).1 = <[q := c']> (heap w).
Proof.
  intros Hq Hqc Hcards Hpre.
  assert (find_deckCard (heap w) (dk w) q = Some q) as Hf.
  { apply (find_deckCard_first _ _ _ _ pre post Hcards).
    - unfold matches. rewrite Hqc. by rewrite bool_decide_eq_true_2.
    - intros l Hl. apply (matches_false _ _ _ qc Hqc).
      + intros ->. by apply (Hpre q qc Hl Hqc).
      + intros c Hc. by apply (Hpre l c Hl Hc). }
  split; [done|]. intros c' Ha.
  unfold rateCard. by rewrite Hq, Hf, Hqc, Ha.
Qed.

(** X8. Matching by value takes the first deck card with the queue card's
    word and translation: when the queue's card is not the same object as
    any deck card before or at that one (a copy, or a later duplicate),
    [find] returns that first card, a rating that returns writes the rated
    card at its address, and the queue's own card is left as it was. *)
Theorem rateCard_rates_first_duplicate w r today q qc l c pre post :
  queue (ss w) !! currentIndex (ss w) = Some q ->
  heap w !! q = Some qc ->
  cards (dk w) = pre ++ l :: post ->
  heap w !! l = Some c ->
  word c = word qc /\ translation c = translation qc ->
  l <> q ->
  (forall l' c', l' ∈ pre -> heap w !! l' = Some c' ->
     l' <> q /\ ~ (word c' = word qc /\ translation c' = translation qc)) ->
  find_deckCard (heap w) (dk w) q = Some l
  /\ (forall c', applyRating (learningMode (dk w)) c r today = Some c' ->
        heap (rateCard w r today).1 = <[l := c']> (heap w)
        /\ heap (rateCard w r today).1 !! l = Some c')
  /\ heap (rateCard w r today).1 !! q = Some qc.
Proof.
  intros Hq Hqc Hcards Hc [Hw Ht] Hne Hpre.
  assert (find_deckCard (heap w) (dk w) q = Some l) as Hf.
  { apply (find_deckCard_first _ _ _ _ pre post Hcards).
    - unfold matches. rewrite Hc, Hqc.
      rewrite (bool_decide_eq_true_2 _ Hw), (bool_decide_eq_true_2 _ Ht).
      apply orb_true_r.
    - intros l' Hl'. apply (matches_false _ _ _ qc Hqc).
      + intros ->. destruct (Hpre q qc Hl' Hqc) as [Hqq _]. done.
      + intros c' Hc'. by destruct (Hpre l' c' Hl' Hc'). }
  split; [done|]. split.
  - intros c' Ha. unfold rateCard. rewrite Hq, Hf, Hc, Ha. simpl.
    split; [done|]. apply list_lookup_insert_eq. by eapply lookup_lt_Some.
  - unfold rateCard. rewrite Hq, Hf, Hc.
    destruct (applyRating _ c r today); simpl; [|done].
    by rewrite list_lookup_insert_ne.
Qed.

(** X9. [rateCard] writes to one card at most: the deck's card list, its
    limit, mode, last session date and extension, the queue and the size of
    the store are as before, and every card other than the deck card that
    [find] returns for the current queue entry is untouched. *)
Theorem rateCard_frame w r today :
  let w' := (rateCard w r today).1 in
  cards (dk w') = cards (dk w)
  /\ dailyLimit (dk w') = dailyLimit (dk w)
  /\ learningMode (dk w') = learningMode (dk w)
  /\ lastSessionDate (dk w') = lastSessionDate (dk w)
  /\ sessionExtension (dk w') = sessionExtension (dk w)
  /\ queue (ss w') = queue (ss w)
  /\ length (heap w') = length (heap w)
  /\ forall l,
       (forall q, getCurrentCard w = Some q ->
                  find_deckCard (heap w) (dk w) q <> Some l) ->
       heap w' !! l = heap w !! l.
Proof.
  destruct (rateCard_cases w r today) as [Hn|q Hq Hf|q l0 c Hq Hf Hc Ha
                                          |q l0 c c' Hq Hf Hc Ha]; simpl;
    rewrite ?length_insert; repeat split; try done.
  intros l Hl. apply list_lookup_insert_ne. intros <-. by apply (Hl q).
Qed.

Lemma buildQueue_session_ok w today rnd : session_ok (ss (buildQueue w today rnd)).
Proof. unfold session_ok. simpl. split; [lia|done]. Qed.

Lemma step_session_ok w w' : step w w' -> session_ok (ss w) -> session_ok (ss w').
Proof.
  intros Hstep [Hidx Hbk]. destruct Hstep as [w today rnd _|w r today|w|w a today rnd _].
  - apply buildQueue_session_ok.
  - destruct (rateCard_cases w r today) as [Hn|q Hq Hf|q l c Hq Hf Hc Ha
                                            |q l c c' Hq Hf Hc Ha];
      unfold session_ok; simpl;
      try (pose proof (lookup_lt_Some _ _ _ Hq) as Hlt); try done;
      split; first [lia | done].
  - unfold rewind, session_ok.
    destruct (rewindBackup (ss w)) as [b|] eqn:Hb; simpl.
    + rewrite length_insert. split; [lia|done].
    + by rewrite Hb.
  - apply buildQueue_session_ok.
Qed.

(** X10. From the module as loaded, whatever calls of [buildQueue],
    [rateCard], [rewind] and [extendSession] are made: the cursor never
    passes the end of the queue, and a pending rewind record points into
    the queue, so that [rewind] overwrites a queue slot and leaves the
    session with a current card, the deck card it restored. *)
Theorem session_stays_consistent w0 w :
  session_ok (ss w0) ->
  reachable w0 w ->
  session_ok (ss w)
  /\ forall b, rewindBackup (ss w) = Some b ->
       length (queue (ss (rewind w).1)) = length (queue (ss w))
       /\ getCurrentCard (rewind w).1 = Some (deckCardRef b)
       /\ isComplete (rewind w).1 = false.
Proof.
  intros H0 Hreach.
  assert (session_ok (ss w)) as Hok.
  { induction Hreach as [|w w' _ IH Hstep]; [done|]. by eapply step_session_ok. }
  split; [done|]. intros b Hb. destruct Hok as [_ Hbk]. rewrite Hb in Hbk.
  unfold rewind, getCurrentCard, isComplete. rewrite Hb. simpl.
  rewrite length_insert. split; [done|]. split.
  - by apply list_lookup_insert_eq.
  - apply bool_decide_eq_false_2. lia.
Qed.

(** X11. Rating twice in a row gives up the first rating: when the card
    of the second rating has all its properties, [rewind] leads back to the
    state after the first rating (its card still rated, the cursor one past
    where it started, its review counted) and a further [rewind] undoes
    nothing. *)
Theorem second_rating_replaces_undo w r1 r2 today q1 l1 c1 c1' q2 l2 c2 :
  queue (ss w) !! currentIndex (ss w) = Some q1 ->
  find_deckCard (heap w) (dk w) q1 = Some l1 ->
  heap w !! l1 = Some c1 ->
  applyRating (learningMode (dk w)) c1 r1 today = Some c1' ->
  let w1 := (rateCard w r1 today).1 in
  queue (ss w1) !! currentIndex (ss w1) = Some q2 ->
  find_deckCard (heap w1) (dk w1) q2 = Some l2 ->
  heap w1 !! l2 = Some c2 ->
  complete c2 ->
  let w3 := (rewind (rateCard w1 r2 today).1).1 in
  heap w3 = heap w1
  /\ heap w3 !! l1 = Some c1'
  /\ currentIndex (ss w3) = S (currentIndex (ss w))
  /\ or_int (cardsReviewedToday (dk w3)) 0
     = or_int (cardsReviewedToday (dk w)) 0 + 1
  /\ rewind w3 = (w3, false).
Proof.
  intros Hq1 Hf1 Hc1 Ha1 w1 Hq2 Hf2 Hc2 Hfull w3.
  destruct (rate_rewind_complete w1 r2 today q2 l2 c2 Hq2 Hf2 Hc2 Hfull)
    as (_ & Hheap & Hidx & Hdk & _ & _).
  fold w3 in Hheap, Hidx, Hdk.
  assert (rateCard w r1 today
          = ({| heap := <[l1 := c1']> (heap w);
                dk := set_reviewed (dk w)
                        (or_int (cardsReviewedToday (dk w)) 0 + 1);
                ss := {| queue := queue (ss w);
                         currentIndex := S (currentIndex (ss w));
                         rewindBackup :=
                           Some {| index := currentIndex (ss w);
                                   cardSnapshot := c1;
                                   deckCardRef := l1;
                                   savedCardsReviewedToday :=
                                     or_int (cardsReviewedToday (dk w)) 0 |} |} |},
             Returned)) as Hr1.
  { unfold rateCard. by rewrite Hq1, Hf1, Hc1, Ha1. }
  assert (heap w1 !! l1 = Some c1') as Hl1.
  { unfold w1. rewrite Hr1. simpl. apply list_lookup_insert_eq.
    by eapply lookup_lt_Some. }
  split; [done|]. split; [by rewrite Hheap|]. split.
  { rewrite Hidx. unfold w1. by rewrite Hr1. }
  split.
  { rewrite Hdk. simpl. rewrite or_int_Some. unfold w1. rewrite Hr1. simpl.
    by rewrite or_int_Some. }
  apply rewind_nothing_pending, rewind_clears.
Qed.

(** X12. Rating a card that has all four scheduling properties and
    calling [rewind] at once succeeds and gives back the whole store, the
    cursor and the counter; the session then shows the deck's card again
    and nothing more can be undone. *)
Theorem rate_then_rewind_restores w r today q l c :
  queue (ss w) !! currentIndex (ss w) = Some q ->
  find_deckCard (heap w) (dk w) q = Some l ->
  heap w !! l = Some c ->
  complete c ->
  let w2 := rewind (rateCard w r today).1 in
  w2.2 = true
  /\ heap w2.1 = heap w
  /\ currentIndex (ss w2.1) = currentIndex (ss w)
  /\ or_int (cardsReviewedToday (dk w2.1)) 0
     = or_int (cardsReviewedToday (dk w)) 0
  /\ getCurrentCard w2.1 = Some l
  /\ canRewind w2.1 = false.
Proof.
  intros Hq Hf Hc Hfull w2.
  destruct (rate_rewind_complete w r today q l c Hq Hf Hc Hfull)
    as (Hok & Hheap & Hidx & Hdk & Hqueue & Hcan).
  fold w2 in Hok, Hheap, Hidx, Hdk, Hqueue, Hcan.
  repeat split; try done.
  - rewrite Hdk. simpl. by rewrite or_int_Some.
  - unfold getCurrentCard. rewrite Hqueue, Hidx.
    apply list_lookup_insert_eq. by eapply lookup_lt_Some.
Qed.

Lemma candidates_same (h : list (card date)) d d' today :
  learningMode d' = learningMode d -> cards d' = cards d ->
  candidates h d' today = candidates h d today.
Proof. unfold candidates. by intros -> ->. Qed.

Lemma extendSession_counters_same_day w amount today rnd :
  lastSessionDate (dk w) = Some today ->
  dk (extendSession w amount today rnd)
  = set_extension (dk w) (or_int (sessionExtension (dk w)) 0 + Z.max 1 amount)
  /\ remaining (dk (extendSession w amount today rnd))
     = Z.max 0 (effectiveLimit (dk w) + Z.max 1 amount
                - or_int (cardsReviewedToday (dk w)) 0).
Proof.
  intros Hd. unfold extendSession. simpl.
  unfold checkDayReset. simpl. rewrite decide_True by done.
  split; [done|]. unfold remaining, effectiveLimit. simpl.
  rewrite or_int_Some. f_equal. lia.
Qed.

(** X13. [extendSession] on the day of the last reset adds max(1, amount)
    to the extension and changes nothing else of the deck, so today's
    allowance grows by that much; called when the deck was last reset on
    another day, the day reset inside the rebuild discards the extension
    just added: extension and counter are 0 and the allowance is the plain
    daily limit. *)
Theorem extendSession_counters w amount today rnd :
  let w' := extendSession w amount today rnd in
  (lastSessionDate (dk w) = Some today ->
     dk w' = set_extension (dk w)
               (or_int (sessionExtension (dk w)) 0 + Z.max 1 amount)
     /\ remaining (dk w')
        = Z.max 0 (effectiveLimit (dk w) + Z.max 1 amount
                   - or_int (cardsReviewedToday (dk w)) 0))
  /\ (lastSessionDate (dk w) <> Some today ->
      sessionExtension (dk w') = Some 0
      /\ cardsReviewedToday (dk w') = Some 0
      /\ lastSessionDate (dk w') = Some today
      /\ remaining (dk w') = Z.max 0 (or_int (dailyLimit (dk w)) 5)).
Proof.
  intros w'. subst w'. split.
  - apply extendSession_counters_same_day.
  - unfold extendSession. simpl. intros Hd. unfold checkDayReset. simpl. rewrite decide_False by done.
    simpl. repeat split. unfold remaining, effectiveLimit. simpl.
    rewrite !or_int_Some. f_equal. lia.
Qed.

(** X14. When today's allowance is used up exactly, [extendSession] on the
    same day opens a queue of max(1, amount) cards, or of all the cards
    still eligible if they are fewer. *)
Theorem extendSession_after_limit w amount today rnd :
  lastSessionDate (dk w) = Some today ->
  or_int (cardsReviewedToday (dk w)) 0 = effectiveLimit (dk w) ->
  length (queue (ss (extendSession w amount today rnd)))
  = Nat.min (Z.to_nat (Z.max 1 amount))
      (length (candidates (heap w) (dk w) today)).
Proof.
  intros Hd Hrev.
  destruct (extendSession_counters_same_day w amount today rnd Hd) as [Hdk Hrem].
  unfold extendSession in *. rewrite queue_length. simpl in *.
  unfold checkDayReset in *. simpl in *. rewrite decide_True in * by done.
  rewrite Hrem, Hrev.
  rewrite (candidates_same _ (dk w)) by done.
  f_equal. lia.
Qed.

Lemma not_candidate_not_queued w today rnd l :
  eligible (heap w) (learningMode (dk w)) today l = false ->
  l ∉ queue (ss (buildQueue w today rnd)).
Proof.
  intros He Hl. apply queue_subset in Hl.
  unfold candidates in Hl. apply list_elem_of_In, filter_In in Hl as [_ Hl].
  rewrite checkDayReset_mode in Hl. by rewrite He in Hl.
Qed.

(** X15. In simple mode a card rated remembered is finished: no queue
    built afterwards, on any day and with any draws, contains it; a card
    rated with anything else is written back as it was, so the store does
    not change. *)
Theorem simple_rating_effect w r today q l :
  learningMode (dk w) = simple ->
  queue (ss w) !! currentIndex (ss w) = Some q ->
  find_deckCard (heap w) (dk w) q = Some l ->
  let w1 := (rateCard w r today).1 in
  (r = remembered ->
     forall today' rnd, l ∉ queue (ss (buildQueue w1 today' rnd)))
  /\ (r <> remembered -> heap w1 = heap w).
Proof.
  intros Hm Hq Hf w1.
  destruct (find_deckCard_Some _ _ _ _ Hf) as [_ [c Hc]].
  assert (rateCard w r today
          = ({| heap := <[l := applySimpleRating c r]> (heap w);
                dk := set_reviewed (dk w)
                        (or_int (cardsReviewedToday (dk w)) 0 + 1);
                ss := {| queue := queue (ss w);
                         currentIndex := S (currentIndex (ss w));
                         rewindBackup :=
                           Some {| index := currentIndex (ss w);
                                   cardSnapshot := c;
                                   deckCardRef := l;
                                   savedCardsReviewedToday :=
                                     or_int (cardsReviewedToday (dk w)) 0 |} |} |},
             Returned)) as Hr.
  { unfold rateCard. by rewrite Hq, Hf, Hc, Hm. }
  subst w1. rewrite Hr. split.
  - intros -> today' rnd. apply not_candidate_not_queued. simpl.
    unfold eligible. rewrite Hm.
    rewrite list_lookup_insert_eq by (by eapply lookup_lt_Some). done.
  - intros Hne. simpl. apply list_insert_id. rewrite Hc. by destruct r.
Qed.

Lemma applySpacedRating_due c r today c' :
  applySpacedRating c r today = Some c' ->
  (r = again -> dueDate c' = Val today)
  /\ (r = hard \/ r = good \/ r = easy ->
      exists n due, 1 <= n /\ addDays today n = Some due
                    /\ dueDate c' = Val due /\ interval c' = Val n).
Proof.
  unfold applySpacedRating. intros Hc'. split.
  - intros ->. by injection Hc' as <-.
  - intros [->|[->| ->]];
      (destruct (next_interval _) as [n|] eqn:Hn; simpl in Hc'; [|done]);
      (destruct (addDays today n) as [due|] eqn:Hd; simpl in Hc'; [|done]);
      injection Hc' as <-; exists n, due;
      (split; [by eapply next_interval_positive|done]).
Qed.

End SessionProperties.

(** ** The day after a rating in spaced mode *)

Section SameDay.

Variable h : JS.host.

#[local] Abbreviation cal := (js_calendar h).

(** X16. In spaced mode, on a host that keeps the local noon of a day
    within that day of UTC and on a day [today] from 0000-01-01 to
    9999-12-31: the rated card is written at its address; rated again it is
    due [today] and still a candidate of a build on the same day; rated
    hard, good or easy it is due [today + n] for its new interval [n], at
    least 1, and as long as that date is not past 9999-12-31 it is in no
    queue built on the same day. The dates are compared as the code
    compares them, as strings. *)
Theorem spaced_rating_effect (w : world Z) r today q l c c' :
  noon_on_same_day h ->
  four_digit_year today ->
  learningMode (dk w) = spaced ->
  queue (ss w) !! currentIndex (ss w) = Some q ->
  find_deckCard (heap w) (dk w) q = Some l ->
  heap w !! l = Some c ->
  applySpacedRating (Calendar0 := cal) c r today = Some c' ->
  let w1 := (rateCard (Calendar0 := cal) w r today).1 in
  heap w1 !! l = Some c'
  /\ (r = again ->
      dueDate c' = Val today
      /\ l ∈ candidates (Calendar0 := cal) (heap w1)
               (checkDayReset (Calendar0 := cal) (dk w1) today) today)
  /\ (r = hard \/ r = good \/ r = easy ->
      exists n,
        1 <= n /\ interval c' = Val n /\ dueDate c' = Val (today + n)
        /\ (four_digit_year (today + n) ->
            forall rnd,
              l ∉ queue (ss (buildQueue (Calendar0 := cal) w1 today rnd)))).
Proof.
  intros Hh Htoday Hm Hq Hf Hc Ha w1.
  destruct (find_deckCard_Some _ _ _ _ Hf) as [Hin _].
  assert (rateCard (Calendar0 := cal) w r today
          = ({| heap := <[l := c']> (heap w);
                dk := set_reviewed (dk w)
                        (or_int (cardsReviewedToday (dk w)) 0 + 1);
                ss := {| queue := queue (ss w);
                         currentIndex := S (currentIndex (ss w));
                         rewindBackup :=
                           Some {| index := currentIndex (ss w);
                                   cardSnapshot := c;
                                   deckCardRef := l;
                                   savedCardsReviewedToday :=
                                     or_int (cardsReviewedToday (dk w)) 0 |} |} |},
             Returned)) as Hr.
  { unfold rateCard. rewrite Hq, Hf, Hc, Hm. simpl. by rewrite Ha. }
  destruct (applySpacedRating_due c r today c' Ha) as [Hagain Hother].
  pose proof (lookup_lt_Some _ _ _ Hc) as Hlt.
  subst w1. rewrite Hr. split; [|split].
  - simpl. by apply list_lookup_insert_eq.
  - intros Hr'. split; [by apply Hagain|].
    simpl. unfold candidates. apply list_elem_of_In, filter_In.
    rewrite checkDayReset_cards, checkDayReset_mode. simpl.
    split; [by apply list_elem_of_In|].
    unfold eligible. rewrite Hm, list_lookup_insert_eq by done.
    unfold is_due. rewrite (Hagain Hr'). apply string_leb_refl.
  - intros Hr'. destruct (Hother Hr') as (n & due & Hn & Hd & Hdue & Hi).
    apply addDays_Some in Hd as ->;
      [|done|by apply four_digit_in_range].
    exists n. split; [done|]. split; [done|]. split; [done|].
    intros Hyear rnd. apply not_candidate_not_queued. simpl.
    unfold eligible. rewrite Hm, list_lookup_insert_eq by done.
    unfold is_due. rewrite Hdue. apply isoDate_later; [done|done|lia].
Qed.

End SameDay.

(** ** Properties of the interface *)

Section InterfaceProperties.

Context {date : Type} `{!Calendar date}.
Implicit Types (u : ui date) (w : world date) (d : deck date) (c : card date).

#[local] Arguments or_int : simpl never.

Lemma settings_limit_range limitInput : 1 <= settings_limit limitInput <= 500.
Proof. unfold settings_limit. destruct limitInput; lia. Qed.

(** X17. [saveSettings] stores the daily limit that was typed, brought
    into the range from 1 to 500 (1 for a smaller number, 500 for a larger
    one, 5 when the input is not a number), and the chosen mode, simple
    when none is chosen; it touches no card and rebuilds the queue within
    the new limit; if the mode is now spaced, every deck card without a due
    date is a candidate again, also one that was finished in simple mode. *)
Theorem saveSettings_spec u d modeInput limitInput today rnd :
  currentDeck u = Some d ->
  let u' := saveSettings u modeInput limitInput today rnd in
  exists d' L,
    currentDeck u' = Some d'
    /\ dailyLimit d' = Some L
    /\ match limitInput with
       | None => L = 5
       | Some n =>
           (n < 1 -> L = 1) /\ (1 <= n <= 500 -> L = n) /\ (500 < n -> L = 500)
       end
    /\ match modeInput with
       | None => learningMode d' = simple
       | Some m => learningMode d' = m
       end
    /\ cards d' = cards d
    /\ objects u' = objects u
    /\ Z.of_nat (length (queue (session_vars u')))
       <= Z.max 0 (L + or_int (sessionExtension d') 0
                   - or_int (cardsReviewedToday d') 0)
    /\ (modeInput = Some spaced ->
        forall l c, l ∈ cards d -> objects u !! l = Some c ->
          dueDate c = Null \/ dueDate c = Absent ->
          l ∈ candidates (objects u) d' today).
Proof.
  intros Hd u'. pose proof (settings_limit_range limitInput) as HL.
  subst u'. unfold saveSettings. rewrite Hd.
  set (L := settings_limit limitInput) in *.
  set (w := world_of u (set_settings d (default simple modeInput) L)).
  exists (checkDayReset (dk w) today), L.
  assert (Z.of_nat (length (queue (ss (buildQueue w today rnd))))
          <= Z.max 0 (L + or_int (sessionExtension (checkDayReset (dk w) today)) 0
                      - or_int (cardsReviewedToday (checkDayReset (dk w) today)) 0))
    as Hlen.
  { rewrite queue_length. unfold remaining, effectiveLimit.
    rewrite checkDayReset_limit. simpl.
    rewrite or_int_nonzero by lia. lia. }
  split; [done|]. split; [by rewrite checkDayReset_limit|].
  split; [subst L; unfold settings_limit; destruct limitInput; lia|].
  split; [rewrite checkDayReset_mode; by destruct modeInput|].
  split; [by rewrite checkDayReset_cards|]. split; [done|]. split; [exact Hlen|].
  intros Hm l c Hl Hc Hdue. unfold candidates.
  apply list_elem_of_In, filter_In.
  rewrite checkDayReset_cards, checkDayReset_mode. simpl. rewrite Hm. simpl.
  split; [by apply list_elem_of_In|].
  unfold eligible, is_due. rewrite Hc. by destruct Hdue as [-> | ->].
Qed.

Lemma checkDayReset_new_day d today :
  lastSessionDate d <> Some today ->
  checkDayReset d today
  = {| dailyLimit := dailyLimit d; learningMode := learningMode d;
       cards := cards d; lastSessionDate := Some today;
       cardsReviewedToday := Some 0; sessionExtension := Some 0 |}.
Proof. intros Hne. unfold checkDayReset. by rewrite decide_False. Qed.

Lemma reset_card_idem c : reset_card (reset_card c) = reset_card c.
Proof. done. Qed.

Lemma reset_cards_lookup (h : list (card date)) ls l :
  reset_cards h ls !! l
  = if decide (l ∈ ls) then reset_card <$> h !! l else h !! l.
Proof.
  unfold reset_cards. revert h.
  induction ls as [|x ls IH]; intros h; cbn [foldl].
  - destruct (decide (l ∈ [])) as [Hin|_]; [|done]. by apply elem_of_nil in Hin.
  - rewrite IH. destruct (decide (l = x)) as [->|Hne].
    + rewrite list_lookup_alter_eq.
      destruct (decide (x ∈ x :: ls)) as [_|Hn]; [|by destruct Hn; left].
      destruct (decide (x ∈ ls)); [|done].
      by destruct (h !! x).
    + rewrite list_lookup_alter_ne by done.
      destruct (decide (l ∈ ls)) as [Hin|Hin];
        destruct (decide (l ∈ x :: ls)) as [Hin'|Hin']; try done.
      * destruct Hin'. by right.
      * apply elem_of_cons in Hin' as [?|?]; done.
Qed.

Lemma filter_all {A} (f : A -> bool) (l : list A) :
  (forall x, x ∈ l -> f x = true) -> List.filter f l = l.
Proof.
  induction l as [|x l IH]; intros Hall; simpl; [done|].
  rewrite (Hall x) by left. f_equal. apply IH. intros y Hy. apply Hall. by right.
Qed.

(** X18. A confirmed [resetDeckCards] turns every card of the deck into a
    new card with the same word and translation (to review, no due date,
    interval 1, ease 2.5), leaves the other objects alone, zeroes both
    counters, and rebuilds the queue out of all the deck's cards: its
    length is the smaller of the daily limit (5 when missing) and the
    number of cards. Declined, it changes nothing. *)
Theorem resetDeckCards_spec u d today rnd :
  currentDeck u = Some d ->
  cards_allocated (objects u) d ->
  let u' := resetDeckCards u true today rnd in
  (forall l c, l ∈ cards d -> objects u !! l = Some c ->
     objects u' !! l
     = Some {| word := word c;
               translation := translation c;
               sessionStatus := Val TO_REVIEW;
               dueDate := Null;
               interval := Val 1;
               easeFactor := Val 2.5%float |})
  /\ (forall l, l ∉ cards d -> objects u' !! l = objects u !! l)
  /\ (exists d',
        currentDeck u' = Some d'
        /\ cardsReviewedToday d' = Some 0 /\ sessionExtension d' = Some 0
        /\ lastSessionDate d' = Some today /\ dailyLimit d' = dailyLimit d)
  /\ length (queue (session_vars u'))
     = Nat.min (Z.to_nat (Z.max 0 (or_int (dailyLimit d) 5))) (length (cards d))
  /\ resetDeckCards u false today rnd = u.
Proof.
  intros Hd Hall u'. subst u'. unfold resetDeckCards. rewrite Hd.
  set (w := {| heap := reset_cards (objects u) (cards d);
               dk := reset_deck d; ss := session_vars u |}).
  split; [|split; [|split; [|split]]].
  - intros l c Hl Hc. simpl. rewrite reset_cards_lookup, decide_True by done.
    by rewrite Hc.
  - intros l Hl. simpl. by rewrite reset_cards_lookup, decide_False by done.
  - exists (checkDayReset (dk w) today). split; [done|].
    by rewrite checkDayReset_new_day.
  - etrans; [exact (queue_length w today rnd)|]. f_equal.
    + rewrite checkDayReset_new_day by done.
      unfold remaining, effectiveLimit. simpl. rewrite !or_int_Some.
      f_equal. lia.
    + unfold candidates. rewrite checkDayReset_cards, checkDayReset_mode.
      simpl. rewrite filter_all; [done|].
      intros l Hl. destruct (Hall l Hl) as [c Hc].
      unfold eligible. rewrite reset_cards_lookup, decide_True, Hc by done.
      simpl. by destruct (learningMode d).
  - done.
Qed.

(** X19. The two ways to extend the session read the amount differently
    only at 0: for every other input, not a number included, the button of
    the main screen and the one of the settings dialog do the same; for 0
    the main screen extends by 5 and the settings dialog by 1. *)
Theorem extend_handlers_compared u input today rnd :
  (input <> Some 0 ->
     onExtendSession u input today rnd
     = extendSessionFromSettings u input today rnd)
  /\ onExtendSession u (Some 0) today rnd = onExtendSession u (Some 5) today rnd
  /\ extendSessionFromSettings u (Some 0) today rnd
     = extendSessionFromSettings u (Some 1) today rnd.
Proof.
  unfold onExtendSession, extendSessionFromSettings, extendSession.
  split; [|split]; [intros Hne| |]; destruct (currentDeck u) as [d|]; try done.
  destruct input as [n|]; [|done].
  unfold or_int, settings_amount.
  destruct (Z.eqb_spec n 0) as [->|Hn]; [done|].
  by replace (Z.max 1 (Z.max 1 n)) with (Z.max 1 n) by lia.
Qed.

Lemma updateState_consistent u :
  session_ok (session_vars u) -> ui_consistent (updateState u).
Proof.
  intros Hok. unfold ui_consistent, updateState. simpl. split; [done|].
  destruct (currentDeck u) as [d|]; [|done].
  destruct (session_complete (session_vars u)) eqn:Hc; eauto.
Qed.

Lemma rebuilt_consistent w today rnd st :
  ui_consistent (updateState (ui_of (buildQueue w today rnd) st)).
Proof. apply updateState_consistent. apply buildQueue_session_ok. Qed.

Lemma consistent_no_deck u :
  ui_consistent u -> currentDeck u = None -> appState u = NO_DECK.
Proof.
  intros [_ Hst] Hd. destruct (appState u); [done|..];
    destruct Hst as [[d Hd'] _]; congruence.
Qed.

Lemma same_screen_consistent u u' :
  ui_consistent u ->
  session_vars u' = session_vars u -> appState u' = appState u ->
  (is_Some (currentDeck u') <-> is_Some (currentDeck u)) ->
  ui_consistent u'.
Proof.
  intros [Hok Hst] Hs Ha Hd. unfold ui_consistent. rewrite Hs, Ha.
  split; [done|]. destruct (appState u).
  - destruct (currentDeck u') as [d|] eqn:Hd'; [|done].
    assert (is_Some (currentDeck u)) as [d0 Hd0] by (apply Hd; eauto).
    congruence.
  - destruct Hst. split; [by apply Hd|done].
  - destruct Hst. split; [by apply Hd|done].
  - destruct Hst. split; [by apply Hd|done].
Qed.

Lemma ui_step_consistent u u' : ui_step u u' -> ui_consistent u -> ui_consistent u'.
Proof.
  intros Hstep Hinv. pose proof Hinv as [Hok Hst].
  destruct Hstep as [u loaded today rnd _|u|u|u|u r today|u
                     |u input today rnd _|u input today rnd _
                     |u m limit today rnd _|u confirmed today rnd _
                     |u today rnd _|u editing wd tr|u parsed|u idx confirmed|u].
  - unfold openDeck. destruct loaded as [[h d]|]; [|done].
    apply rebuilt_consistent.
  - by apply updateState_consistent.
  - unfold onShowAnswer. by destruct (appState u) eqn:Ha.
  - unfold onBackToFront. by destruct (appState u) eqn:Ha.
  - unfold onRate. destruct (appState u) eqn:Ha; try done.
    destruct Hst as [[d Hd] Hc]. rewrite Hd.
    assert (currentIndex (session_vars u) < length (queue (session_vars u)))%nat
      as Hlt.
    { unfold session_complete in Hc. apply bool_decide_eq_false in Hc. lia. }
    destruct Hok as [Hidx Hbk].
    destruct (rateCard_cases (world_of u d) r today)
      as [Hn|q Hq Hf|q l c Hq Hf Hc' Hr|q l c c' Hq Hf Hc' Hr]; simpl.
    + by apply updateState_consistent.
    + apply updateState_consistent. split; simpl; [lia|done].
    + unfold ui_consistent, session_ok. simpl. eauto.
    + apply updateState_consistent. split; simpl; [lia|done].
  - unfold onRewind. destruct (rewindBackup (session_vars u)) as [b|] eqn:Hb;
      [|done].
    destruct Hok as [Hidx Hbk]. rewrite Hb in Hbk.
    destruct (currentDeck u) as [d|] eqn:Hd.
    + unfold ui_consistent, rewind. simpl. rewrite Hb. simpl.
      unfold session_ok, session_complete. simpl. rewrite length_insert.
      split; [split; [lia|done]|]. split; [eauto|].
      apply bool_decide_eq_false_2. lia.
    + pose proof (consistent_no_deck u Hinv Hd) as Ha.
      unfold ui_consistent, session_ok. simpl. rewrite length_insert, Ha.
      split; [split; [lia|done]|done].
  - unfold onExtendSession. destruct (currentDeck u); [|done].
    apply rebuilt_consistent.
  - unfold extendSessionFromSettings. destruct (currentDeck u); [|done].
    apply rebuilt_consistent.
  - unfold saveSettings. destruct (currentDeck u); [|done].
    apply rebuilt_consistent.
  - unfold resetDeckCards. destruct (currentDeck u); [|done].
    destruct confirmed; [|done]. apply rebuilt_consistent.
  - unfold onCardEditorClose. destruct (currentDeck u); [|done].
    apply rebuilt_consistent.
  - unfold saveCard. case_bool_decide; [done|].
    destruct (currentDeck u) as [d|] eqn:Hd; [|done].
    destruct editing as [idx|].
    + destruct (cards d !! idx); [|done].
      apply (same_screen_consistent u); try done; simpl; rewrite Hd; split; eauto.
    + apply (same_screen_consistent u); try done; simpl; rewrite Hd; split; eauto.
  - unfold importCards. destruct (currentDeck u) as [d|] eqn:Hd; [|done].
    apply (same_screen_consistent u); try done; simpl; rewrite Hd; split; eauto.
  - unfold deleteCard. destruct (currentDeck u) as [d|] eqn:Hd; [|done].
    destruct (_ && _); [|done].
    apply (same_screen_consistent u); try done; simpl; rewrite Hd; split; eauto.
  - apply updateState_consistent. done.
Qed.

(** X20. Through every sequence of events of the interface (opening a
    deck, showing and hiding the answer, rating, rewinding, extending,
    saving settings, resetting, adding, editing, importing and deleting
    cards, closing the deck) the screen
    agrees with the session: a card side is shown only while a deck is open
    and the session has a current card, the completion screen only while
    the session is complete, and no deck is open exactly in the state
    NO_DECK; so [onRate] always has a deck and a card to rate. *)
Theorem ui_stays_consistent u :
  ui_reachable u ->
  ui_consistent u
  /\ (appState u = SHOW_FRONT \/ appState u = SHOW_BACK ->
      exists d q, currentDeck u = Some d
                  /\ getCurrentCard (world_of u d) = Some q)
  /\ (currentDeck u = None <-> appState u = NO_DECK).
Proof.
  intros Hreach.
  assert (ui_consistent u) as Hinv.
  { induction Hreach as [|u u' _ IH Hstep].
    - unfold ui_consistent, session_ok. simpl. split; [split; [lia|done]|done].
    - by eapply ui_step_consistent. }
  split; [done|]. split.
  - destruct Hinv as [_ Hst].
    intros [Ha|Ha]; rewrite Ha in Hst; destruct Hst as [[d Hd] Hc];
      unfold session_complete in Hc; apply bool_decide_eq_false in Hc;
      (destruct (lookup_lt_is_Some_2 (queue (session_vars u))
                   (currentIndex (session_vars u))) as [q Hq]; [lia|]);
      by exists d, q.
  - split; [by apply consistent_no_deck|].
    intros Ha. destruct Hinv as [_ Hst]. by rewrite Ha in Hst.
Qed.

Lemma elem_of_delete {A} (ls : list A) i x :
  x ∈ delete i ls -> exists j, j <> i /\ ls !! j = Some x.
Proof.
  intros [j Hj]%list_elem_of_lookup_1.
  destruct (decide (j < i)%nat) as [Hlt|Hge].
  - rewrite list_lookup_delete_lt in Hj by done. exists j. split; [lia|done].
  - rewrite list_lookup_delete_ge in Hj by lia. exists (S j). split; [lia|done].
Qed.

(** X21. A card deleted in the editor while it is the current card of a
    session that is not rebuilt (no other deck card has its word and
    translation): the next rating skips it, moving the cursor by one
    without counting a review or touching a card. *)
Theorem delete_then_rate_skips u d r today q i :
  currentDeck u = Some d ->
  queue (session_vars u) !! currentIndex (session_vars u) = Some q ->
  cards d !! i = Some q ->
  (forall j l c, j <> i -> cards d !! j = Some l -> objects u !! l = Some c ->
     l <> q
     /\ forall qc, objects u !! q = Some qc ->
         ~ (word c = word qc /\ translation c = translation qc)) ->
  exists d1,
    currentDeck (deleteCard u i true) = Some d1
    /\ cards d1 = delete i (cards d)
    /\ rateCard (world_of (deleteCard u i true) d1) r today
       = ({| heap := objects u;
             dk := d1;
             ss := {| queue := queue (session_vars u);
                      currentIndex := S (currentIndex (session_vars u));
                      rewindBackup := rewindBackup (session_vars u) |} |},
          Returned).
Proof.
  intros Hd Hq Hi Hother.
  unfold deleteCard. rewrite Hd.
  rewrite bool_decide_eq_true_2 by (by eapply lookup_lt_Some). simpl.
  eexists. split; [done|]. split; [done|].
  unfold rateCard, world_of. simpl. rewrite Hq.
  rewrite find_deckCard_None; [done|].
  intros l c Hl Hc. simpl in Hl.
  apply elem_of_delete in Hl as (j & Hj & Hl). by eapply Hother.
Qed.

(** X22. [saveCard] in adding mode refuses an empty word or translation;
    otherwise it creates one new object with the given text and all four
    scheduling properties, appends it to the deck, and leaves the other
    cards, the running queue, the cursor and the screen alone; in either
    mode the new card is a candidate of the next build. *)
Theorem saveCard_adds_card u d wd tr today :
  currentDeck u = Some d ->
  wd <> "" -> tr <> "" ->
  let u' := saveCard u None wd tr in
  let l := length (objects u) in
  let new : card date :=
    {| word := wd;
       translation := tr;
       sessionStatus := Val TO_REVIEW;
       dueDate := Null;
       interval := Val 1;
       easeFactor := Val 2.5%float |} in
  exists d',
    currentDeck u' = Some d'
    /\ cards d' = cards d ++ [l]
    /\ length (objects u') = S l
    /\ objects u' !! l = Some new
    /\ complete new
    /\ (forall l', (l' < l)%nat -> objects u' !! l' = objects u !! l')
    /\ session_vars u' = session_vars u /\ appState u' = appState u
    /\ l ∈ candidates (objects u') d' today
    /\ saveCard u None "" tr = u /\ saveCard u None wd "" = u.
Proof.
  intros Hd Hw Ht u' l new. subst u'. unfold saveCard.
  rewrite (bool_decide_eq_false_2 (wd = "" \/ tr = "")) by tauto.
  rewrite Hd. eexists. split; [done|]. simpl. split; [done|].
  split; [rewrite length_app; simpl; lia|].
  split; [by apply list_lookup_middle|]. split; [by repeat split|].
  split; [intros l' Hl'; by apply lookup_app_l|]. split; [done|]. split; [done|].
  split.
  - unfold candidates. simpl. apply list_elem_of_In, filter_In. split.
    + apply list_elem_of_In, elem_of_app. right. by left.
    + unfold eligible. rewrite list_lookup_middle by done.
      by destruct (learningMode d).
  - split; [done|]. by rewrite bool_decide_eq_true_2 by auto.
Qed.

End InterfaceProperties.

(** ** Properties of the deck storage *)

Section StorageProperties.

Context {body : Type}.
Variable stringify : string -> body -> string.
Variable parse : string -> option (string * body).
Variable stringify_config : config -> string.
Variable fits : gmap string string -> string -> string -> bool.

#[local] Abbreviation save' := (save stringify_config fits).
#[local] Abbreviation loadDeck' := (loadDeck parse).
#[local] Abbreviation saveDeck' := (saveDeck stringify stringify_config fits).
#[local] Abbreviation deleteDeck' := (deleteDeck stringify_config fits).
#[local] Abbreviation storeImported' :=
  (storeImported stringify stringify_config fits).

Lemma deckKey_inj a b : deckKey a = deckKey b -> a = b.
Proof. unfold deckKey, DECK_PREFIX. intros Heq. by simplify_eq. Qed.

Lemma deckKey_not_config a : deckKey a <> CONFIG_KEY.
Proof. intros Heq. cbv in Heq. discriminate Heq. Qed.

Lemma save_cfg st : cfg (save' st) = cfg st.
Proof. unfold save, setItem. by destruct (fits _ _ _). Qed.

Lemma save_deck_entry st n :
  localStorage (save' st) !! deckKey n = localStorage st !! deckKey n.
Proof.
  unfold save, setItem. destruct (fits _ _ _); simpl; [|done].
  apply lookup_insert_ne. intros Heq. by apply (deckKey_not_config n).
Qed.

Lemma save_loadDeck st n : loadDeck' (save' st) n = loadDeck' st n.
Proof. unfold loadDeck. by rewrite save_deck_entry. Qed.

Lemma elem_of_filter_ne (names : list string) name n :
  n ∈ List.filter (fun x => negb (bool_decide (x = name))) names
  <-> n ∈ names /\ n <> name.
Proof.
  rewrite !list_elem_of_In, filter_In. rewrite negb_true_iff.
  by rewrite bool_decide_eq_false.
Qed.

(** X23. After [deleteDeck(name)] the deck cannot be loaded and is off
    the list; every other deck loads as before and is listed as before;
    the current deck name is cleared exactly when it was the deleted
    one. *)
Theorem deleteDeck_spec st name :
  let st' := deleteDeck' st name in
  loadDeck' st' name = None
  /\ (name ∉ getDeckNames st')
  /\ (forall other, other <> name ->
        loadDeck' st' other = loadDeck' st other
        /\ (other ∈ getDeckNames st' <-> other ∈ getDeckNames st))
  /\ currentDeckName (cfg st')
     = if bool_decide (currentDeckName (cfg st) = Some name) then None
       else currentDeckName (cfg st).
Proof.
  intros st'. subst st'. unfold deleteDeck, getDeckNames.
  rewrite !save_cfg. simpl. split; [|split; [|split]].
  - rewrite save_loadDeck. unfold loadDeck. simpl.
    by rewrite lookup_delete_eq.
  - rewrite elem_of_filter_ne. tauto.
  - intros other Hne. split.
    + rewrite save_loadDeck. unfold loadDeck. simpl.
      rewrite lookup_delete_ne; [done|]. intros Heq.
      by apply deckKey_inj in Heq.
    + rewrite elem_of_filter_ne. tauto.
  - done.
Qed.

Lemma saveDeck_cases st deck :
  (saveDeck' st deck = (st, false))
  \/ exists name b,
       deck = Some (name, b) /\ name <> ""
       /\ fits (localStorage st) (deckKey name) (stringify name b) = true
       /\ (saveDeck' st deck).2 = true
       /\ localStorage (saveDeck' st deck).1 !! deckKey name
          = Some (stringify name b)
       /\ (forall other, other <> name ->
             localStorage (saveDeck' st deck).1 !! deckKey other
             = localStorage st !! deckKey other)
       /\ currentDeckName (cfg (saveDeck' st deck).1) = currentDeckName (cfg st)
       /\ deckNames (cfg (saveDeck' st deck).1)
          = if bool_decide (name ∈ deckNames (cfg st)) then deckNames (cfg st)
            else deckNames (cfg st) ++ [name].
Proof.
  unfold saveDeck. destruct deck as [[name b]|]; [|by left].
  case_bool_decide as Hname; [by left|].
  unfold setItem. destruct (fits _ _ _) eqn:Hfits; [|by left].
  right. exists name, b. split; [done|]. split; [done|]. split; [done|].
  assert (forall other, other <> name ->
            <[deckKey name := stringify name b]> (localStorage st) !! deckKey other
            = localStorage st !! deckKey other) as Hother.
  { intros other Hne. apply lookup_insert_ne. intros Heq.
    by apply deckKey_inj in Heq. }
  case_bool_decide as Hin; simpl.
  - rewrite lookup_insert_eq. by repeat split.
  - rewrite save_cfg. simpl. rewrite save_deck_entry. simpl.
    rewrite lookup_insert_eq. repeat split; try done.
    intros other Hne. rewrite save_deck_entry. simpl. by apply Hother.
Qed.

(** X24. [saveDeck] either returns false and changes nothing (no deck, no
    name, or the write failed) or returns true, and then loading the name
    gives back what was written, the name is on the list, and every other
    deck loads and is listed as before. *)
Theorem saveDeck_spec st deck :
  let st' := (saveDeck' st deck).1 in
  ((saveDeck' st deck).2 = false -> st' = st)
  /\ ((saveDeck' st deck).2 = true ->
      exists name b,
        deck = Some (name, b) /\ name <> ""
        /\ loadDeck' st' name
           = (if bool_decide (stringify name b = "") then None
              else parse (stringify name b))
        /\ name ∈ getDeckNames st'
        /\ forall other, other <> name ->
             loadDeck' st' other = loadDeck' st other
             /\ (other ∈ getDeckNames st' <-> other ∈ getDeckNames st)).
Proof.
  intros st'. subst st'.
  destruct (saveDeck_cases st deck)
    as [Heq|(name & b & Hd & Hname & _ & Hok & Hentry & Hother & _ & Hnames)].
  - rewrite Heq. simpl. split; [done|]. discriminate.
  - split; [by rewrite Hok|]. intros _. exists name, b.
    split; [done|]. split; [done|]. unfold getDeckNames. rewrite Hnames.
    split; [|split].
    + unfold loadDeck. by rewrite Hentry.
    + case_bool_decide; [done|]. apply elem_of_app. right. by left.
    + intros other Hne. split.
      * unfold loadDeck. by rewrite Hother.
      * case_bool_decide; [done|]. rewrite elem_of_app, list_elem_of_singleton.
        tauto.
Qed.

(** X25. The deck list stays in order: if no name is listed twice and
    every listed name has an entry in the storage, the same holds after
    [saveDeck] and after [deleteDeck]. *)
Theorem names_stay_ok st deck name :
  names_ok st ->
  names_ok (saveDeck' st deck).1 /\ names_ok (deleteDeck' st name).
Proof.
  intros [Hnd Hstored]. split.
  - destruct (saveDeck_cases st deck)
      as [Heq|(nm & b & Hd & Hname & _ & Hok & Hentry & Hother & _ & Hnames)].
    + by rewrite Heq.
    + unfold names_ok. rewrite Hnames. case_bool_decide as Hin.
      * split; [done|]. intros n Hn.
        destruct (decide (n = nm)) as [->|Hne]; [by rewrite Hentry|].
        rewrite Hother by done. by apply Hstored.
      * split.
        { apply NoDup_app. split; [done|]. split; [|apply NoDup_singleton].
          intros x Hx Hx'. apply list_elem_of_singleton in Hx'. by subst. }
        intros n Hn. apply elem_of_app in Hn as [Hn|Hn].
        { destruct (decide (n = nm)) as [->|Hne]; [done|].
          rewrite Hother by done. by apply Hstored. }
        apply list_elem_of_singleton in Hn as ->. by rewrite Hentry.
  - unfold names_ok, deleteDeck. rewrite save_cfg. simpl. split.
    + by apply NoDup_ListNoDup, List.NoDup_filter, NoDup_ListNoDup.
    + intros n [Hn Hne]%elem_of_filter_ne. rewrite save_deck_entry. simpl.
      rewrite lookup_delete_ne; [by apply Hstored|].
      intros Heq. by apply deckKey_inj in Heq.
Qed.

Lemma append_ne (a b : string) : b <> "" -> a +:+ b <> a.
Proof.
  intros Hb. induction a as [|ch a IH]; [done|].
  intros Heq. cbn [String.append] in Heq. injection Heq as Heq. by apply IH.
Qed.

(** X26. An imported deck never replaces the deck whose name it bears:
    when the name is on the list the import is stored under the name
    followed by " (imported)" and the listed deck loads as before
    (whatever was stored under the longer name is replaced); when the name
    is free the import is stored under it. *)
Theorem storeImported_spec st name b :
  let st' := (storeImported' st name b).1 in
  (name ∈ getDeckNames st ->
     loadDeck' st' name = loadDeck' st name
     /\ ((storeImported' st name b).2 = true ->
         localStorage st' !! deckKey (name +:+ " (imported)")
         = Some (stringify (name +:+ " (imported)") b)))
  /\ (name ∉ getDeckNames st ->
      (storeImported' st name b).2 = true ->
      localStorage st' !! deckKey name = Some (stringify name b)).
Proof.
  intros st'. subst st'. unfold storeImported, import_name. split.
  - intros Hin. rewrite bool_decide_eq_true_2 by done.
    set (new := name +:+ " (imported)").
    assert (name <> new) as Hne.
    { intros Heq. by apply (append_ne name " (imported)"). }
    destruct (saveDeck_cases st (Some (new, b)))
      as [Heq|(nm & b' & Hd & _ & _ & Hok & Hentry & Hother & _)].
    + rewrite Heq. simpl. split; [done|]. discriminate.
    + injection Hd as <- <-. split.
      * unfold loadDeck. by rewrite Hother.
      * done.
  - intros Hnin. rewrite bool_decide_eq_false_2 by done. intros Hok.
    destruct (saveDeck_cases st (Some (name, b)))
      as [Heq|(nm & b' & Hd & _ & _ & _ & Hentry & _)].
    + rewrite Heq in Hok. discriminate.
    + by injection Hd as <- <-.
Qed.

End StorageProperties.

(** ** Properties of the text import *)

Section TextProperties.

Variable white : N -> bool.

#[local] Abbreviation trimStart' := (trimStart white).
#[local] Abbreviation trimEnd' := (trimEnd white).
#[local] Abbreviation trim' := (trim white).

Lemma trimStart_head s : head_kept white (trimStart' s).
Proof.
  induction s as [|u s IH]; simpl; [done|].
  destruct (white u) eqn:Hu; [done|]. simpl. done.
Qed.

Lemma trimStart_fixed s : head_kept white s -> trimStart' s = s.
Proof. destruct s as [|u s]; simpl; [done|]. by intros ->. Qed.

Lemma trimStart_snoc s u :
  white u = false -> exists y, trimStart' (s ++ [u]) = y ++ [u].
Proof.
  intros Hu. induction s as [|v s IH]; simpl.
  - rewrite Hu. by exists [].
  - destruct (white v); [done|]. by exists (v :: s).
Qed.

Lemma trimEnd_head s : head_kept white s -> head_kept white (trimEnd' s).
Proof.
  destruct s as [|u s]; [done|]. simpl. intros Hu.
  unfold trimEnd. rewrite reverse_cons.
  destruct (trimStart_snoc (reverse s) u Hu) as [y ->].
  by rewrite reverse_snoc.
Qed.

Lemma trimEnd_idem s : trimEnd' (trimEnd' s) = trimEnd' s.
Proof.
  unfold trimEnd. rewrite reverse_involutive.
  by rewrite (trimStart_fixed _ (trimStart_head _)).
Qed.

Lemma trim_idem s : trim' (trim' s) = trim' s.
Proof.
  unfold trim.
  rewrite (trimStart_fixed (trimEnd' (trimStart' s)))
    by apply trimEnd_head, trimStart_head.
  apply trimEnd_idem.
Qed.

Lemma fields_clean w t p :
  fields (trim' w) (trim' t) = Some p -> clean white p.1 /\ clean white p.2.
Proof.
  unfold fields, clean.
  destruct (trim' w) as [|a w'] eqn:Hw; [done|].
  destruct (trim' t) as [|b t'] eqn:Ht; [done|]. simpl.
  intros [= <-]. simpl. rewrite <- Hw, <- Ht.
  by rewrite !trim_idem, Hw, Ht.
Qed.

Lemma parseTxtLine_clean line p :
  parseTxtLine white line = Some p -> clean white p.1 /\ clean white p.2.
Proof.
  unfold parseTxtLine.
  destruct (indexOf [TAB] line) as [[|i]|];
    try (destruct (fields _ _) as [r|] eqn:Hr;
         [intros [= <-]; by eapply fields_clean|]);
    (destruct (indexOf DASH_SEP line) as [[|j]|]; try done;
     by apply fields_clean).
Qed.

Lemma import_lines_spec lines acc :
  let r := foldl (import_line white) acc lines in
  (Forall (fun p => clean white p.1 /\ clean white p.2) acc.1 ->
   Forall (fun p => clean white p.1 /\ clean white p.2) r.1)
  /\ (length r.1 + r.2 + length (List.filter comment_line lines)
      = length acc.1 + acc.2 + length lines)%nat.
Proof.
  revert acc. induction lines as [|line lines IH]; intros acc; simpl.
  - split; [done|lia].
  - destruct (IH (import_line white acc line)) as [IH1 IH2].
    unfold comment_line at 1. unfold import_line in *.
    destruct (startsWith [HASH] line) eqn:Hc; simpl in *.
    + split; [done|lia].
    + destruct (parseTxtLine white line) as [p|] eqn:Hp; simpl in *.
      * split.
        { intros Hacc. apply IH1, Forall_app. split; [done|].
          apply Forall_singleton. by eapply parseTxtLine_clean. }
        rewrite length_app in IH2. simpl in IH2. lia.
      * split; [done|lia].
Qed.

(** X27. Every card the text import makes ([importCards],
    [handleDeckImportTxtFile]) has a word and a translation that are not
    empty and carry no white space at either end, as [saveCard] requires
    of a card typed in; and every non-blank line is accounted for: it gave
    a card, was counted as skipped, or starts with ['#']. *)
Theorem import_text_clean text :
  let r := import_text white text in
  Forall (fun p => clean white p.1 /\ clean white p.2) r.1
  /\ (length r.1 + r.2
      + length (List.filter comment_line (text_lines white text))
      = length (text_lines white text))%nat.
Proof.
  intros r. subst r. unfold import_text.
  destruct (import_lines_spec (text_lines white text) ([], 0%nat)) as [H1 H2].
  split; [by apply H1|]. simpl in H2. lia.
Qed.

Lemma indexOf_tab_here w rest :
  TAB ∉ w -> indexOf [TAB] (w ++ TAB :: rest) = Some (length w).
Proof.
  induction w as [|u w IH]; intros Hw; simpl.
  - done.
  - apply not_elem_of_cons in Hw as [Hu Hw].
    rewrite bool_decide_eq_false_2 by done. simpl. by rewrite IH.
Qed.

Lemma indexOf_tab_None s : TAB ∉ s -> indexOf [TAB] s = None.
Proof.
  induction s as [|u s IH]; intros Hs; simpl; [done|].
  apply not_elem_of_cons in Hs as [Hu Hs].
  rewrite bool_decide_eq_false_2 by done. simpl. by rewrite IH.
Qed.

Lemma indexOf_dash_here w t :
  HYPHEN ∉ w -> indexOf DASH_SEP (w ++ DASH_SEP ++ t) = Some (length w).
Proof.
  induction w as [|u w IH]; intros Hw; [done|].
  apply not_elem_of_cons in Hw as [Hu Hw].
  cbn [app indexOf].
  assert (startsWith DASH_SEP (u :: w ++ DASH_SEP ++ t) = false) as ->.
  { cbn [startsWith DASH_SEP]. apply andb_false_iff. right.
    destruct w as [|v w]; [done|].
    apply not_elem_of_cons in Hw as [Hv _].
    cbn [app startsWith]. by rewrite bool_decide_eq_false_2. }
  by rewrite IH.
Qed.

Lemma first_field_app t rest :
  TAB ∉ t -> rest = [] \/ (exists tags, rest = TAB :: tags) ->
  first_field (t ++ rest) = t.
Proof.
  intros Ht Hrest. induction t as [|u t IH]; simpl.
  - by destruct Hrest as [->|[tags ->]].
  - apply not_elem_of_cons in Ht as [Hu Ht].
    rewrite bool_decide_eq_false_2 by done. by rewrite IH.
Qed.

(** X28. A line in the tab-separated format is read back as written: a
    word and a translation that are not empty, have no white space at
    either end and contain no tab, joined by a tab and followed by nothing
    or by further tab-separated fields, parse to that word and that
    translation; the further fields are ignored, and a [' - '] inside
    either field does not split it. *)
Theorem parseTxtLine_tab_fields w t rest :
  clean white w -> clean white t ->
  TAB ∉ w -> TAB ∉ t ->
  rest = [] \/ (exists tags, rest = TAB :: tags) ->
  parseTxtLine white (w ++ TAB :: t ++ rest) = Some (w, t).
Proof.
  intros [Hw Hwt] [Ht Htt] Hwtab Httab Hrest.
  unfold parseTxtLine. rewrite indexOf_tab_here by done.
  destruct w as [|u w]; [done|]. cbn [length].
  change (S (length w)) with (length (u :: w)).
  rewrite take_app_length.
  rewrite <- drop_drop, drop_app_length. cbn [drop]. rewrite drop_0.
  rewrite first_field_app by done. rewrite Hwt, Htt.
  unfold fields. by destruct t.
Qed.

(** X29. A line in the dash format is read back as written when the word
    contains no hyphen: a word and a translation that are not empty, have
    no white space at either end and contain no tab, joined by [' - '],
    parse to that word and that translation, whatever hyphens the
    translation holds (the line is cut at the first [' - ']). *)
Theorem parseTxtLine_dash_fields w t :
  clean white w -> clean white t ->
  TAB ∉ w -> TAB ∉ t -> HYPHEN ∉ w ->
  parseTxtLine white (w ++ DASH_SEP ++ t) = Some (w, t).
Proof.
  intros [Hw Hwt] [Ht Htt] Hwtab Httab Hdash.
  unfold parseTxtLine. rewrite indexOf_tab_None.
  2:{ rewrite !not_elem_of_app. split; [done|]. split; [|done].
      unfold DASH_SEP. rewrite !not_elem_of_cons. repeat split; try done.
      apply not_elem_of_nil. }
  rewrite indexOf_dash_here by done.
  destruct w as [|u w]; [done|]. cbn [length].
  change (S (length w)) with (length (u :: w)).
  rewrite take_app_length.
  rewrite <- drop_drop, drop_app_length.
  change (drop 3 (DASH_SEP ++ t)) with t.
  rewrite Hwt, Htt. unfold fields. by destruct t.
Qed.

End TextProperties.

(** ** Properties of the deck import *)

Section ImportProperties.

Lemma or_else_absorb a b : or_else (or_else a b) b = or_else a b.
Proof.
  unfold or_else. destruct (truthy a) eqn:Ha; [by rewrite Ha|].
  by destruct (truthy b).
Qed.

Lemma or_else_undefined c : or_else VUndefined c = c.
Proof. done. Qed.

Lemma or_else_settled a b c :
  or_else (or_else a (or_else b c)) c = or_else a (or_else b c).
Proof.
  unfold or_else. destruct (truthy a) eqn:Ha; [by rewrite Ha|].
  destruct (truthy b) eqn:Hb; [by rewrite Hb|]. by destruct (truthy c).
Qed.

Lemma normalize_card_fixed c c' :
  normalize_card c = Some c' -> normalize_card c' = Some c'.
Proof.
  intros Hc.
  assert (c' = VObj [
        ("word", or_else (prop c "word") (VStr ""));
        ("translation", or_else (prop c "translation") (VStr ""));
        ("sessionStatus",
           or_else (prop c "sessionStatus")
             (or_else (prop c "session_status") (VStr "TO_REVIEW")));
        ("dueDate",
           or_else (prop c "dueDate") (or_else (prop c "due_date") VNull));
        ("interval",
           if not_nullish (prop c "interval") then prop c "interval"
           else VNum 1);
        ("easeFactor",
           or_else (prop c "easeFactor")
             (or_else (prop c "ease_factor") (VNum 2.5)))]) as ->.
  { destruct c; simpl in Hc; try done; by injection Hc as <-. }
  unfold normalize_card.
  cbn [prop own lookup_prop String.eqb Ascii.eqb Bool.eqb default from_option].
  unfold id. rewrite !or_else_absorb, !or_else_undefined, !or_else_settled.
  by destruct (not_nullish (prop c "interval")) eqn:Hi; rewrite ?Hi.
Qed.

Lemma lookup_set_eq k x props : lookup_prop k (set_prop k x props) = Some x.
Proof.
  induction props as [|[k' v] ps IH]; simpl.
  - by rewrite String.eqb_refl.
  - destruct (String.eqb k' k) eqn:Hk; simpl.
    + by rewrite String.eqb_refl.
    + by rewrite Hk.
Qed.

Lemma lookup_set_ne k k' x props :
  k <> k' -> lookup_prop k' (set_prop k x props) = lookup_prop k' props.
Proof.
  intros Hne. apply String.eqb_neq in Hne.
  induction props as [|[k0 v] ps IH]; simpl.
  - by rewrite Hne.
  - destruct (String.eqb k0 k) eqn:Hk; simpl.
    + apply String.eqb_eq in Hk as ->. by rewrite Hne.
    + by rewrite IH.
Qed.

Lemma set_prop_same k x props :
  lookup_prop k props = Some x -> set_prop k x props = props.
Proof.
  induction props as [|[k0 v] ps IH]; simpl; [done|].
  destruct (String.eqb k0 k) eqn:Hk.
  - apply String.eqb_eq in Hk as ->. by intros [= ->].
  - intros Hl. by rewrite IH.
Qed.

Lemma assign_is_obj o k x : is_obj o -> is_obj (assign o k x).
Proof. intros [p ->]. by eexists. Qed.

Lemma own_assign_eq o k x : is_obj o -> own (assign o k x) k = Some x.
Proof. intros [p ->]. apply lookup_set_eq. Qed.

Lemma own_assign_ne o k k' x : k <> k' -> own (assign o k x) k' = own o k'.
Proof. intros Hne. destruct o; try done. by apply lookup_set_ne. Qed.

Lemma prop_assign_ne o k k' x : k <> k' -> prop (assign o k x) k' = prop o k'.
Proof. intros Hne. unfold prop. by rewrite own_assign_ne. Qed.

Lemma assign_same o k x : own o k = Some x -> assign o k x = o.
Proof. destruct o; try done. simpl. intros Hl. by rewrite set_prop_same. Qed.

Lemma fill_is_obj k alt dflt o : is_obj o -> is_obj (fill k alt dflt o).
Proof. apply assign_is_obj. Qed.

Lemma fill_settles k alt dflt o :
  k <> alt -> is_obj o -> settled k alt dflt (fill k alt dflt o).
Proof.
  intros Hne Hobj. unfold settled, fill. eexists.
  split; [by apply own_assign_eq|].
  rewrite prop_assign_ne by done. apply or_else_absorb.
Qed.

Lemma settled_fill k alt dflt k' alt' dflt' o :
  k' <> k -> k' <> alt ->
  settled k alt dflt o -> settled k alt dflt (fill k' alt' dflt' o).
Proof.
  intros Hk Halt (v & Hv & Hfix). exists v. unfold fill.
  rewrite own_assign_ne, prop_assign_ne by done. done.
Qed.

Lemma settled_fixed k alt dflt o : settled k alt dflt o -> fill k alt dflt o = o.
Proof.
  intros (v & Hv & Hfix). unfold fill.
  assert (prop o k = v) as -> by (unfold prop; by rewrite Hv).
  rewrite Hfix. by apply assign_same.
Qed.

Lemma own_fill_ne k alt dflt k' o :
  k <> k' -> own (fill k alt dflt o) k' = own o k'.
Proof. intros Hne. by apply own_assign_ne. Qed.

Lemma mapM_fixed (f : value -> option value) l :
  Forall (fun x => f x = Some x) l -> mapM f l = Some l.
Proof.
  intros Hl. apply mapM_Some. induction Hl; by constructor.
Qed.

Lemma filter_idem {A} (f : A -> bool) (l : list A) :
  List.filter f (List.filter f l) = List.filter f l.
Proof.
  induction l as [|x l IH]; simpl; [done|].
  destruct (f x) eqn:Hx; simpl; [|done]. by rewrite Hx, IH.
Qed.

Lemma Forall_filter {A} (P : A -> Prop) (f : A -> bool) (l : list A) :
  Forall P l -> Forall (fun x => P x /\ f x = true) (List.filter f l).
Proof.
  induction 1 as [|x l Hx Hl IH]; simpl; [done|].
  destruct (f x) eqn:Hfx; [|done]. by constructor.
Qed.

(** X30. What [importDeck] returns is in normal form: importing it again
    returns it unchanged; the name is the file's; and every card is an
    object with exactly the six properties word, translation,
    sessionStatus, dueDate, interval and easeFactor that normalizing leaves
    as it is, and has a truthy word or translation. *)
Theorem importDeck_normal_form data d :
  importDeck data = Imported d ->
  importDeck d = Imported d
  /\ prop d "name" = prop data "name"
  /\ exists cards, prop d "cards" = VArr cards /\ Forall normal_card cards.
Proof.
  unfold importDeck. intros H.
  destruct (negb (truthy data) || negb (is_object data)) eqn:H1; [done|].
  destruct (negb (truthy (prop data "name"))
            || negb (is_string (prop data "name"))) eqn:H2; [done|].
  assert (is_obj data) as Hobj.
  { destruct data; try done. by eexists. }
  destruct (prop data "cards") as [| | | | |items|] eqn:Hcards; try done.
  destruct (mapM normalize_card items) as [cards|] eqn:Hmap; [|done].
  apply mapM_Some in Hmap.
  assert (Forall (fun c => normalize_card c = Some c) cards) as Hfixed.
  { clear -Hmap. induction Hmap as [|x y l k Hxy _ IH]; constructor; [|done].
    by eapply normalize_card_fixed. }
  pose proof (Forall_filter _ has_text _ Hfixed) as Hkept.
  set (kept := List.filter has_text cards) in *.
  set (d0 := assign data "cards" (VArr kept)) in *.
  assert (is_obj d0) as Hobj0 by by apply assign_is_obj.
  set (d1 := fill "dailyLimit" "daily_limit" (VNum 5) d0) in *.
  set (d2 := fill "learningMode" "learning_mode" (VStr "simple") d1) in *.
  set (d3 := fill "lastSessionDate" "last_session_date" VNull d2) in *.
  set (d4 := fill "cardsReviewedToday" "cards_reviewed_today" (VNum 0) d3) in *.
  set (d5 := fill "sessionExtension" "session_extension" (VNum 0) d4) in *.
  injection H as <-.
  assert (is_obj d1) as Hobj1 by by apply fill_is_obj.
  assert (is_obj d2) as Hobj2 by by apply fill_is_obj.
  assert (is_obj d3) as Hobj3 by by apply fill_is_obj.
  assert (is_obj d4) as Hobj4 by by apply fill_is_obj.
  assert (is_obj d5) as Hobj5 by by apply fill_is_obj.
  assert (own d5 "cards" = Some (VArr kept)) as Hown.
  { unfold d5, d4, d3, d2, d1. rewrite !own_fill_ne by done.
    by apply own_assign_eq. }
  assert (prop d5 "name" = prop data "name") as Hname.
  { unfold prop, d5, d4, d3, d2, d1. rewrite !own_fill_ne by done.
    unfold d0. by rewrite own_assign_ne. }
  assert (settled "dailyLimit" "daily_limit" (VNum 5) d5) as Hs1.
  { do 4 (apply settled_fill; [done|done|]). by apply fill_settles. }
  assert (settled "learningMode" "learning_mode" (VStr "simple") d5) as Hs2.
  { do 3 (apply settled_fill; [done|done|]). by apply fill_settles. }
  assert (settled "lastSessionDate" "last_session_date" VNull d5) as Hs3.
  { do 2 (apply settled_fill; [done|done|]). by apply fill_settles. }
  assert (settled "cardsReviewedToday" "cards_reviewed_today" (VNum 0) d5)
    as Hs4.
  { do 1 (apply settled_fill; [done|done|]). by apply fill_settles. }
  assert (settled "sessionExtension" "session_extension" (VNum 0) d5) as Hs5
    by by apply fill_settles.
  assert (prop d5 "cards" = VArr kept) as Hpc by (unfold prop; by rewrite Hown).
  clearbody d5. split; [|split; [done|]].
  - rewrite Hname, H2.
    destruct Hobj5 as [p5 ->]. simpl negb. simpl orb. cbv iota.
    rewrite Hpc.
    rewrite (mapM_fixed normalize_card kept).
    2:{ eapply Forall_impl; [exact Hkept|]. by intros c [Hc _]. }
    unfold kept at 1. rewrite filter_idem. fold kept.
    rewrite (assign_same _ _ _ Hown).
    by rewrite (settled_fixed _ _ _ _ Hs1), (settled_fixed _ _ _ _ Hs2),
      (settled_fixed _ _ _ _ Hs3), (settled_fixed _ _ _ _ Hs4),
      (settled_fixed _ _ _ _ Hs5).
  - exists kept. split; [done|]. exact Hkept.
Qed.

End ImportProperties.

(** ** Instances of the further properties *)

#[local] Abbreviation SW := (sample_world simple (Some 2)).
#[local] Abbreviation BW := (built_world simple).

Lemma cards_allocated_check (h : list (card Z)) (d : deck Z) :
  forallb (fun l => bool_decide (l < length h)%nat) (cards d) = true ->
  cards_allocated h d.
Proof.
  intros Hall l Hl. apply lookup_lt_is_Some.
  rewrite forallb_forall in Hall. apply list_elem_of_In in Hl.
  specialize (Hall l Hl). by apply bool_decide_eq_true in Hall.
Qed.

Lemma sample_cards_NoDup : NoDup [0; 1; 2]%nat.
Proof. repeat constructor; rewrite ?elem_of_cons, ?elem_of_nil; lia. Qed.

Lemma queue_NoDup_witness :
  NoDup (cards (dk SW)) /\ NoDup (queue (ss BW)).
Proof.
  split; [exact sample_cards_NoDup|].
  exact (queue_NoDup SW today0 first_draw sample_cards_NoDup).
Defined.

Lemma getDeckStats_partition_witness :
  cards_allocated (heap SW) (dk SW)
  /\ (stats_open (getDeckStats (heap SW) (dk SW) today0)
      + stats_closed (getDeckStats (heap SW) (dk SW) today0))%nat
     = stats_total (getDeckStats (heap SW) (dk SW) today0).
Proof.
  assert (cards_allocated (heap SW) (dk SW)) as H1
    by (apply cards_allocated_check; reflexivity).
  split; [exact H1|].
  exact (proj1 (getDeckStats_partition (heap SW) (dk SW) today0 H1)).
Defined.

Lemma simple_session_completes_witness :
  learningMode (dk BW) = simple
  /\ (currentIndex (ss BW) <= length (queue (ss BW)))%nat
  /\ length [forgot; remembered]
     = (length (queue (ss BW)) - currentIndex (ss BW))%nat
  /\ isComplete (rateCards BW [forgot; remembered] today0) = true.
Proof.
  assert (learningMode (dk BW) = simple) as H1 by reflexivity.
  assert (currentIndex (ss BW) <= length (queue (ss BW)))%nat as H2
    by (vm_compute; lia).
  assert (length [forgot; remembered]
          = (length (queue (ss BW)) - currentIndex (ss BW))%nat) as H3
    by reflexivity.
  split; [exact H1|]. split; [exact H2|]. split; [exact H3|].
  exact (proj1 (simple_session_completes BW [forgot; remembered] today0
                  H1 H2 H3)).
Defined.

Lemma rateCard_rates_queue_card_witness :
  queue (ss BW) !! currentIndex (ss BW) = Some 1%nat
  /\ heap BW !! 1%nat = Some gato
  /\ cards (dk BW) = [0%nat] ++ 1%nat :: [2%nat]
  /\ find_deckCard (heap BW) (dk BW) 1%nat = Some 1%nat.
Proof.
  assert (queue (ss BW) !! currentIndex (ss BW) = Some 1%nat) as H1
    by reflexivity.
  assert (heap BW !! 1%nat = Some gato) as H2 by reflexivity.
  assert (cards (dk BW) = [0%nat] ++ 1%nat :: [2%nat]) as H3 by reflexivity.
  assert (forall l c, l ∈ [0%nat] -> heap BW !! l = Some c ->
            ~ (word c = word gato /\ translation c = translation gato)) as H4.
  { intros l c Hl Hc. apply list_elem_of_singleton in Hl as ->.
    injection Hc as <-. intros [Hw _]. discriminate Hw. }
  split; [exact H1|]. split; [exact H2|]. split; [exact H3|].
  exact (proj1 (rateCard_rates_queue_card BW remembered today0 1%nat gato
                  [0%nat] [2%nat] H1 H2 H3 H4)).
Defined.

Lemma rateCard_rates_first_duplicate_witness :
  queue (ss duplicate_world) !! currentIndex (ss duplicate_world) = Some 2%nat
  /\ heap duplicate_world !! 2%nat = Some hola
  /\ cards (dk duplicate_world) = [] ++ 0%nat :: [1; 2]%nat
  /\ heap duplicate_world !! 0%nat = Some hola
  /\ 0%nat <> 2%nat
  /\ find_deckCard (heap duplicate_world) (dk duplicate_world) 2%nat
     = Some 0%nat
  /\ heap (rateCard duplicate_world remembered today0).1 !! 0%nat
     = Some {| word := "Hola"; translation := "Hello";
               sessionStatus := Val FINISHED; dueDate := Null;
               interval := Val 1; easeFactor := Val 2.5%float |}
  /\ heap (rateCard duplicate_world remembered today0).1 !! 2%nat = Some hola.
Proof.
  assert (queue (ss duplicate_world) !! currentIndex (ss duplicate_world)
          = Some 2%nat) as H1 by reflexivity.
  assert (heap duplicate_world !! 2%nat = Some hola) as H2 by reflexivity.
  assert (cards (dk duplicate_world) = [] ++ 0%nat :: [1; 2]%nat) as H3
    by reflexivity.
  assert (heap duplicate_world !! 0%nat = Some hola) as H4 by reflexivity.
  assert (word hola = word hola /\ translation hola = translation hola) as H5
    by (split; reflexivity).
  assert (0%nat <> 2%nat) as H6 by discriminate.
  assert (forall l' c', l' ∈ @nil nat ->
            heap duplicate_world !! l' = Some c' ->
            l' <> 2%nat
            /\ ~ (word c' = word hola /\ translation c' = translation hola))
    as H7.
  { intros l' c' Hl'. by apply elem_of_nil in Hl'. }
  split; [exact H1|]. split; [exact H2|]. split; [exact H3|].
  split; [exact H4|]. split; [exact H6|].
  destruct (rateCard_rates_first_duplicate duplicate_world remembered today0
              2%nat hola 0%nat hola [] [1; 2]%nat H1 H2 H3 H4 H5 H6 H7)
    as (Hfind & Hwritten & Hkept).
  split; [exact Hfind|]. split; [|exact Hkept].
  exact (proj2 (Hwritten _ eq_refl)).
Defined.

Lemma session_stays_consistent_witness :
  session_ok (ss SW)
  /\ reachable SW (rateCard BW remembered today0).1
  /\ session_ok (ss (rateCard BW remembered today0).1).
Proof.
  assert (session_ok (ss SW)) as H1 by (split; simpl; [lia|exact I]).
  assert (reachable SW (rateCard BW remembered today0).1) as H2.
  { eapply reach_step; [eapply reach_step; [apply reach_here|]|].
    - apply (step_buildQueue _ today0 first_draw first_draw_ok).
    - apply step_rateCard. }
  split; [exact H1|]. split; [exact H2|].
  exact (proj1 (session_stays_consistent SW _ H1 H2)).
Defined.

Lemma second_rating_replaces_undo_witness :
  queue (ss BW) !! currentIndex (ss BW) = Some 1%nat
  /\ find_deckCard (heap BW) (dk BW) 1%nat = Some 1%nat
  /\ heap BW !! 1%nat = Some gato
  /\ heap (rateCard BW remembered today0).1 !! 2%nat = Some pan
  /\ complete pan
  /\ heap (rewind (rateCard (rateCard BW remembered today0).1 forgot
                     today0).1).1 !! 1%nat
     = Some (applySimpleRating gato remembered).
Proof.
  assert (queue (ss BW) !! currentIndex (ss BW) = Some 1%nat) as H1
    by reflexivity.
  assert (find_deckCard (heap BW) (dk BW) 1%nat = Some 1%nat) as H2
    by (vm_compute; reflexivity).
  assert (heap BW !! 1%nat = Some gato) as H3 by reflexivity.
  assert (applyRating (learningMode (dk BW)) gato remembered today0
          = Some (applySimpleRating gato remembered)) as H4 by reflexivity.
  assert (queue (ss (rateCard BW remembered today0).1)
            !! currentIndex (ss (rateCard BW remembered today0).1)
          = Some 2%nat) as H5 by (vm_compute; reflexivity).
  assert (find_deckCard (heap (rateCard BW remembered today0).1)
            (dk (rateCard BW remembered today0).1) 2%nat = Some 2%nat) as H6
    by (vm_compute; reflexivity).
  assert (heap (rateCard BW remembered today0).1 !! 2%nat = Some pan) as H7
    by (vm_compute; reflexivity).
  assert (complete pan) as H8 by (repeat split; discriminate).
  split; [exact H1|]. split; [exact H2|]. split; [exact H3|].
  split; [exact H7|]. split; [exact H8|].
  exact (proj1 (proj2 (second_rating_replaces_undo BW remembered forgot today0
                         1%nat 1%nat gato (applySimpleRating gato remembered)
                         2%nat 2%nat pan H1 H2 H3 H4 H5 H6 H7 H8))).
Defined.

Lemma rate_then_rewind_restores_witness :
  queue (ss BW) !! currentIndex (ss BW) = Some 1%nat
  /\ find_deckCard (heap BW) (dk BW) 1%nat = Some 1%nat
  /\ heap BW !! 1%nat = Some gato
  /\ complete gato
  /\ (rewind (rateCard BW remembered today0).1).2 = true
  /\ heap (rewind (rateCard BW remembered today0).1).1 = heap BW.
Proof.
  assert (queue (ss BW) !! currentIndex (ss BW) = Some 1%nat) as H1
    by reflexivity.
  assert (find_deckCard (heap BW) (dk BW) 1%nat = Some 1%nat) as H2
    by (vm_compute; reflexivity).
  assert (heap BW !! 1%nat = Some gato) as H3 by reflexivity.
  assert (complete gato) as H4 by (repeat split; discriminate).
  split; [exact H1|]. split; [exact H2|]. split; [exact H3|].
  split; [exact H4|].
  pose proof (rate_then_rewind_restores BW remembered today0 1%nat 1%nat gato
                H1 H2 H3 H4) as H.
  exact (conj (proj1 H) (proj1 (proj2 H))).
Defined.

Lemma extendSession_after_limit_witness :
  lastSessionDate (dk used_up_world) = Some today0
  /\ or_int (cardsReviewedToday (dk used_up_world)) 0
     = effectiveLimit (dk used_up_world)
  /\ length (queue (ss (extendSession used_up_world 1 today0 first_draw)))
     = Nat.min (Z.to_nat (Z.max 1 1))
         (length (candidates (heap used_up_world) (dk used_up_world) today0)).
Proof.
  assert (lastSessionDate (dk used_up_world) = Some today0) as H1
    by reflexivity.
  assert (or_int (cardsReviewedToday (dk used_up_world)) 0
          = effectiveLimit (dk used_up_world)) as H2 by reflexivity.
  split; [exact H1|]. split; [exact H2|].
  exact (extendSession_after_limit used_up_world 1 today0 first_draw H1 H2).
Defined.

Lemma simple_rating_effect_witness :
  learningMode (dk BW) = simple
  /\ queue (ss BW) !! currentIndex (ss BW) = Some 1%nat
  /\ find_deckCard (heap BW) (dk BW) 1%nat = Some 1%nat
  /\ forall today' rnd,
       1%nat ∉ queue (ss (buildQueue (rateCard BW remembered today0).1
                            today' rnd)).
Proof.
  assert (learningMode (dk BW) = simple) as H1 by reflexivity.
  assert (queue (ss BW) !! currentIndex (ss BW) = Some 1%nat) as H2
    by reflexivity.
  assert (find_deckCard (heap BW) (dk BW) 1%nat = Some 1%nat) as H3
    by (vm_compute; reflexivity).
  split; [exact H1|]. split; [exact H2|]. split; [exact H3|].
  exact (proj1 (simple_rating_effect BW remembered today0 1%nat 1%nat
                  H1 H2 H3) eq_refl).
Defined.

Lemma spaced_rating_effect_witness :
  noon_on_same_day utc_host
  /\ four_digit_year today0
  /\ learningMode (dk (built_world spaced)) = spaced
  /\ applySpacedRating gato good today0
     = Some {| word := "Gato"; translation := "Cat";
               sessionStatus := Val SPACED; dueDate := Val (today0 + 3);
               interval := Val 3; easeFactor := Val 2.5%float |}
  /\ four_digit_year (today0 + 3)
  /\ JS.isoDate today0 = "2024-10-04"
  /\ JS.isoDate (today0 + 3) = "2024-10-07"
  /\ forall rnd,
       1%nat ∉ queue (ss (buildQueue
                            (rateCard (built_world spaced) good today0).1
                            today0 rnd)).
Proof.
  assert (four_digit_year today0) as H1 by (unfold four_digit_year, today0; lia).
  assert (learningMode (dk (built_world spaced)) = spaced) as H3
    by reflexivity.
  assert (queue (ss (built_world spaced))
            !! currentIndex (ss (built_world spaced)) = Some 1%nat) as H4
    by reflexivity.
  assert (find_deckCard (heap (built_world spaced)) (dk (built_world spaced))
            1%nat = Some 1%nat) as H5 by (vm_compute; reflexivity).
  assert (heap (built_world spaced) !! 1%nat = Some gato) as H6
    by reflexivity.
  assert (applySpacedRating gato good today0
          = Some {| word := "Gato"; translation := "Cat";
                    sessionStatus := Val SPACED; dueDate := Val (today0 + 3);
                    interval := Val 3; easeFactor := Val 2.5%float |}) as H7
    by (vm_compute; reflexivity).
  assert (four_digit_year (today0 + 3)) as H8
    by (unfold four_digit_year, today0; lia).
  split; [exact utc_noon_same_day|]. split; [exact H1|]. split; [exact H3|].
  split; [exact H7|]. split; [exact H8|].
  split; [vm_compute; reflexivity|]. split; [vm_compute; reflexivity|].
  destruct (proj2 (proj2 (spaced_rating_effect utc_host (built_world spaced)
                            good today0 1%nat 1%nat gato _
                            utc_noon_same_day H1 H3 H4 H5 H6 H7))
              (or_intror (or_introl eq_refl)))
    as (n & _ & Hi & _ & Hq).
  injection Hi as <-. exact (Hq H8).
Defined.

(** Past 9999-12-31 the year is printed with a sign, and the string
    compares below today's: rated hard at an interval of 2500000 days the
    card is due on +010238-06-25 and is queued again on the same day. *)
Example due_after_year_9999 :
  let w1 := (rateCard (single_world long_card) hard today0).1 in
  heap w1 !! 0%nat
  = Some {| word := "Pan"; translation := "Bread";
            sessionStatus := Val SPACED; dueDate := Val (today0 + 3000000);
            interval := Val 3000000; easeFactor := Val 2.35%float |}
  /\ JS.isoDate (today0 + 3000000) = "+010238-06-25"
  /\ JS.string_leb "+010238-06-25" "2024-10-04" = true
  /\ queue (ss (buildQueue w1 today0 first_draw)) = [0%nat].
Proof. vm_compute. repeat split. Qed.

(** On a host 13 hours ahead of UTC the due date after hard at interval 1
    is today, and the card is queued again on the same day. *)
Example due_today_13_hours_ahead :
  let w1 := (rateCard (Calendar0 := js_calendar utc_plus_13)
               (single_world hola) hard today0).1 in
  heap w1 !! 0%nat
  = Some {| word := "Hola"; translation := "Hello";
            sessionStatus := Val SPACED; dueDate := Val today0;
            interval := Val 1; easeFactor := Val 2.35%float |}
  /\ queue (ss (buildQueue (Calendar0 := js_calendar utc_plus_13) w1 today0
                  first_draw)) = [0%nat].
Proof. vm_compute. repeat split. Qed.

Lemma saveSettings_spec_witness :
  currentDeck sample_ui = Some (dk BW)
  /\ exists d',
       currentDeck (saveSettings sample_ui (Some spaced) (Some 1000) today0
                      first_draw) = Some d'
       /\ dailyLimit d' = Some 500
       /\ learningMode d' = spaced.
Proof.
  assert (currentDeck sample_ui = Some (dk BW)) as H2 by reflexivity.
  split; [exact H2|].
  destruct (saveSettings_spec sample_ui (dk BW) (Some spaced) (Some 1000)
              today0 first_draw H2)
    as (d' & L & Hd' & Hlimit & HL & Hmode & _).
  exists d'. split; [exact Hd'|]. split; [|exact Hmode].
  rewrite Hlimit. f_equal. apply (proj2 (proj2 HL)). lia.
Defined.

Lemma resetDeckCards_spec_witness :
  currentDeck worn_ui = Some worn_deck
  /\ cards_allocated (objects worn_ui) worn_deck
  /\ objects worn_ui !! 0%nat = Some worn_card
  /\ objects (resetDeckCards worn_ui true today0 first_draw) !! 0%nat
     = Some {| word := "Pan"; translation := "Bread";
               sessionStatus := Val TO_REVIEW; dueDate := Null;
               interval := Val 1; easeFactor := Val 2.5%float |}
  /\ objects (resetDeckCards worn_ui true today0 first_draw) !! 1%nat
     = Some gato
  /\ length (queue (session_vars
                      (resetDeckCards worn_ui true today0 first_draw)))
     = 1%nat.
Proof.
  assert (currentDeck worn_ui = Some worn_deck) as H2 by reflexivity.
  assert (cards_allocated (objects worn_ui) worn_deck) as H3
    by (apply cards_allocated_check; reflexivity).
  split; [exact H2|]. split; [exact H3|]. split; [reflexivity|].
  destruct (resetDeckCards_spec worn_ui worn_deck today0 first_draw H2 H3)
    as (Hreset & Hother & _ & Hlen & _).
  split; [apply (Hreset 0%nat worn_card); [by left|reflexivity]|].
  split.
  - rewrite Hother; [reflexivity|].
    intros Hin. apply list_elem_of_singleton in Hin. discriminate Hin.
  - rewrite Hlen. reflexivity.
Defined.

Lemma ui_stays_consistent_witness :
  ui_reachable opened_ui /\ ui_consistent opened_ui.
Proof.
  assert (ui_reachable opened_ui) as H1.
  { eapply ui_reach_step; [apply ui_reach_init|].
    apply (ui_openDeck initial_ui _ today0 first_draw first_draw_ok). }
  split; [exact H1|].
  exact (proj1 (ui_stays_consistent opened_ui H1)).
Defined.

Lemma delete_then_rate_skips_witness :
  currentDeck sample_ui = Some (dk BW)
  /\ queue (session_vars sample_ui) !! currentIndex (session_vars sample_ui)
     = Some 1%nat
  /\ cards (dk BW) !! 1%nat = Some 1%nat
  /\ exists d1,
       currentDeck (deleteCard sample_ui 1 true) = Some d1
       /\ cards d1 = delete 1%nat (cards (dk BW))
       /\ rateCard (world_of (deleteCard sample_ui 1 true) d1) remembered
            today0
          = ({| heap := objects sample_ui;
                dk := d1;
                ss := {| queue := queue (session_vars sample_ui);
                         currentIndex :=
                           S (currentIndex (session_vars sample_ui));
                         rewindBackup :=
                           rewindBackup (session_vars sample_ui) |} |},
             Returned).
Proof.
  assert (currentDeck sample_ui = Some (dk BW)) as H1 by reflexivity.
  assert (queue (session_vars sample_ui)
            !! currentIndex (session_vars sample_ui) = Some 1%nat) as H2
    by reflexivity.
  assert (cards (dk BW) !! 1%nat = Some 1%nat) as H3 by reflexivity.
  assert (forall j l c, j <> 1%nat -> cards (dk BW) !! j = Some l ->
            objects sample_ui !! l = Some c ->
            l <> 1%nat
            /\ forall qc, objects sample_ui !! 1%nat = Some qc ->
                 ~ (word c = word qc /\ translation c = translation qc))
    as H4.
  { intros j l c Hj Hl Hc.
    destruct j as [|[|[|j]]]; [| |..]; try done;
      injection Hl as <-; injection Hc as <-;
      (split; [discriminate|]); intros qc [= <-] [Hw _]; discriminate Hw. }
  split; [exact H1|]. split; [exact H2|]. split; [exact H3|].
  exact (delete_then_rate_skips sample_ui (dk BW) remembered today0 1%nat
           1%nat H1 H2 H3 H4).
Defined.

Lemma saveCard_adds_card_witness :
  currentDeck sample_ui = Some (dk BW)
  /\ "Casa" <> "" /\ "House" <> ""
  /\ exists d',
       currentDeck (saveCard sample_ui None "Casa" "House") = Some d'
       /\ cards d' = [0; 1; 2; 3]%nat
       /\ objects (saveCard sample_ui None "Casa" "House") !! 3%nat
          = Some {| word := "Casa"; translation := "House";
                    sessionStatus := Val TO_REVIEW; dueDate := Null;
                    interval := Val 1; easeFactor := Val 2.5%float |}.
Proof.
  assert (currentDeck sample_ui = Some (dk BW)) as H1 by reflexivity.
  assert ("Casa" <> "") as H2 by discriminate.
  assert ("House" <> "") as H3 by discriminate.
  split; [exact H1|]. split; [exact H2|]. split; [exact H3|].
  destruct (saveCard_adds_card sample_ui (dk BW) "Casa" "House" today0
              H1 H2 H3) as (d' & Hd' & Hcards & _ & Hnew & _).
  exists d'. split; [exact Hd'|]. split; [exact Hcards|exact Hnew].
Defined.

Lemma names_stay_ok_witness :
  names_ok empty_stored
  /\ names_ok (saveDeck sample_stringify sample_stringify_config unlimited
                 empty_stored (Some ("Spanish", "cards"))).1
  /\ names_ok (deleteDeck sample_stringify_config unlimited empty_stored
                 "Spanish").
Proof.
  assert (names_ok empty_stored) as H1.
  { split; [apply NoDup_nil_2|]. intros n Hn. by apply elem_of_nil in Hn. }
  split; [exact H1|].
  exact (names_stay_ok sample_stringify sample_stringify_config unlimited
           empty_stored (Some ("Spanish", "cards")) "Spanish" H1).
Defined.

Lemma units_clean (s : string) :
  nonempty (units s) = true ->
  bool_decide (trim js_white (units s) = units s) = true ->
  clean js_white (units s).
Proof.
  intros Hne Htrim. split.
  - by destruct (units s).
  - by apply bool_decide_eq_true in Htrim.
Qed.

Lemma parseTxtLine_tab_fields_witness :
  clean js_white (units "Hola") /\ clean js_white (units "Hello - hi")
  /\ (TAB ∉ units "Hola") /\ (TAB ∉ units "Hello - hi")
  /\ parseTxtLine js_white
       (units "Hola" ++ TAB :: units "Hello - hi" ++ TAB :: units "greeting")
     = Some (units "Hola", units "Hello - hi").
Proof.
  assert (clean js_white (units "Hola")) as H1
    by (apply units_clean; reflexivity).
  assert (clean js_white (units "Hello - hi")) as H2
    by (apply units_clean; reflexivity).
  assert (TAB ∉ units "Hola") as H3
    by (apply (bool_decide_unpack _); reflexivity).
  assert (TAB ∉ units "Hello - hi") as H4
    by (apply (bool_decide_unpack _); reflexivity).
  split; [exact H1|]. split; [exact H2|]. split; [exact H3|].
  split; [exact H4|].
  exact (parseTxtLine_tab_fields js_white (units "Hola") (units "Hello - hi")
           (TAB :: units "greeting") H1 H2 H3 H4
           (or_intror (ex_intro _ (units "greeting") eq_refl))).
Defined.

Lemma parseTxtLine_dash_fields_witness :
  clean js_white (units "Gato") /\ clean js_white (units "Cat - animal")
  /\ (TAB ∉ units "Gato") /\ (TAB ∉ units "Cat - animal")
  /\ (HYPHEN ∉ units "Gato")
  /\ parseTxtLine js_white (units "Gato" ++ DASH_SEP ++ units "Cat - animal")
     = Some (units "Gato", units "Cat - animal").
Proof.
  assert (clean js_white (units "Gato")) as H1
    by (apply units_clean; reflexivity).
  assert (clean js_white (units "Cat - animal")) as H2
    by (apply units_clean; reflexivity).
  assert (TAB ∉ units "Gato") as H3
    by (apply (bool_decide_unpack _); reflexivity).
  assert (TAB ∉ units "Cat - animal") as H4
    by (apply (bool_decide_unpack _); reflexivity).
  assert (HYPHEN ∉ units "Gato") as H5
    by (apply (bool_decide_unpack _); reflexivity).
  split; [exact H1|]. split; [exact H2|]. split; [exact H3|].
  split; [exact H4|]. split; [exact H5|].
  exact (parseTxtLine_dash_fields js_white (units "Gato")
           (units "Cat - animal") H1 H2 H3 H4 H5).
Defined.

Lemma importDeck_normal_form_witness :
  importDeck sample_file = Imported sample_imported
  /\ importDeck sample_imported = Imported sample_imported.
Proof.
  assert (importDeck sample_file = Imported sample_imported) as H
    by (vm_compute; reflexivity).
  split; [exact H|].
  exact (proj1 (importDeck_normal_form sample_file sample_imported H)).
Defined.
